(** * Channel Manager: the template pipeline, embedded and verified

    A shallow embedding of the template pipeline of the Channel Manager bot:
    - [textParser.js]    (parseTextStructure and its helpers),
    - [serverBuilder.js] (buildServerFromTemplate and its helpers),
    - [index.js]         (fromGuild, ensureTemplateSafe).

    JavaScript strings are sequences of UTF-16 code units, modelled as
    [list N].  The regular expressions of the source are transcribed as
    terms of a small regular-expression syntax and run by a backtracking
    matcher that follows the ECMAScript matching order. *)

From Stdlib Require Import NArith ZArith List String Ascii Bool Lia Permutation.
From Stdlib Require Import DecimalN DecimalFacts.
From stdpp Require Import base option list gmap.

Import ListNotations.
Local Open Scope N_scope.

(* ===================================================================== *)
(** * Part I: JavaScript strings and built-ins                            *)
(* ===================================================================== *)

Module JS.

(** A string value: its UTF-16 code units. *)
Definition jsstring := list N.

(** ASCII literals of the source, as code units. *)
Definition lit (s : string) : jsstring :=
  List.map N_of_ascii (list_ascii_of_string s).

Definition inRange (lo hi c : N) : bool := (lo <=? c) && (c <=? hi).

Definition jeqb (a b : jsstring) : bool :=
  if decide (a = b) then true else false.

(** Truthiness of a string: non-empty. *)
Definition truthy (s : jsstring) : bool :=
  match s with [] => false | _ => true end.

(** [a || b] on strings. *)
Definition orElse (a b : jsstring) : jsstring := if truthy a then a else b.

(** ** Character classes *)

(** WhiteSpace and LineTerminator code units: the class [\s], and what
    [trim] strips. *)
Definition isWhite (c : N) : bool :=
  existsb (N.eqb c) [9; 10; 11; 12; 13; 32; 160; 5760; 8232; 8233; 8239; 8287; 12288; 65279]
  || inRange 8192 8202 c.

(** LineTerminator: what [.] does not match. *)
Definition isLineTerminator (c : N) : bool :=
  existsb (N.eqb c) [10; 13; 8232; 8233].

Definition isDigit (c : N) : bool := inRange 48 57 c.
Definition isUpper (c : N) : bool := inRange 65 90 c.
Definition isLower (c : N) : bool := inRange 97 122 c.
Definition isAsciiLetter (c : N) : bool := isUpper c || isLower c.

(** [\w] *)
Definition isWord (c : N) : bool := isAsciiLetter c || isDigit c || (c =? 95).

(** [[0-9a-fA-F]] *)
Definition isHex (c : N) : bool := isDigit c || inRange 97 102 c || inRange 65 70 c.

Definition asciiLower (c : N) : N := if isUpper c then c + 32 else c.

(** A pattern character under the [i] flag (without [u]): a code unit
    matches when both canonicalize to the same unit.  Canonicalization never
    maps a non-ASCII unit to an ASCII one, so for the ASCII pattern
    characters of the source this is equality up to ASCII case. *)
Definition ieq (p c : N) : bool := asciiLower p =? asciiLower c.

(** ** trim, trimEnd, slice, includes *)

Fixpoint trimStart (s : jsstring) : jsstring :=
  match s with
  | c :: s' => if isWhite c then trimStart s' else s
  | [] => []
  end.

Definition trimEnd (s : jsstring) : jsstring := rev (trimStart (rev s)).
Definition trim (s : jsstring) : jsstring := trimEnd (trimStart s).

(** [s.slice(0, n)] *)
Definition slice0 (n : nat) (s : jsstring) : jsstring := firstn n s.

Fixpoint isPrefix (p s : jsstring) : bool :=
  match p, s with
  | [], _ => true
  | a :: p', b :: s' => (a =? b) && isPrefix p' s'
  | _ :: _, [] => false
  end.

(** [s.includes(p)] *)
Fixpoint includes (p s : jsstring) : bool :=
  isPrefix p s || match s with [] => false | _ :: s' => includes p s' end.

(** [s.startsWith(p)] *)
Definition startsWith (p s : jsstring) : bool := isPrefix p s.

(** [s.split(c)] for a one-character separator [c]. *)
Fixpoint splitChar (c : N) (cur : jsstring) (s : jsstring) : list jsstring :=
  match s with
  | [] => [rev cur]
  | x :: s' => if x =? c then rev cur :: splitChar c [] s' else splitChar c (x :: cur) s'
  end.

(** [s.split(/\r?\n/)] *)
Fixpoint splitLines (cur : jsstring) (s : jsstring) : list jsstring :=
  match s with
  | [] => [rev cur]
  | 13 :: 10 :: s' => rev cur :: splitLines [] s'
  | 10 :: s' => rev cur :: splitLines [] s'
  | x :: s' => splitLines (x :: cur) s'
  end.

(** ** Numbers and strings *)

Definition digitOfUnit (c : N) : option N :=
  if isDigit c then Some (c - 48)
  else if inRange 97 122 c then Some (c - 87)
  else if inRange 65 90 c then Some (c - 55)
  else None.

(** The digits of [s] in base [b], most significant first; [None] when a
    unit is not a digit of that base or when there is no digit at all. *)
Fixpoint digitsFrom (b acc : N) (s : jsstring) : option N :=
  match s with
  | [] => Some acc
  | c :: s' =>
      match digitOfUnit c with
      | Some d => if d <? b then digitsFrom b (acc * b + d) s' else None
      | None => None
      end
  end.

Definition digits (b : N) (s : jsstring) : option N :=
  match s with [] => None | _ => digitsFrom b 0 s end.

(** [parseInt(s, 16)] on a string of hexadecimal digits (the only use in
    the source is on six digits matched by [[0-9a-fA-F]{6}]). *)
Definition parseHex (s : jsstring) : N := default 0 (digits 16 s).

(** [BigInt(s)]: StringToBigInt.  White space is trimmed; the empty string
    is zero; a decimal literal may carry a sign; binary, octal and
    hexadecimal literals carry a prefix and no sign.  [None] is the
    SyntaxError. *)
Definition BigInt (s : jsstring) : option Z :=
  match trim s with
  | [] => Some 0%Z
  | c :: r =>
      if c =? 43 then Z.of_N <$> digits 10 r
      else if c =? 45 then (fun n => (- Z.of_N n)%Z) <$> digits 10 r
      else
        match r with
        | x :: r' =>
            if (c =? 48) && ((x =? 120) || (x =? 88)) then Z.of_N <$> digits 16 r'
            else if (c =? 48) && ((x =? 111) || (x =? 79)) then Z.of_N <$> digits 8 r'
            else if (c =? 48) && ((x =? 98) || (x =? 66)) then Z.of_N <$> digits 2 r'
            else Z.of_N <$> digits 10 (c :: r)
        | [] => Z.of_N <$> digits 10 (c :: r)
        end
  end.

Fixpoint unitsOfUint (u : Decimal.uint) : jsstring :=
  match u with
  | Decimal.Nil => []
  | Decimal.D0 u => 48 :: unitsOfUint u
  | Decimal.D1 u => 49 :: unitsOfUint u
  | Decimal.D2 u => 50 :: unitsOfUint u
  | Decimal.D3 u => 51 :: unitsOfUint u
  | Decimal.D4 u => 52 :: unitsOfUint u
  | Decimal.D5 u => 53 :: unitsOfUint u
  | Decimal.D6 u => 54 :: unitsOfUint u
  | Decimal.D7 u => 55 :: unitsOfUint u
  | Decimal.D8 u => 56 :: unitsOfUint u
  | Decimal.D9 u => 57 :: unitsOfUint u
  end.

(** [!isNaN(s)] for a string [s]: whether StringToNumber reads it as a
    number.  White space is trimmed; the empty string is zero; binary,
    octal and hexadecimal literals carry a prefix and no sign; a decimal
    literal may carry a sign, a fraction and an exponent, or be
    [Infinity]. *)
Fixpoint skipDigits (s : jsstring) : jsstring :=
  match s with
  | c :: r => if isDigit c then skipDigits r else s
  | [] => []
  end.

(** Nothing, or an exponent part: [e] or [E], an optional sign, digits. *)
Definition isExponentPart (s : jsstring) : bool :=
  match s with
  | [] => true
  | c :: r =>
      if (c =? 101) || (c =? 69) then
        let r' :=
          match r with
          | x :: y => if (x =? 43) || (x =? 45) then y else r
          | [] => r
          end in
        match r' with
        | d :: _ => isDigit d && match skipDigits r' with [] => true | _ => false end
        | [] => false
        end
      else false
  end.

(** A decimal literal without sign. *)
Definition isUnsignedDecimal (s : jsstring) : bool :=
  if jeqb s (lit "Infinity") then true
  else
    match s with
    | [] => false
    | c :: r =>
        if isDigit c then
          match skipDigits s with
          | 46 :: r2 => isExponentPart (skipDigits r2)
          | r1 => isExponentPart r1
          end
        else if c =? 46 then
          match r with
          | d :: _ => isDigit d && isExponentPart (skipDigits r)
          | [] => false
          end
        else false
    end.

Definition isNumericText (s : jsstring) : bool :=
  let some (o : option N) := match o with Some _ => true | None => false end in
  match trim s with
  | [] => true
  | c :: r =>
      if (c =? 43) || (c =? 45) then isUnsignedDecimal r
      else
        match r with
        | x :: r' =>
            if (c =? 48) && ((x =? 120) || (x =? 88)) then some (digits 16 r')
            else if (c =? 48) && ((x =? 111) || (x =? 79)) then some (digits 8 r')
            else if (c =? 48) && ((x =? 98) || (x =? 66)) then some (digits 2 r')
            else isUnsignedDecimal (c :: r)
        | [] => isUnsignedDecimal [c]
        end
  end.

(** [n.toString()] of a non-negative integer or BigInt: its decimal digits. *)
Definition toString (n : N) : jsstring := unitsOfUint (N.to_uint n).

(** [b.toString()] of a BigInt of either sign. *)
Definition bigintToString (b : Z) : jsstring :=
  match b with
  | Zneg p => 45 :: toString (Npos p)
  | _ => toString (Z.to_N b)
  end.

End JS.

(* ===================================================================== *)
(** * Part II: regular expressions                                        *)
(* ===================================================================== *)

Module Regex.
Import JS.

(** The syntax needed by the patterns of the source.  [Chr p] is a
    character class, [Star true r] is [r*] and [Star false r] is [r*?],
    [Bol] and [Eol] are [^] and [$] (no [m] flag is used), [WordB] is [\b]
    and [Group r] is the (single) capturing group of a pattern. *)
Inductive re :=
| Eps
| Chr (p : N -> bool)
| Seq (a b : re)
| Alt (a b : re)
| Star (greedy : bool) (a : re)
| Bol
| Eol
| WordB
| Group (a : re).

(** A position in the subject: the unit before it, the units after it, its
    index, and the capture recorded so far (start and end index). *)
Record pos := mkPos {
  before : option N;
  rest : jsstring;
  idx : nat;
  cap : option (nat * nat)
}.

Definition advance (s : pos) : option (N * pos) :=
  match rest s with
  | [] => None
  | c :: r => Some (c, mkPos (Some c) r (S (idx s)) (cap s))
  end.

Definition wordBefore (s : pos) : bool :=
  match before s with Some c => isWord c | None => false end.
Definition wordAfter (s : pos) : bool :=
  match rest s with c :: _ => isWord c | [] => false end.

(** The backtracking matcher, in continuation-passing style: alternatives
    are tried left to right, a greedy star tries one more iteration before
    the continuation and a lazy star the continuation first, and an
    iteration of a star that consumes nothing is rejected.  Each iteration
    consumes a unit, so the iteration budget of a star (one more than the
    units left) is never exhausted. *)
Fixpoint run (r : re) : pos -> (pos -> option pos) -> option pos :=
  match r with
  | Eps => fun s k => k s
  | Chr p => fun s k =>
      match advance s with
      | Some (c, s') => if p c then k s' else None
      | None => None
      end
  | Seq a b => fun s k => run a s (fun s' => run b s' k)
  | Alt a b => fun s k =>
      match run a s k with
      | Some x => Some x
      | None => run b s k
      end
  | Star greedy a => fun s k =>
      (fix loop (n : nat) (s : pos) {struct n} : option pos :=
         match n with
         | O => k s
         | S n' =>
             let more :=
               run a s (fun s' => if Nat.eqb (idx s') (idx s) then None else loop n' s') in
             if greedy
             then match more with Some x => Some x | None => k s end
             else match k s with Some x => Some x | None => more end
         end) (S (length (rest s))) s
  | Bol => fun s k => match before s with None => k s | Some _ => None end
  | Eol => fun s k => match rest s with [] => k s | _ => None end
  | WordB => fun s k => if xorb (wordBefore s) (wordAfter s) then k s else None
  | Group a => fun s k =>
      run a s (fun s' => k (mkPos (before s') (rest s') (idx s') (Some (idx s, idx s'))))
  end.

(** A match: start index, end index, capture. *)
Record found := mkFound { mstart : nat; mend : nat; mcap : option (nat * nat) }.

Definition matchAt (r : re) (s : pos) : option found :=
  match run r (mkPos (before s) (rest s) (idx s) None) Some with
  | Some e => Some (mkFound (idx s) (idx e) (cap e))
  | None => None
  end.

(** The leftmost match at or after a position (every start index up to and
    including the end of the subject is tried). *)
Fixpoint searchFrom (r : re) (prev : option N) (s : jsstring) (i : nat) : option found :=
  match matchAt r (mkPos prev s i None) with
  | Some m => Some m
  | None =>
      match s with
      | [] => None
      | c :: s' => searchFrom r (Some c) s' (S i)
      end
  end.

(** [r.exec(s)] for a pattern without the [g] flag. *)
Definition exec (r : re) (s : jsstring) : option found := searchFrom r None s O.

(** [r.test(s)] *)
Definition test (r : re) (s : jsstring) : bool :=
  match exec r s with Some _ => true | None => false end.

Definition substring (i j : nat) (s : jsstring) : jsstring := firstn (j - i) (skipn i s).

(** [m[0]] and [m[1]] of a match. *)
Definition group0 (s : jsstring) (m : found) : jsstring := substring (mstart m) (mend m) s.
Definition group1 (s : jsstring) (m : found) : jsstring :=
  match mcap m with
  | Some (i, j) => substring i j s
  | None => []
  end.

(** [s.replace(r, rep)] for a pattern without the [g] flag and a
    replacement text without [$]. *)
Definition replaceFirst (r : re) (rep : jsstring) (s : jsstring) : jsstring :=
  match exec r s with
  | Some m => firstn (mstart m) s ++ rep ++ skipn (mend m) s
  | None => s
  end.

(** [s.replace(r, rep)] for a pattern with the [g] flag: matches are
    replaced left to right, the search resuming at the end of the previous
    match (one unit further after an empty match).  Every round but the
    last consumes a unit, so the budget of [replaceAll] (one more than the
    units of the subject) is never exhausted. *)
Fixpoint replaceLoop (fuel : nat) (r : re) (rep : jsstring)
    (prev : option N) (s : jsstring) (i : nat) : jsstring :=
  match fuel with
  | O => s
  | S fuel' =>
      match searchFrom r prev s i with
      | None => s
      | Some m =>
          let a := (mstart m - i)%nat in
          let b := (mend m - i)%nat in
          let kept := firstn a s in
          let tail := skipn b s in
          let prev' := match rev (firstn b s) with c :: _ => Some c | [] => prev end in
          if Nat.eqb b a
          then match tail with
               | [] => kept ++ rep
               | c :: tail' => kept ++ rep ++ c :: replaceLoop fuel' r rep (Some c) tail' (S (mend m))
               end
          else kept ++ rep ++ replaceLoop fuel' r rep prev' tail (mend m)
      end
  end.

Definition replaceAll (r : re) (rep : jsstring) (s : jsstring) : jsstring :=
  replaceLoop (S (length s)) r rep None s O.

(** [s.split(r)[0]] for a pattern that matches no empty string: the text
    before the first match, or all of [s]. *)
Definition splitHead (r : re) (s : jsstring) : jsstring :=
  match exec r s with
  | Some m => firstn (mstart m) s
  | None => s
  end.

(** ** Pattern combinators *)

Definition chr (c : N) : re := Chr (N.eqb c).
Definition plus (a : re) : re := Seq a (Star true a).
Definition opt (a : re) : re := Alt a Eps.
Definition seqs (l : list re) : re := fold_right Seq Eps l.
Definition atLeast2 (a : re) : re := Seq a (Seq a (Star true a)).
Fixpoint times (n : nat) (a : re) : re :=
  match n with O => Eps | S n' => Seq a (times n' a) end.

(** A literal text, and the same under the [i] flag. *)
Definition text (s : jsstring) : re := seqs (List.map chr s).
Definition itext (s : jsstring) : re := seqs (List.map (fun p => Chr (ieq p)) s).

Definition ws : re := Chr isWhite.
Definition dot : re := Chr (fun c => negb (isLineTerminator c)).

End Regex.

(* ===================================================================== *)
(** * Part III: the host environment                                      *)
(* ===================================================================== *)

(** The permission flag names that [permissionsToBitfield] pushes. *)
Inductive PermFlag :=
| Administrator | ManageRoles | ManageChannels | ManageWebhooks
| ManageEmojisAndStickers | BanMembers | KickMembers | ViewAuditLog
| ManageMessages | ManageThreads | MentionEveryone | ModerateMembers
| PrioritySpeaker | SendMessages | ReadMessageHistory | ViewChannel
| Connect | Speak | Stream | UseVAD | EmbedLinks | AttachFiles
| UseExternalEmojis | UseExternalStickers | UseApplicationCommands
| AddReactions | ManageEvents | ChangeNickname | MoveMembers.

(** What the source takes from the JavaScript engine and from discord.js
    and what cannot be read off the repository:
    - [unicodeLetterOrNumber]: whether a non-ASCII code point is in
      [\p{L}] or [\p{N}];
    - [unicodeToLowerCase]: [toLowerCase] on a string that has a non-ASCII
      code unit;
    - [Flags]: the table [PermissionsBitField.Flags], taken to hold every
      name that the source pushes;
    - [flagNamed]: the value of [PermissionsBitField.Flags[s]] for a
      string [s] ([None] when it is undefined);
    - [freshRefId]: the text [role-${Date.now()}-${Math.random()...}] of the
      n-th role built by one run of the parser. *)
Class Host := {
  unicodeLetterOrNumber : N -> bool;
  unicodeToLowerCase : JS.jsstring -> JS.jsstring;
  Flags : PermFlag -> N;
  flagNamed : JS.jsstring -> option Z;
  freshRefId : nat -> JS.jsstring
}.

(** Built-ins that depend on the host's Unicode tables. *)
Module Unicode.
Import JS.
Section WithHost.
Context `{Host}.

(** [\p{L}] or [\p{N}] on a code point. *)
Definition isLetterOrNumber (cp : N) : bool :=
  if cp <? 128 then isAsciiLetter cp || isDigit cp else unicodeLetterOrNumber cp.

(** [s.toLowerCase()] *)
Definition toLowerCase (s : jsstring) : jsstring :=
  if forallb (fun c => c <? 128) s then List.map asciiLower s else unicodeToLowerCase s.

End WithHost.
End Unicode.

(* ===================================================================== *)
(** * Part IV: the Template data model                                    *)
(* ===================================================================== *)

Module Model.
Import JS.

(** A number, as far as the two normalizers can tell numbers apart: NaN, a
    number with an integral value (both zeros are [NumInteger 0]), or any
    other number (a fraction, an infinity). *)
Inductive NumberValue :=
| NumNaN
| NumInteger (z : Z)
| NumOther.

(** A permission value as [normalizePermValue] may receive it: an instance
    of PermissionsBitField, an object with a [bitfield] property, a string
    (what the pipeline writes), a number, or undefined/null.  Other kinds
    of values (booleans, BigInts, arrays, objects without [bitfield]) are
    not modelled. *)
Inductive PermValue :=
| PermInstance (bits : N)
| PermObject (bitfield : jsstring)
| PermString (s : jsstring)
| PermAbsent
| PermNumber (n : NumberValue).

(** A channel type as [isVoiceType] may receive it. *)
Inductive TypeValue :=
| TypeNumber (n : Z)
| TypeString (s : jsstring).

Record ChannelOverwrite := mkOverwrite {
  roleRefId : jsstring;
  allow : PermValue;
  deny : PermValue
}.

(** [topic] is [None] for undefined or null.  An absent [name] behaves as
    the empty string, an absent [nsfw] as [false] and an absent [slowmode]
    as [0] in every place of the source that reads them. *)
Record ChannelSpec := mkChannel {
  ch_name : jsstring;
  ch_type : TypeValue;
  ch_topic : option jsstring;
  ch_nsfw : bool;
  ch_slowmode : N;
  ch_private : option bool;
  ch_overwrites : option (list ChannelOverwrite)
}.

Record CategorySpec := mkCategory {
  cat_name : jsstring;
  cat_channels : option (list ChannelSpec)
}.

Record RoleSpec := mkRole {
  refId : jsstring;
  role_name : jsstring;
  color : N;
  hoist : option bool;
  mentionable : option bool;
  permissions : PermValue;
  position : option Z;
  isEveryone : bool
}.

(** A property that should hold an array: [Absent] is undefined or null,
    [NotArray] is a present value that is neither an array nor iterable nor
    falsy (a plain object, a non-zero number). *)
Inductive field (A : Type) :=
| Absent
| NotArray
| IsArray (l : list A).
Arguments Absent {A}.
Arguments NotArray {A}.
Arguments IsArray {A} l.

Record Template := mkTemplate {
  roles : field RoleSpec;
  categories : field CategorySpec;
  summary : jsstring
}.

(** [Array.isArray(f) ? f.length : 0] and [f || []] *)
Definition arrayOr {A} (f : field A) : option (list A) :=
  match f with IsArray l => Some l | _ => None end.

End Model.

(* ===================================================================== *)
(** * Part V: textParser.js                                               *)
(* ===================================================================== *)

Module TextParser.
Import JS Regex Unicode Model.

Section WithHost.
Context `{Host}.

(** [s.replace(/[^...]/gu, ' ')] for a class given by [keep] on code
    points: under the [u] flag a high surrogate followed by a low one is one
    code point, and is replaced as a whole. *)
Fixpoint blankOutside (keep : N -> bool) (s : jsstring) : jsstring :=
  match s with
  | [] => []
  | c :: s' =>
      let one := if keep c then c else 32 in
      match s' with
      | lo :: s'' =>
          if inRange 55296 56319 c && inRange 56320 57343 lo
          then (if keep (65536 + (c - 55296) * 1024 + (lo - 56320)) then [c; lo] else [32])
                 ++ blankOutside keep s''
          else one :: blankOutside keep s'
      | [] => [one]
      end
  end.

(** [normalizeLine]: the five replacements, in the order of the source. *)
Definition isBar (c : N) : bool :=
  existsb (N.eqb c) [9474; 9475; 9478; 9482; 9479; 9483; 65372; 166].
Definition isDash (c : N) : bool := existsb (N.eqb c) [8211; 8212].

Definition normalizeLine (str : jsstring) : jsstring :=
  let s1 := replaceAll (chr 65279) [] str in
  let s2 := replaceAll (chr 8203) [] s1 in
  let s3 := replaceAll (chr 160) (lit " ") s2 in
  let s4 := replaceAll (Chr isBar) (lit "|") s3 in
  replaceAll (Chr isDash) (lit "-") s4.

(** [/color:\s*#/i] *)
Definition reRoleLine : re := seqs [itext (lit "color:"); Star true ws; chr 35].

Definition isRoleLine (line : jsstring) : bool := test reRoleLine line.

(** [/color:\s*(#[0-9a-fA-F]{6})/i] *)
Definition reColor : re :=
  seqs [itext (lit "color:"); Star true ws; Group (Seq (chr 35) (times 6 (Chr isHex)))].

(** [/permissions:\s*\[ ( [^\]]* ) \]/i] (shown with spaces around the group), also used with a capital P under the same [i] flag *)
Definition rePermissions : re :=
  seqs [itext (lit "permissions:"); Star true ws; chr 91;
        Group (Star true (Chr (fun c => negb (c =? 93)))); chr 93].

(** [/\s{2,}/g] *)
Definition reSpaces2 : re := atLeast2 ws.

Definition extractPermissions (line : jsstring) : list jsstring :=
  match exec rePermissions line with
  | None => []
  | Some permMatch =>
      List.filter truthy (List.map trim (splitChar 44 [] (group1 line permMatch)))
  end.

(** The [switch] of [permissionsToBitfield]: case labels and the name each
    pushes. *)
Definition synonyms : list (string * PermFlag) :=
  [ ("administrator", Administrator); ("manage server", Administrator);
    ("manage roles", ManageRoles);
    ("manage channels", ManageChannels);
    ("manage webhooks", ManageWebhooks);
    ("manage emojis", ManageEmojisAndStickers);
    ("manage emojis and stickers", ManageEmojisAndStickers);
    ("ban members", BanMembers);
    ("kick members", KickMembers);
    ("view audit log", ViewAuditLog);
    ("manage messages", ManageMessages);
    ("manage threads", ManageThreads);
    ("mention everyone", MentionEveryone);
    ("timeout members", ModerateMembers); ("moderate members", ModerateMembers);
    ("mute members", ModerateMembers);
    ("priority speaker", PrioritySpeaker);
    ("send messages", SendMessages);
    ("read message history", ReadMessageHistory);
    ("view channel", ViewChannel); ("read channels", ViewChannel);
    ("connect", Connect);
    ("speak", Speak);
    ("stream", Stream);
    ("use voice activity", UseVAD);
    ("embed links", EmbedLinks);
    ("attach files", AttachFiles);
    ("use external emojis", UseExternalEmojis);
    ("use external stickers", UseExternalStickers);
    ("use application commands", UseApplicationCommands);
    ("add reactions", AddReactions);
    ("manage events", ManageEvents);
    ("change nickname", ChangeNickname);
    ("move members", MoveMembers) ]%string.

Definition switchPermission (norm : jsstring) : option PermFlag :=
  snd <$> List.find (fun e => jeqb norm (lit (fst e))) synonyms.

(** [/\(.*?\)/g] *)
Definition reParenthetical : re := seqs [chr 40; Star false dot; chr 41].

(** [p.replace(/\(.*?\)/g, '').trim().toLowerCase()] *)
Definition normalizePermission (p : jsstring) : jsstring :=
  toLowerCase (trim (replaceAll reParenthetical [] p)).

(** The array [mapped] at the end of the loop. *)
Definition mappedFlags (perms : list jsstring) : list PermFlag :=
  fold_left
    (fun mapped p =>
       match switchPermission (normalizePermission p) with
       | Some f => mapped ++ [f]
       | None => mapped
       end)
    perms [].

(** [new PermissionsBitField(mapped).bitfield]: the names are resolved
    through [Flags] and or-ed, starting from [0n]. *)
Definition resolveFlags (mapped : list PermFlag) : N :=
  fold_left (fun prev f => N.lor prev (Flags f)) mapped 0.

Definition permissionsToBitfield (perms : list jsstring) : N :=
  resolveFlags (mappedFlags perms).

Definition buildRoleFromLine (nth : nat) (line : jsstring) : option RoleSpec :=
  match exec reColor line with
  | None => None
  | Some colorMatch =>
      let color := parseHex (replaceFirst (text (lit "#")) [] (group1 line colorMatch)) in
      let perms := extractPermissions line in
      let namePart :=
        trim (replaceFirst rePermissions []
                (replaceFirst (text (group0 line colorMatch)) [] line)) in
      let cleanName := trim (replaceAll reSpaces2 (lit " ") namePart) in
      if truthy cleanName
      then Some {| refId := freshRefId nth;
                   role_name := cleanName;
                   color := color;
                   hoist := Some false;
                   mentionable := Some true;
                   permissions := PermString (toString (permissionsToBitfield perms));
                   position := None;
                   isEveryone := false |}
      else None
  end.

(** [/#\S+/] *)
Definition reHash : re := Seq (chr 35) (plus (Chr (fun c => negb (isWhite c)))).
(** [/type:\s*(text|voice)/i] *)
Definition reType : re :=
  seqs [itext (lit "type:"); Star true ws; Group (Alt (itext (lit "text")) (itext (lit "voice")))].
(** [/\bvoice\b/i] *)
Definition reVoiceWord : re := seqs [WordB; itext (lit "voice"); WordB].
(** [/type:\s*voice/i] *)
Definition reTypeVoice : re := seqs [itext (lit "type:"); Star true ws; itext (lit "voice")].

Definition looksLikeChannel (line : jsstring) : bool :=
  let normalized := normalizeLine line in
  let hasPipe := includes (lit "|") normalized in
  let hasHash := test reHash normalized in
  let hasType := test reType normalized in
  let hasVoiceWord := test reVoiceWord normalized in
  hasPipe || hasHash || hasType || hasVoiceWord.

(** [/\(category\)/i] *)
Definition reCategoryTag : re := itext (lit "(category)").

Definition isCategoryLine (line : jsstring) : bool := test reCategoryTag line.

Definition cleanCategoryName (name : jsstring) : jsstring :=
  let normalized := replaceFirst reCategoryTag [] (normalizeLine name) in
  let noEmoji :=
    replaceAll reSpaces2 (lit " ")
      (blankOutside (fun c => isLetterOrNumber c || isWhite c || (c =? 45)) normalized) in
  let clean := trim noEmoji in
  orElse clean (lit "Category").

Definition slugifyPreserve (str : jsstring) : jsstring :=
  if negb (truthy str) then lit "channel"
  else
    let normalized :=
      blankOutside (fun c => isLetterOrNumber c || isWhite c || (c =? 95) || (c =? 45))
        (normalizeLine str) in
    let safe :=
      replaceAll (Alt (Seq Bol (plus (chr 45))) (Seq (plus (chr 45)) Eol)) []
        (replaceAll (plus (chr 45)) (lit "-")
           (replaceAll (plus ws) (lit "-") normalized)) in
    orElse (toLowerCase safe) (lit "channel").

Definition suggestDescription (name : jsstring) (isVoice : bool) : jsstring :=
  let key := toLowerCase name in
  if includes (lit "welcome") key then lit "Welcome channel with server info."
  else if includes (lit "rules") key then lit "Server rules."
  else if includes (lit "announce") key || includes (lit "news") key then lit "Announcements."
  else if includes (lit "chat") key || includes (lit "general") key then lit "General chat."
  else if includes (lit "support") key then lit "Support channel."
  else if isVoice then lit "A voice channel for talking."
  else lit "Auto generated description.".

(** [/-\s+(.+)/] *)
Definition reTopic : re := seqs [chr 45; plus ws; Group (plus dot)].

Definition extractTopic (line : jsstring) : option jsstring :=
  match exec reTopic line with
  | Some dashMatch => Some (trim (group1 line dashMatch))
  | None => None
  end.

(** [/^[-\s|]+/] *)
Definition rePrefix : re :=
  Seq Bol (plus (Chr (fun c => (c =? 45) || isWhite c || (c =? 124)))).
(** [/#([\w-]+)/] *)
Definition reHashName : re :=
  Seq (chr 35) (Group (plus (Chr (fun c => isWord c || (c =? 45))))).

Definition buildChannelFromLine (line : jsstring) : ChannelSpec :=
  let normalized := normalizeLine line in
  let isVoice := test reTypeVoice normalized || test reVoiceWord normalized in
  let withoutPrefix := replaceFirst rePrefix [] normalized in
  let namePart :=
    match exec reHashName normalized with
    | Some hashMatch => group1 normalized hashMatch
    | None =>
        trim (replaceFirst (Seq Bol (chr 35)) []
                (hd [] (splitChar 124 [] withoutPrefix)))
    end in
  let namePart := if truthy namePart then namePart else splitHead (plus ws) withoutPrefix in
  let safeName := slugifyPreserve namePart in
  let topic :=
    match extractTopic normalized with
    | Some t => if truthy t then t else suggestDescription safeName isVoice
    | None => suggestDescription safeName isVoice
    end in
  let perms := extractPermissions normalized in
  let allowBits :=
    match perms with
    | [] => None
    | _ => Some (toString (permissionsToBitfield perms))
    end in
  let overwrites :=
    match allowBits with
    | Some bits =>
        Some [ {| roleRefId := lit "everyone";
                  allow := PermString bits;
                  deny := PermString (lit "0") |} ]
    | None => None
    end in
  {| ch_name := orElse safeName (lit "channel");
     ch_type := TypeString (if isVoice then lit "voice" else lit "text");
     ch_topic := Some topic;
     ch_nsfw := false;
     ch_slowmode := 0;
     ch_private := Some false;
     ch_overwrites := overwrites |}.

(** The state of the loop of [parseTextStructure]: the two arrays of
    [template], and [currentCategory], which aliases an element of
    [template.categories] and is kept as its index. *)
Record ParseState := mkParseState {
  ps_categories : list CategorySpec;
  ps_roles : list RoleSpec;
  ps_current : option nat
}.

(** [currentCategory.channels.push(channel)] *)
Definition pushChannel (channel : ChannelSpec) (cat : CategorySpec) : CategorySpec :=
  {| cat_name := cat_name cat;
     cat_channels := Some (default [] (cat_channels cat) ++ [channel]) |}.

(** One iteration of the loop. *)
Definition parseLine (st : ParseState) (line : jsstring) : ParseState :=
  if isRoleLine line then
    match buildRoleFromLine (length (ps_roles st)) line with
    | Some role => mkParseState (ps_categories st) (ps_roles st ++ [role]) (ps_current st)
    | None => st
    end
  else
    let trimmed := normalizeLine (trim line) in
    let isChannel := looksLikeChannel trimmed in
    let isCategory :=
      isCategoryLine trimmed || (negb isChannel && negb (startsWith (lit "-") trimmed)) in
    if isCategory then
      mkParseState
        (ps_categories st ++ [ {| cat_name := cleanCategoryName trimmed; cat_channels := Some [] |} ])
        (ps_roles st)
        (Some (length (ps_categories st)))
    else
      let st1 :=
        match ps_current st with
        | Some _ => st
        | None =>
            mkParseState
              (ps_categories st ++ [ {| cat_name := lit "General"; cat_channels := Some [] |} ])
              (ps_roles st)
              (Some (length (ps_categories st)))
        end in
      let channel := buildChannelFromLine trimmed in
      match ps_current st1 with
      | Some i => mkParseState (alter (pushChannel channel) i (ps_categories st1))
                               (ps_roles st1) (ps_current st1)
      | None => st1
      end.

(** The second loop: [totalChannels += cat.channels.length]. *)
Definition countChannels (cats : list CategorySpec) : nat :=
  fold_left (fun total cat => (total + length (default [] (cat_channels cat)))%nat) cats O.

Definition parseTextStructure (raw : jsstring) : Template :=
  let lines :=
    List.filter truthy
      (List.map (fun l => normalizeLine (trimEnd l)) (splitLines [] raw)) in
  let st := fold_left parseLine lines (mkParseState [] [] None) in
  let totalChannels := countChannels (ps_categories st) in
  {| roles := IsArray (ps_roles st);
     categories := IsArray (ps_categories st);
     summary :=
       toString (N.of_nat (length (ps_categories st))) ++ lit " categories / " ++
       toString (N.of_nat totalChannels) ++ lit " channels" |}.

End WithHost.
End TextParser.

(* ===================================================================== *)
(** * Part VI: the live platform                                          *)
(* ===================================================================== *)

Module Live.
Import JS.

(** [ChannelType] of discord.js; [fromGuild] writes the last two as the
    literals [2] and [4]. *)
Definition GuildText : Z := 0.
Definition GuildVoice : Z := 2.
Definition GuildCategory : Z := 4.

(** The argument of [guild.roles.create].  A flag that is [None] is
    undefined in the call. *)
Record RolePayload := mkRolePayload {
  rp_name : jsstring;
  rp_color : N;
  rp_hoist : option bool;
  rp_mentionable : option bool;
  rp_permissions : Z
}.

(** The argument of [guild.channels.create]; a property that is absent or
    undefined is [None]. *)
Record ChannelPayload := mkChannelPayload {
  cp_name : jsstring;
  cp_type : Z;
  cp_parent : option jsstring;
  cp_topic : option jsstring;
  cp_nsfw : option bool;
  cp_rateLimitPerUser : option N
}.

(** What the source reads of an error raised by the platform: [err.code],
    the keys of [err.rawError.errors] that hold a truthy value, and
    [err.message]. *)
Record ApiError := mkApiError {
  err_code : option Z;
  err_fields : list jsstring;
  err_message : jsstring
}.

(** The calls the engine issues, as they appear in its log. *)
Inductive Call :=
| CreateRole (p : RolePayload)
| CreateChannel (p : ChannelPayload)
| CreateOverwrite (channel role : jsstring) (allow deny : Z).

(** The live service, over a state [G]: the identifier of the base role
    ([guild.roles.everyone.id]) and the three mutating calls; a call either
    resolves (to the identifier of what it created) or rejects. *)
Class Platform (G : Type) := {
  everyoneId : jsstring;
  rolesCreate : RolePayload -> G -> G * (ApiError + jsstring);
  channelsCreate : ChannelPayload -> G -> G * (ApiError + jsstring);
  overwritesCreate : jsstring -> jsstring -> Z -> Z -> G -> G * (ApiError + unit)
}.

(** What [fromGuild] reads of the fetched collections. *)
Record LiveRole := mkLiveRole {
  lr_id : jsstring;
  lr_name : jsstring;
  lr_color : N;
  lr_hoist : bool;
  lr_mentionable : bool;
  lr_permissions : Z;
  lr_rawPosition : Z
}.

Record LiveOverwrite := mkLiveOverwrite {
  lo_id : jsstring;
  lo_type : Z;
  lo_allow : Z;
  lo_deny : Z
}.

Record LiveChannel := mkLiveChannel {
  lc_id : jsstring;
  lc_name : jsstring;
  lc_type : Z;
  lc_parentId : option jsstring;
  lc_topic : option jsstring;
  lc_nsfw : bool;
  lc_rateLimitPerUser : N;
  lc_rawPosition : Z;
  lc_overwrites : list LiveOverwrite
}.

(** A guild as fetched: the collections in their iteration order. *)
Record LiveGuild := mkLiveGuild {
  lg_everyone : jsstring;
  lg_roles : list LiveRole;
  lg_channels : list LiveChannel
}.

End Live.

(* ===================================================================== *)
(** * Part VII: serverBuilder.js                                          *)
(* ===================================================================== *)

Module ServerBuilder.
Import JS Unicode Model Live.

(** What the engine can raise: a rejection of the platform, the RangeError
    of discord.js for a value that is no permission, the SyntaxError of the
    [BigInt] that discord.js calls on a numeric text that is no integer, or
    the TypeError of iterating something that is not iterable. *)
Inductive exn :=
| Rejected (e : ApiError)
| RangeError (v : PermValue)
| SyntaxError (s : jsstring)
| TypeError.

Inductive outcome (A : Type) :=
| Ok (a : A)
| Throw (e : exn).
Arguments Ok {A} a.
Arguments Throw {A} e.

(** The engine runs over the platform state and a log of the calls issued
    so far, oldest first. *)
Record World (G : Type) := mkWorld { guild : G; log : list Call }.
Arguments mkWorld {G} guild log.
Arguments guild {G} w.
Arguments log {G} w.

Definition M (G A : Type) : Type := World G -> World G * outcome A.

Definition ret {G A} (a : A) : M G A := fun w => (w, Ok a).
Definition throw {G A} (e : exn) : M G A := fun w => (w, Throw e).
Definition bind {G A B} (m : M G A) (f : A -> M G B) : M G B :=
  fun w => match m w with
           | (w', Ok a) => f a w'
           | (w', Throw e) => (w', Throw e)
           end.
(** [try { m } catch (err) { h err }] *)
Definition catch {G A} (m : M G A) (h : exn -> M G A) : M G A :=
  fun w => match m w with
           | (w', Ok a) => (w', Ok a)
           | (w', Throw e) => h e w'
           end.

Notation "'do' x <- m ; k" := (bind m (fun x => k))
  (at level 10, x name, m at level 100, k at level 200).

(** [for (const x of l) { body x }] *)
Fixpoint forEach {G A} (l : list A) (body : A -> M G unit) : M G unit :=
  match l with
  | [] => ret tt
  | x :: l' => do _ <- body x; forEach l' body
  end.

(** An awaited call of the platform: logged, then resolved or rejected. *)
Definition call {G A} (c : Call) (op : G -> G * (ApiError + A)) : M G A :=
  fun w => match op (guild w) with
           | (g', inr a) => (mkWorld g' (log w ++ [c]), Ok a)
           | (g', inl e) => (mkWorld g' (log w ++ [c]), Throw (Rejected e))
           end.

Section WithHost.
Context `{Host}.

Definition sanitizeName (name : jsstring) : jsstring :=
  let trimmed := trim name in
  if negb (truthy trimmed) then lit "channel" else slice0 90 trimmed.

Definition isVoiceType (type : TypeValue) : bool :=
  match type with
  | TypeNumber n => Z.eqb n GuildVoice
  | TypeString s => jeqb (toLowerCase s) (lit "voice")
  end.

(** [new PermissionsBitField(b)] for a BigInt [b]: a RangeError when [b] is
    negative. *)
Definition fromBigInt (b : Z) : option Z := if (0 <=? b)%Z then Some b else None.

(** [new PermissionsBitField(s)] for a string [s], in the [catch] branch:
    discord.js passes a text that [isNaN] takes for a number to [BigInt],
    which raises a SyntaxError unless the text is an integer literal (so on
    [1.5]); it looks any other text up in [Flags] and raises its RangeError
    when the text is no key. *)
Definition resolveText (s : jsstring) : outcome Z :=
  if isNumericText s then
    match BigInt s with
    | Some b => Ok b
    | None => Throw (SyntaxError s)
    end
  else
    match flagNamed s with
    | Some b => Ok b
    | None => Throw (RangeError (PermString s))
    end.

(** For a number, [BigInt] raises unless the value is integral, and
    discord.js resolves no number: what is left is an integral value that
    is not negative. *)
Definition normalizePermValue (val : PermValue) : outcome Z :=
  match val with
  | PermInstance bits => Ok (Z.of_N bits)
  | PermObject bitfield =>
      match BigInt bitfield ≫= fromBigInt with
      | Some b => Ok b
      | None => Ok 0%Z
      end
  | PermString s =>
      match BigInt s ≫= fromBigInt with
      | Some b => Ok b
      | None => resolveText s
      end
  | PermAbsent => Ok 0%Z
  | PermNumber (NumInteger z) =>
      match fromBigInt z with
      | Some b => Ok b
      | None => Throw (RangeError val)
      end
  | PermNumber _ => Throw (RangeError val)
  end.

Definition liftOutcome {G A} (o : outcome A) : M G A := fun w => (w, o).

Section WithPlatform.
Context {G : Type} `{Platform G}.

Definition createChannelSafe (payload : ChannelPayload) : M G jsstring :=
  catch (call (CreateChannel payload) (channelsCreate payload))
    (fun err =>
       let topicInvalid :=
         match err with
         | Rejected e =>
             existsb (jeqb (lit "topic")) (err_fields e)
             || (if decide (err_code e = Some 50035%Z) then true else false)
         | _ => false
         end in
       if topicInvalid && from_option truthy false (cp_topic payload)
       then
         let clone := mkChannelPayload (cp_name payload) (cp_type payload) (cp_parent payload)
                        None (cp_nsfw payload) (cp_rateLimitPerUser payload) in
         call (CreateChannel clone) (channelsCreate clone)
       else throw err).

(** One iteration of the loop of [ensureRoles]. *)
Definition ensureRole (map : gmap jsstring jsstring) (tpl : RoleSpec)
  : M G (gmap jsstring jsstring) :=
  if isEveryone tpl || jeqb (refId tpl) everyoneId
  then ret (<[refId tpl := everyoneId]> map)
  else
    do permissions <- liftOutcome (normalizePermValue (permissions tpl));
    let payload := mkRolePayload (role_name tpl) (color tpl) (hoist tpl) (mentionable tpl)
                     permissions in
    do role <- call (CreateRole payload) (rolesCreate payload);
    ret (<[refId tpl := role]> map).

Fixpoint ensureRolesFrom (map : gmap jsstring jsstring) (roleTemplates : list RoleSpec)
  : M G (gmap jsstring jsstring) :=
  match roleTemplates with
  | [] => ret map
  | tpl :: rest => do map' <- ensureRole map tpl; ensureRolesFrom map' rest
  end.

Definition ensureRoles (roleTemplates : list RoleSpec) : M G (gmap jsstring jsstring) :=
  ensureRolesFrom (<[lit "everyone" := everyoneId]> ∅) roleTemplates.

(** The body of the loop over [ch.overwrites]. *)
Definition applyOverwrite (roleIdMap : gmap jsstring jsstring) (channel : jsstring)
    (ow : ChannelOverwrite) : M G unit :=
  match roleIdMap !! roleRefId ow with
  | Some mappedRoleId =>
      if negb (truthy mappedRoleId) then ret tt
      else
        do a <- liftOutcome (normalizePermValue (allow ow));
        do d <- liftOutcome (normalizePermValue (deny ow));
        call (CreateOverwrite channel mappedRoleId a d)
             (overwritesCreate channel mappedRoleId a d)
  | None => ret tt
  end.

(** The payload built for a channel of a category. *)
Definition channelPayload (parent : jsstring) (ch : ChannelSpec) : ChannelPayload :=
  let name := sanitizeName (orElse (ch_name ch) (lit "channel")) in
  let isVoice := isVoiceType (ch_type ch) in
  if isVoice
  then mkChannelPayload name GuildVoice (Some parent) None None None
  else mkChannelPayload name GuildText (Some parent)
         (match ch_topic ch with
          | Some t => if truthy t then Some (slice0 1024 t) else None
          | None => None
          end)
         (Some (ch_nsfw ch))
         (Some (ch_slowmode ch)).

(** The body of the loop over [category.channels]. *)
Definition buildChannel (roleIdMap : gmap jsstring jsstring) (parent : jsstring)
    (ch : ChannelSpec) : M G unit :=
  do channel <- createChannelSafe (channelPayload parent ch);
  match ch_overwrites ch with
  | Some overwrites => forEach overwrites (applyOverwrite roleIdMap channel)
  | None => ret tt
  end.

Definition categoryPayload (category : CategorySpec) : ChannelPayload :=
  mkChannelPayload (sanitizeName (orElse (cat_name category) (lit "Category")))
    GuildCategory None None None None.

(** The body of the loop over [template.categories]. *)
Definition buildCategory (roleIdMap : gmap jsstring jsstring) (category : CategorySpec)
  : M G unit :=
  let payload := categoryPayload category in
  do categoryChannel <- call (CreateChannel payload) (channelsCreate payload);
  forEach (default [] (cat_channels category)) (buildChannel roleIdMap categoryChannel).

Definition buildServerFromTemplate (template : Template) : M G unit :=
  do roleIdMap <-
    match roles template with
    | IsArray l => ensureRoles l
    | Absent => ensureRoles []
    | NotArray => throw TypeError
    end;
  match categories template with
  | IsArray l => forEach l (buildCategory roleIdMap)
  | _ => throw TypeError
  end.

(** A run from a platform state, with an empty log. *)
Definition provision (g : G) (template : Template) : World G * outcome unit :=
  buildServerFromTemplate template (mkWorld g []).

End WithPlatform.
End WithHost.
End ServerBuilder.

(* ===================================================================== *)
(** * Part VIII: index.js                                                 *)
(* ===================================================================== *)

Module Index.
Import JS Model Live.

Definition MAX_CHANNELS : nat := 500.
Definition MAX_ROLES : nat := 200.

(** The three [throw new Error(...)] of [ensureTemplateSafe]. *)
Inductive ValidationError :=
| NotValid
| TooManyChannels (channelCount : nat)
| TooManyRoles (roleCount : nat).

(** The message of the Error. *)
Definition errorMessage (e : ValidationError) : jsstring :=
  match e with
  | NotValid => lit "Template is not valid."
  | TooManyChannels n =>
      lit "Too many channels (" ++ toString (N.of_nat n) ++ lit "). Discord limit is around 500."
  | TooManyRoles n => lit "Too many roles (" ++ toString (N.of_nat n) ++ lit ")."
  end.

(** The taxonomy of the specification. *)
Inductive ErrorKind := TemplateInvalid | LimitExceeded.

Definition errorKind (e : ValidationError) : ErrorKind :=
  match e with
  | NotValid => TemplateInvalid
  | TooManyChannels _ | TooManyRoles _ => LimitExceeded
  end.

(** The loop [channelCount += cat.channels ? cat.channels.length : 0]. *)
Definition channelCount (cats : list CategorySpec) : nat :=
  fold_left
    (fun count cat =>
       (count + match cat_channels cat with Some chs => length chs | None => O end)%nat)
    cats O.

(** [ensureTemplateSafe]: [None] when it returns, [Some e] when it throws.
    The argument is [None] for a template that is undefined or null. *)
Definition ensureTemplateSafe (template : option Template) : option ValidationError :=
  match template with
  | None => Some NotValid
  | Some template =>
      match categories template with
      | IsArray cats =>
          let channelCount := channelCount cats in
          let roleCount :=
            match roles template with IsArray rs => length rs | _ => O end in
          if (MAX_CHANNELS <? channelCount)%nat then Some (TooManyChannels channelCount)
          else if (MAX_ROLES <? roleCount)%nat then Some (TooManyRoles roleCount)
          else None
      | _ => Some NotValid
      end
  end.

(** [collection.sort((a, b) => a.rawPosition - b.rawPosition)]: the sort is
    stable, so its result is the one of a stable insertion sort. *)
Fixpoint insertBy {A} (key : A -> Z) (x : A) (l : list A) : list A :=
  match l with
  | [] => [x]
  | y :: l' => if (key x <=? key y)%Z then x :: l else y :: insertBy key x l'
  end.

Fixpoint sortBy {A} (key : A -> Z) (l : list A) : list A :=
  match l with
  | [] => []
  | x :: l' => insertBy key x (sortBy key l')
  end.

(** A [Map] with string keys, in insertion order. *)
Fixpoint mapGet {V} (k : jsstring) (m : list (jsstring * V)) : option V :=
  match m with
  | [] => None
  | (k', v) :: m' => if jeqb k' k then Some v else mapGet k m'
  end.

Fixpoint mapSet {V} (k : jsstring) (v : V) (m : list (jsstring * V)) : list (jsstring * V) :=
  match m with
  | [] => [(k, v)]
  | (k', v') :: m' => if jeqb k' k then (k, v) :: m' else (k', v') :: mapSet k v m'
  end.

(** A mutation of the object that [map.get(k)] returns. *)
Fixpoint mapMutate {V} (f : V -> V) (k : jsstring) (m : list (jsstring * V))
  : list (jsstring * V) :=
  match m with
  | [] => []
  | (k', v) :: m' => if jeqb k' k then (k', f v) :: m' else (k', v) :: mapMutate f k m'
  end.

Definition roleTemplate (everyone : jsstring) (role : LiveRole) : RoleSpec :=
  {| refId := lr_id role;
     role_name := lr_name role;
     color := lr_color role;
     hoist := Some (lr_hoist role);
     mentionable := Some (lr_mentionable role);
     permissions := PermString (bigintToString (lr_permissions role));
     position := Some (lr_rawPosition role);
     isEveryone := jeqb (lr_id role) everyone |}.

Definition overwriteTemplate (ow : LiveOverwrite) : ChannelOverwrite :=
  {| roleRefId := lo_id ow;
     allow := PermString (bigintToString (lo_allow ow));
     deny := PermString (bigintToString (lo_deny ow)) |}.

Definition channelTemplate (ch : LiveChannel) : ChannelSpec :=
  {| ch_name := lc_name ch;
     ch_type := TypeString (if Z.eqb (lc_type ch) 2 then lit "voice" else lit "text");
     ch_topic := lc_topic ch;
     ch_nsfw := lc_nsfw ch;
     ch_slowmode := lc_rateLimitPerUser ch;
     ch_private := None;
     ch_overwrites :=
       Some (List.map overwriteTemplate
               (List.filter (fun ow => Z.eqb (lo_type ow) 0) (lc_overwrites ch))) |}.

(** [parent.channels.push(...)] *)
Definition pushChild (ch : LiveChannel) (parent : CategorySpec) : CategorySpec :=
  {| cat_name := cat_name parent;
     cat_channels := Some (default [] (cat_channels parent) ++ [channelTemplate ch]) |}.

(** The body of the [forEach] over the channels that have a parent. *)
Definition placeChild (categoryMap : list (jsstring * CategorySpec)) (ch : LiveChannel)
  : list (jsstring * CategorySpec) :=
  let parentId := default [] (lc_parentId ch) in
  match mapGet parentId categoryMap with
  | None => categoryMap
  | Some _ => mapMutate (pushChild ch) parentId categoryMap
  end.

Definition fromGuild (guild : LiveGuild) : Template :=
  let channels := lg_channels guild in
  let roles := lg_roles guild in
  let roleTemplates :=
    List.map (roleTemplate (lg_everyone guild)) (sortBy lr_rawPosition roles) in
  let categoryMap :=
    fold_left
      (fun m cat => mapSet (lc_id cat) {| cat_name := lc_name cat; cat_channels := Some [] |} m)
      (sortBy lc_rawPosition (List.filter (fun ch => Z.eqb (lc_type ch) 4) channels))
      [] in
  let categoryMap :=
    fold_left placeChild
      (sortBy lc_rawPosition
         (List.filter (fun ch => from_option truthy false (lc_parentId ch)) channels))
      categoryMap in
  let categories := List.map snd categoryMap in
  {| roles := IsArray roleTemplates;
     categories := IsArray categories;
     summary := toString (N.of_nat (length categories)) ++ lit " categories copied" |}.

End Index.

(* ===================================================================== *)
(** * Part IX: a reference platform                                       *)
(* ===================================================================== *)

Module Sim.
Import JS Live.

(** Modelled from the spec: the live platform API, which the repository
    only calls (section 6: create and fetch operations keyed by opaque
    identifiers).  This reference platform stores what a creation call
    carries and numbers what it creates: the number, in decimal, is the
    identifier.  No call carries a position and the specification does not
    say where the platform lists what it creates, so the raw position of
    the creation of number [n] is [place n] for a function [place] that is
    left open.  The collections are fetched in creation order.  A creation
    of a channel is refused when [reject] says so. *)
Record State := mkState {
  st_roles : list LiveRole;
  st_channels : list LiveChannel;
  st_next : N
}.

Definition everyone : jsstring := lit "0".

Definition createRoleAt (place : N -> Z) (p : RolePayload) (s : State)
  : State * (ApiError + jsstring) :=
  let id := toString (st_next s) in
  (mkState
     (st_roles s ++
        [mkLiveRole id (rp_name p) (rp_color p) (default false (rp_hoist p))
           (default false (rp_mentionable p)) (rp_permissions p) (place (st_next s))])
     (st_channels s)
     (st_next s + 1),
   inr id).

Definition createChannelAt (place : N -> Z) (reject : ChannelPayload -> option ApiError)
    (p : ChannelPayload) (s : State) : State * (ApiError + jsstring) :=
  match reject p with
  | Some e => (s, inl e)
  | None =>
      let id := toString (st_next s) in
      (mkState
         (st_roles s)
         (st_channels s ++
            [mkLiveChannel id (cp_name p) (cp_type p) (cp_parent p) (cp_topic p)
               (default false (cp_nsfw p)) (default 0 (cp_rateLimitPerUser p))
               (place (st_next s)) []])
         (st_next s + 1),
       inr id)
  end.

(** The platform that lists what it creates in creation order. *)
Definition createRole : RolePayload -> State -> State * (ApiError + jsstring) :=
  createRoleAt Z.of_N.

Definition createChannel (reject : ChannelPayload -> option ApiError)
  : ChannelPayload -> State -> State * (ApiError + jsstring) :=
  createChannelAt Z.of_N reject.

(** An overwrite for a role replaces the one the channel already has for
    that role, or is added after the others. *)
Fixpoint upsert (ow : LiveOverwrite) (l : list LiveOverwrite) : list LiveOverwrite :=
  match l with
  | [] => [ow]
  | o :: l' => if jeqb (lo_id o) (lo_id ow) then ow :: l' else o :: upsert ow l'
  end.

Definition setOverwrite (channel role : jsstring) (a d : Z) (ch : LiveChannel) : LiveChannel :=
  if jeqb (lc_id ch) channel
  then mkLiveChannel (lc_id ch) (lc_name ch) (lc_type ch) (lc_parentId ch) (lc_topic ch)
         (lc_nsfw ch) (lc_rateLimitPerUser ch) (lc_rawPosition ch)
         (upsert (mkLiveOverwrite role 0 a d) (lc_overwrites ch))
  else ch.

Definition createOverwrite (channel role : jsstring) (a d : Z) (s : State)
  : State * (ApiError + unit) :=
  (mkState (st_roles s) (List.map (setOverwrite channel role a d) (st_channels s)) (st_next s),
   inr tt).

Definition platformAt (place : N -> Z) (reject : ChannelPayload -> option ApiError)
  : Platform State :=
  {| everyoneId := everyone;
     rolesCreate := createRoleAt place;
     channelsCreate := createChannelAt place reject;
     overwritesCreate := createOverwrite |}.

Definition platform (reject : ChannelPayload -> option ApiError) : Platform State :=
  platformAt Z.of_N reject.

(** The platform that refuses nothing. *)
Definition accepting : Platform State := platform (fun _ => None).

(** What [guild.roles.fetch()] and [guild.channels.fetch()] return. *)
Definition fetch (s : State) : LiveGuild :=
  mkLiveGuild everyone (st_roles s) (st_channels s).

(** A target with its base role and nothing else. *)
Definition emptyTarget : State :=
  mkState [mkLiveRole everyone (lit "@everyone") 0 false false 0 0] [] 1.

End Sim.

(* ===================================================================== *)
(** * Part X: hosts and inputs of the concrete runs                       *)
(* ===================================================================== *)

Module Examples.
Import JS Model Live ServerBuilder.

(** The values of the permission flags in the Discord API. *)
Definition flagBit (f : PermFlag) : N :=
  N.shiftl 1
    match f with
    | KickMembers => 1 | BanMembers => 2 | Administrator => 3
    | ManageChannels => 4 | AddReactions => 6 | ViewAuditLog => 7
    | PrioritySpeaker => 8 | Stream => 9 | ViewChannel => 10
    | SendMessages => 11 | ManageMessages => 13 | EmbedLinks => 14
    | AttachFiles => 15 | ReadMessageHistory => 16 | MentionEveryone => 17
    | UseExternalEmojis => 18 | Connect => 20 | Speak => 21
    | MoveMembers => 24 | UseVAD => 25 | ChangeNickname => 26
    | ManageRoles => 28 | ManageWebhooks => 29 | ManageEmojisAndStickers => 30
    | UseApplicationCommands => 31 | ManageEvents => 33 | ManageThreads => 34
    | UseExternalStickers => 37 | ModerateMembers => 40
    end.

(** A host for the concrete runs.  Their inputs are ASCII and their
    permission values are decimal, so the Unicode tables and
    [flagNamed] are never consulted. *)
Definition asciiHost : Host :=
  {| unicodeLetterOrNumber := fun _ => false;
     unicodeToLowerCase := fun s => s;
     Flags := flagBit;
     flagNamed := fun _ => None;
     freshRefId := fun n => lit "role-" ++ toString (N.of_nat n) |}.

Definition plainRole (ref name : jsstring) (everyoneFlag : bool) : RoleSpec :=
  mkRole ref name 0 (Some false) (Some true) (PermString (lit "0")) None everyoneFlag.

Definition textChannel (name : jsstring) (topic : option jsstring)
    (ows : option (list ChannelOverwrite)) : ChannelSpec :=
  mkChannel name (TypeString (lit "text")) topic false 0 None ows.

(** A platform that refuses the channel name [bad] as an invalid form body
    whose only faulty field is [name]. *)
Definition nameError : ApiError :=
  mkApiError (Some 50035%Z) [lit "name"] (lit "Invalid Form Body").

Definition rejectBadName (p : ChannelPayload) : option ApiError :=
  if jeqb (cp_name p) (lit "bad") then Some nameError else None.

(** A platform that refuses any topic, reporting the field [topic]. *)
Definition topicError : ApiError :=
  mkApiError (Some 50035%Z) [lit "topic"] (lit "Invalid Form Body").

Definition rejectTopic (p : ChannelPayload) : option ApiError :=
  match cp_topic p with Some _ => Some topicError | None => None end.

(** Payloads for the retry of a channel creation. *)
Definition newsPayload : ChannelPayload :=
  mkChannelPayload (lit "news") GuildText (Some (lit "1")) (Some (lit "hello"))
    (Some false) (Some 0).

Definition badPayload : ChannelPayload :=
  mkChannelPayload (lit "bad") GuildText (Some (lit "1")) (Some (lit "hello"))
    (Some false) (Some 0).

Definition freshWorld : World Sim.State := mkWorld Sim.emptyTarget [].

Definition everyoneOverwrite : ChannelOverwrite :=
  mkOverwrite (lit "everyone") (PermString (lit "1024")) (PermString (lit "0")).




(** A small template: one role, one category with a text and a voice
    channel. *)
Definition smallRoles : list RoleSpec :=
  [mkRole (lit "r1") (lit "Mod") 65280 (Some true) (Some false) (PermString (lit "8192")) None false].

Definition smallCategories : list CategorySpec :=
  [mkCategory (lit "INFO")
     (Some [textChannel (lit "rules") (Some (lit "Read them.")) (Some [everyoneOverwrite]);
            mkChannel (lit "lounge") (TypeString (lit "voice")) None false 0 None None])].

(** A template whose only category has a name of 91 units. *)
Definition longName : jsstring := repeat 97 91.

Definition longTemplate : Template :=
  mkTemplate (IsArray []) (IsArray [mkCategory longName (Some [])]) [].

(** A RoleSpec without flags, as a template read from elsewhere may hold. *)
Definition bareRole : RoleSpec :=
  mkRole (lit "r2") (lit "Bare") 0 None None (PermString (lit "0")) None false.

(** A platform that lists what it creates last first. *)
Definition reversing (k : N) : Z := (- Z.of_N k)%Z.

(** A template of two categories, and one with a channel of the name that
    [rejectBadName] refuses. *)
Definition twoTemplate : Template :=
  mkTemplate (IsArray [])
    (IsArray [mkCategory (lit "A") (Some []); mkCategory (lit "B") (Some [])]) [].

Definition badTemplate : Template :=
  mkTemplate (IsArray [])
    (IsArray [mkCategory (lit "INFO") (Some [textChannel (lit "bad") None None])]) [].

End Examples.

(* ===================================================================== *)
(** * Part XI: the vocabulary of the statements                           *)
(* ===================================================================== *)

Module Statements.
Import JS Regex Unicode Model TextParser Live ServerBuilder Index.

(** ** The validator *)

(** The number of channels of a list of categories, as a sum. *)
Definition totalChannels (cats : list CategorySpec) : nat :=
  list_sum (List.map (fun cat => length (default [] (cat_channels cat))) cats).

Definition roleCount (t : Template) : nat :=
  match roles t with IsArray rs => length rs | _ => O end.

(** A template of one category with [n] copies of a channel. *)
Definition oneCategory (n : nat) : Template :=
  mkTemplate (IsArray [])
    (IsArray [mkCategory (lit "c")
                (Some (repeat (Examples.textChannel (lit "x") None None) n))])
    [].

(** ** The calls of the engine *)


(** A creation call for a channel or category whose name has at most 90
    units and whose topic, when it has one, at most 1024. *)
Definition wellSized (c : Call) : Prop :=
  match c with
  | CreateChannel p =>
      (length (cp_name p) <= 90)%nat /\
      forall t, cp_topic p = Some t -> (length t <= 1024)%nat
  | _ => True
  end.

(** The payload of a rejected creation, without its topic. *)
Definition withoutTopic (p : ChannelPayload) : ChannelPayload :=
  mkChannelPayload (cp_name p) (cp_type p) (cp_parent p) None (cp_nsfw p)
    (cp_rateLimitPerUser p).

(** The two signatures that [createChannelSafe] takes for an invalid topic. *)
Definition topicSignature (e : ApiError) : Prop :=
  In (lit "topic") (err_fields e) \/ err_code e = Some 50035%Z.


(** A payload within the sizes that provisioning keeps to: a name of 1 to
    90 units and a topic of at most 1024. *)
Definition fits (p : ChannelPayload) : Prop :=
  cp_name p <> [] /\ wellSized (CreateChannel p).

(** ** The channels built from text *)

Definition flagEqb (a b : PermFlag) : bool :=
  match a, b with
  | Administrator, Administrator | ManageRoles, ManageRoles
  | ManageChannels, ManageChannels | ManageWebhooks, ManageWebhooks
  | ManageEmojisAndStickers, ManageEmojisAndStickers | BanMembers, BanMembers
  | KickMembers, KickMembers | ViewAuditLog, ViewAuditLog
  | ManageMessages, ManageMessages | ManageThreads, ManageThreads
  | MentionEveryone, MentionEveryone | ModerateMembers, ModerateMembers
  | PrioritySpeaker, PrioritySpeaker | SendMessages, SendMessages
  | ReadMessageHistory, ReadMessageHistory | ViewChannel, ViewChannel
  | Connect, Connect | Speak, Speak | Stream, Stream | UseVAD, UseVAD
  | EmbedLinks, EmbedLinks | AttachFiles, AttachFiles
  | UseExternalEmojis, UseExternalEmojis | UseExternalStickers, UseExternalStickers
  | UseApplicationCommands, UseApplicationCommands | AddReactions, AddReactions
  | ManageEvents, ManageEvents | ChangeNickname, ChangeNickname
  | MoveMembers, MoveMembers => true
  | _, _ => false
  end.

(** A channel whose overwrites are absent, or a single [allow] overwrite
    for the key [everyone] with an empty [deny]. *)
Definition baseRoleOnly (ch : ChannelSpec) : Prop :=
  ch_overwrites ch = None \/
  exists bits,
    ch_overwrites ch =
      Some [mkOverwrite (lit "everyone") (PermString bits) (PermString (lit "0"))].

Definition categoryBaseRoleOnly (c : CategorySpec) : Prop :=
  Forall baseRoleOnly (default [] (cat_channels c)).

(** ** The extractor *)

(** A list whose keys never decrease. *)
Fixpoint ascendingBy {A} (key : A -> Z) (l : list A) : Prop :=
  match l with
  | [] => True
  | x :: l' => Forall (fun y => (key x <= key y)%Z) l' /\ ascendingBy key l'
  end.

(** The channels of a fetched guild that name [cat] as their parent. *)
Definition childOf (cat : jsstring) (ch : LiveChannel) : bool :=
  jeqb cat (default [] (lc_parentId ch)).

Definition hasParent (ch : LiveChannel) : bool :=
  from_option truthy false (lc_parentId ch).

Definition isCategory (ch : LiveChannel) : bool := Z.eqb (lc_type ch) 4.

Definition emptyCategory (cat : LiveChannel) : CategorySpec :=
  {| cat_name := lc_name cat; cat_channels := Some [] |}.

(** With distinct keys, a mutation through [get] touches the one entry of
    its key, and none when the key is absent. *)
Definition mutateAt (k : jsstring) (f : CategorySpec -> CategorySpec)
    (e : jsstring * CategorySpec) : jsstring * CategorySpec :=
  (fst e, if jeqb (fst e) k then f (snd e) else snd e).

(** The children pushed to the entry of key [k]. *)
Definition gather (k : jsstring) (chs : list LiveChannel) (c : CategorySpec) : CategorySpec :=
  fold_left (fun c ch => if jeqb k (default [] (lc_parentId ch)) then pushChild ch c else c)
    chs c.

(** ** The channels and roles a run leaves on the reference platform *)

(** What the extractor reads of a channel, apart from its position, its
    overwrites, topic and flags. *)
Record Shape := mkShape {
  sh_id : jsstring;
  sh_name : jsstring;
  sh_type : Z;
  sh_parent : option jsstring
}.

Definition shape (c : LiveChannel) : Shape :=
  mkShape (lc_id c) (lc_name c) (lc_type c) (lc_parentId c).

(** Categories by name, each with the names of its channels and whether
    they are voice channels. *)
Definition Outline : Type := list (jsstring * list (jsstring * bool)).

Fixpoint size (o : Outline) : N :=
  match o with
  | [] => 0
  | (_, chs) :: o' => 1 + N.of_nat (length chs) + size o'
  end.

Fixpoint childShapes (k : N) (parent : jsstring) (chs : list (jsstring * bool)) : list Shape :=
  match chs with
  | [] => []
  | (name, voice) :: chs' =>
      mkShape (toString k) name (if voice then GuildVoice else GuildText) (Some parent)
      :: childShapes (k + 1) parent chs'
  end.

(** The channels that the reference platform holds after the categories of
    an outline were created one after the other, the first under number
    [k]. *)
Fixpoint layout (k : N) (o : Outline) : list Shape :=
  match o with
  | [] => []
  | (name, chs) :: o' =>
      mkShape (toString k) name GuildCategory None
      :: childShapes (k + 1) (toString k) chs
      ++ layout (k + 1 + N.of_nat (length chs)) o'
  end.

Fixpoint countUp (k : N) (n : nat) : list N :=
  match n with
  | O => []
  | S n' => k :: countUp (k + 1) n'
  end.

(** The outline that the extractor reads off a list of shapes: the
    categories of [l], each with its children among [all]. *)
Definition outlineIn (all l : list Shape) : Outline :=
  List.map
    (fun cat =>
       (sh_name cat,
        List.map (fun ch => (sh_name ch, Z.eqb (sh_type ch) 2))
          (List.filter (fun ch => jeqb (sh_id cat) (default [] (sh_parent ch)))
             (List.filter (fun ch => from_option truthy false (sh_parent ch)) all))))
    (List.filter (fun sh => Z.eqb (sh_type sh) 4) l).

(** The outline of a list of categories of a template. *)
Definition outlineOf (cats : list CategorySpec) : list (jsstring * list (jsstring * TypeValue)) :=
  List.map
    (fun c =>
       (cat_name c,
        List.map (fun ch => (ch_name ch, ch_type ch)) (default [] (cat_channels c))))
    cats.

(** An outline as the extractor writes it: the type of a channel is the
    text [voice] or [text]. *)
Definition typedOutline (o : Outline) : list (jsstring * list (jsstring * TypeValue)) :=
  List.map
    (fun e : jsstring * list (jsstring * bool) =>
       (fst e,
        List.map
          (fun x : jsstring * bool =>
             (fst x, TypeString (if snd x then lit "voice" else lit "text")))
          (snd e)))
    o.

(** Name, color and permission value of the roles of a template. *)
Definition rolesOf (rs : list RoleSpec) : list (jsstring * N * PermValue) :=
  List.map (fun r => (role_name r, color r, permissions r)) rs.

(** A permission value that is the decimal text of a number, as the parser
    and the extractor write it. *)
Definition canonical (v : PermValue) : bool :=
  match v with
  | PermString s =>
      match digits 10 s with
      | Some n => jeqb (toString n) s
      | None => false
      end
  | _ => false
  end.

Definition canonicalOverwrite (ow : ChannelOverwrite) : bool :=
  canonical (allow ow) && canonical (deny ow).

Definition canonicalChannel (ch : ChannelSpec) : bool :=
  forallb canonicalOverwrite (default [] (ch_overwrites ch)).

Definition canonicalCategory (c : CategorySpec) : bool :=
  forallb canonicalChannel (default [] (cat_channels c)).

(** Two lists of categories that agree up to order: the same categories,
    each with the same channels, in any order. *)
Definition sameCategory {A} (a b : jsstring * list A) : Prop :=
  fst a = fst b /\ Permutation (snd a) (snd b).

Definition sameOutline {A} (o o' : list (jsstring * list A)) : Prop :=
  exists mid, Permutation o mid /\ Forall2 sameCategory mid o'.

(** What the extractor reads for a category: its name, and name and type
    of those of [kids] that name it as their parent. *)
Definition reading (kids : list LiveChannel) (cat : LiveChannel)
  : jsstring * list (jsstring * TypeValue) :=
  (lc_name cat,
   List.map
     (fun ch => (lc_name ch, TypeString (if Z.eqb (lc_type ch) 2 then lit "voice" else lit "text")))
     (List.filter (childOf (lc_id cat)) kids)).

(** Name, color and permission text of a live role, as the extractor
    writes them. *)
Definition liveEntry (r : LiveRole) : jsstring * N * PermValue :=
  (lr_name r, lr_color r, PermString (bigintToString (lr_permissions r))).

Definition kidsOf (id : jsstring) (all : list Shape) : list (jsstring * bool) :=
  List.map (fun ch => (sh_name ch, Z.eqb (sh_type ch) 2))
    (List.filter (fun ch => jeqb id (default [] (sh_parent ch)))
       (List.filter (fun ch => from_option truthy false (sh_parent ch)) all)).

(** The run changes no shape, creates nothing and leaves the roles. *)
Definition steady (s s' : Sim.State) : Prop :=
  List.map shape (Sim.st_channels s') = List.map shape (Sim.st_channels s) /\
  Sim.st_next s' = Sim.st_next s /\
  Sim.st_roles s' = Sim.st_roles s.

Definition rolesCanonical (rs : list RoleSpec) : bool :=
  forallb (fun r => canonical (permissions r)) rs.

Definition cleanType (t : TypeValue) : bool :=
  match t with
  | TypeString s => jeqb s (lit "voice") || jeqb s (lit "text")
  | TypeNumber _ => false
  end.

Definition cleanName (name : jsstring) : bool :=
  truthy name && jeqb (sanitizeName name) name.

Definition cleanChannel (ch : ChannelSpec) : bool :=
  cleanName (ch_name ch) && cleanType (ch_type ch).

Definition cleanCategory (c : CategorySpec) : bool :=
  cleanName (cat_name c) && forallb cleanChannel (default [] (cat_channels c)).

Section WithHost.
Context `{Host}.

(** The names the [switch] recognizes, in the order of the input. *)
Definition recognized (perms : list jsstring) : list PermFlag :=
  omap (fun p => switchPermission (normalizePermission p)) perms.

(** The role creation call a RoleSpec gives rise to. *)
Definition sentFor (r : RoleSpec) (p : RolePayload) : Prop :=
  rp_name p = role_name r /\ rp_color p = color r /\ rp_hoist p = hoist r /\
  rp_mentionable p = mentionable r /\
  normalizePermValue (permissions r) = Ok (rp_permissions p).





Definition rolePayload (r : RoleSpec) (p : Z) : RolePayload :=
  mkRolePayload (role_name r) (color r) (hoist r) (mentionable r) p.

(** The sanitized name and the kind of the channel created for [ch]. *)
Definition expectedChannel (ch : ChannelSpec) : jsstring * bool :=
  (sanitizeName (orElse (ch_name ch) (lit "channel")), isVoiceType (ch_type ch)).

Definition expectedCategory (c : CategorySpec) : jsstring * list (jsstring * bool) :=
  (sanitizeName (orElse (cat_name c) (lit "Category")),
   List.map expectedChannel (default [] (cat_channels c))).

(** The permission bits sent for a value. *)
Definition permBits (v : PermValue) : Z :=
  match normalizePermValue v with
  | Ok b => b
  | Throw _ => 0%Z
  end.

(** Name and color of a RoleSpec, with the decimal text of the permission
    bits sent for it. *)
Definition sentEntry (r : RoleSpec) : jsstring * N * PermValue :=
  (role_name r, color r, PermString (bigintToString (permBits (permissions r)))).

(** ** The overwrites of a channel *)



(** ** The creations of a run *)



Section WithPlatform.
Context {G : Type} `{Platform G}.

(** A RoleSpec that [ensureRoles] binds to the base role. *)
Definition mapsToBase (r : RoleSpec) : bool :=
  isEveryone r || jeqb (refId r) everyoneId.

(** [m] only adds calls that satisfy [P] to the log. *)
Definition extends {A} (P : Call -> Prop) (m : M G A) : Prop :=
  forall w, exists l, log (fst (m w)) = log w ++ l /\ Forall P l.

(** A platform that accepts every creation of a role and of an overwrite,
    and every creation of a channel or category whose payload fits. *)
Definition acceptsFitting : Prop :=
  (forall p g, exists g' id, rolesCreate p g = (g', inr id)) /\
  (forall p g, fits p -> exists g' id, channelsCreate p g = (g', inr id)) /\
  (forall c r a d g, exists g', overwritesCreate c r a d g = (g', inr tt)).

End WithPlatform.
End WithHost.

(** A RoleSpec for which a run on the reference platform creates a role. *)
Definition created (r : RoleSpec) : bool := negb (@mapsToBase _ Sim.accepting r).

End Statements.

(* ===================================================================== *)
(** * Part XI-a: imageAnalyzer.js                                         *)
(* ===================================================================== *)

Module ImageAnalyzer.
Import JS Regex Unicode Model.

Section WithHost.
Context `{Host}.

Definition cleanLine (str : jsstring) : jsstring :=
  if negb (truthy str) then []
  else trim (replaceAll (atLeast2 ws) (lit " ") str).

(** An absent argument behaves as the empty string ([str || '']). *)
Definition normalizeName (str : jsstring) : jsstring :=
  let trimmed := trim str in
  if negb (truthy trimmed) then lit "channel"
  else toLowerCase (replaceAll (plus ws) (lit "-") trimmed).

Definition looksLikeChannel (line : jsstring) : bool :=
  let lower := toLowerCase line in
  startsWith (lit "#") lower || includes (lit " #") lower
  || includes (lit "voice") lower || startsWith (lit "- #") lower.

Definition looksLikeCategory (line : jsstring) : bool :=
  let lower := toLowerCase line in
  if negb (truthy lower) then false
  else if looksLikeChannel line then false
  else (length lower <? 80)%nat.

Definition suggestDescription (name : jsstring) (isVoice : bool) : jsstring :=
  let lower := toLowerCase name in
  if includes (lit "welcome") lower then lit "Welcome channel with info."
  else if includes (lit "rules") lower then lit "Server rules."
  else if includes (lit "announce") lower then lit "Announcements."
  else if isVoice then lit "Simple voice channel."
  else lit "Auto description from OCR.".

(** The channel objects of this module have the properties [name], [type],
    [topic] and [private] only. *)
Definition ocrChannel (name : jsstring) (isVoice : bool) (topic : jsstring) : ChannelSpec :=
  {| ch_name := name;
     ch_type := TypeString (if isVoice then lit "voice" else lit "text");
     ch_topic := Some topic;
     ch_nsfw := false;
     ch_slowmode := 0;
     ch_private := Some false;
     ch_overwrites := None |}.

(** [line.replace(/^[-\s]*/, '').replace(/^#+\s*/, '')] *)
Definition stripMarkers (line : jsstring) : jsstring :=
  replaceFirst (Seq Bol (Seq (plus (chr 35)) (Star true ws))) []
    (replaceFirst (Seq Bol (Star true (Chr (fun c => (c =? 45) || isWhite c)))) [] line).

Definition parseChannel (line : jsstring) : ChannelSpec :=
  let lower := toLowerCase line in
  let isVoice := includes (lit "voice") lower in
  let stripped := stripMarkers line in
  let name := normalizeName stripped in
  ocrChannel name isVoice (suggestDescription name isVoice).

(** The template has no [roles]; its summary is the fixed text. *)
Definition fallbackTemplate : Template :=
  {| roles := Absent;
     categories :=
       IsArray
         [ {| cat_name := lit "from-image";
              cat_channels :=
                Some [ ocrChannel (lit "welcome") false (lit "Welcome channel with info.");
                       ocrChannel (lit "rules") false (lit "Server rules.");
                       ocrChannel (lit "hangout") true (lit "Simple voice channel.") ] |} ];
     summary := lit "Fallback template from image" |}.

(** The state of the loop of [buildTemplateFromText]: [template.categories]
    and [currentCategory], kept as the index of the element it aliases. *)
Record OcrState := mkOcrState {
  os_categories : list CategorySpec;
  os_current : option nat
}.

Definition ocrLine (st : OcrState) (line : jsstring) : OcrState :=
  if looksLikeCategory line then
    mkOcrState
      (os_categories st ++ [ {| cat_name := normalizeName line; cat_channels := Some [] |} ])
      (Some (length (os_categories st)))
  else if looksLikeChannel line then
    let st1 :=
      match os_current st with
      | Some _ => st
      | None =>
          mkOcrState
            (os_categories st ++ [ {| cat_name := lit "general"; cat_channels := Some [] |} ])
            (Some (length (os_categories st)))
      end in
    match os_current st1 with
    | Some i =>
        mkOcrState (alter (TextParser.pushChannel (parseChannel line)) i (os_categories st1))
          (os_current st1)
    | None => st1
    end
  else st.

(** The template that the loop builds has no [roles] and, so far, no
    [summary] (written as the empty text). *)
Definition buildTemplateFromText (rawText : jsstring) : Template :=
  let lines := List.filter truthy (List.map cleanLine (splitLines [] rawText)) in
  let st := fold_left ocrLine lines (mkOcrState [] None) in
  match os_categories st with
  | [] => fallbackTemplate
  | cats => {| roles := Absent; categories := IsArray cats; summary := [] |}
  end.

(** [analyzeImageStub], as a function of what loading, cleaning and reading
    the image give: [None] when one of them throws, [Some text] for the
    text [data.text || '']. *)
Definition analyzeImageStub (ocr : option jsstring) : Template :=
  match ocr with
  | None => fallbackTemplate
  | Some text =>
      let template := buildTemplateFromText text in
      let cats := default [] (arrayOr (categories template)) in
      let channelTotal := Index.channelCount cats in
      {| roles := roles template;
         categories := categories template;
         summary :=
           toString (N.of_nat (length cats)) ++ lit " categories / " ++
           toString (N.of_nat channelTotal) ++ lit " channels (OCR)" |}
  end.

End WithHost.
End ImageAnalyzer.

(* ===================================================================== *)
(** * Part XI-b: index.js, roles import and the modal handlers            *)
(* ===================================================================== *)

Module Handlers.
Import JS Unicode Model Live ServerBuilder Index.

(** What a handler finally shows.  [BuildFailed], [RolesFailed] and
    [ErrorReply] carry the error whose message follows the texts
    [Build failed: ], [Could not create roles: ] and [Error: ]. *)
Inductive CloneFailure :=
| NotFound
| FetchError (e : ApiError)
| NotSafe (e : ValidationError)
| EngineError (e : exn).

Inductive Reply :=
| PleaseRunInServer
| TemplateReady
| TemplateSaved
| ServerBuiltFromImage
| ServerBuilt
| ServerCloned
| BuildFailed (e : exn)
| CloneFailed (e : CloneFailure)
| CreatedRoles (n : nat)
| RolesFailed (e : exn)
| ErrorReply (e : ValidationError).

Section WithHost.
Context `{Host}.

(** [!input] holds for an absent value, for the empty string, and for the
    numbers zero and NaN. *)
Definition normalizePermissionsInput (input : PermValue) : outcome Z :=
  match input with
  | PermAbsent => Ok 0%Z
  | PermInstance bits => Ok (Z.of_N bits)
  | PermObject bitfield =>
      match BigInt bitfield ≫= fromBigInt with
      | Some b => Ok b
      | None => Ok 0%Z
      end
  | PermString s =>
      if negb (truthy s) then Ok 0%Z
      else
        match BigInt s ≫= fromBigInt with
        | Some b => Ok b
        | None => resolveText s
        end
  | PermNumber NumNaN => Ok 0%Z
  | PermNumber (NumInteger z) =>
      if Z.eqb z 0 then Ok 0%Z
      else
        match fromBigInt z with
        | Some b => Ok b
        | None => Throw (RangeError input)
        end
  | PermNumber NumOther => Throw (RangeError input)
  end.

Section WithPlatform.
Context {G : Type} `{Platform G}.

(** [createRoles]: the identifiers of the created roles, in order.  A
    [hoist] that is undefined or null is sent as [false], a [mentionable]
    that is undefined or null as [true]. *)
Fixpoint createRolesFrom (created : list jsstring) (roles : list RoleSpec)
  : M G (list jsstring) :=
  match roles with
  | [] => ret created
  | roleData :: rest =>
      do perms <- liftOutcome (normalizePermissionsInput (permissions roleData));
      let payload := mkRolePayload (role_name roleData) (color roleData)
                       (Some (default false (hoist roleData)))
                       (Some (default true (mentionable roleData))) perms in
      do role <- call (CreateRole payload) (rolesCreate payload);
      createRolesFrom (created ++ [role]) rest
  end.

Definition createRoles (roles : list RoleSpec) : M G (list jsstring) :=
  createRolesFrom [] roles.


(** The branch [modal-image]. *)
Definition modalImage (ocr : option jsstring) (w : option (World G))
  : option (World G) * Reply :=
  let template := ImageAnalyzer.analyzeImageStub ocr in
  match ensureTemplateSafe (Some template) with
  | Some e => (w, ErrorReply e)
  | None =>
      match w with
      | None => (None, TemplateReady)
      | Some w =>
          match buildServerFromTemplate template w with
          | (w', Ok _) => (Some w', ServerBuiltFromImage)
          | (w', Throw err) => (Some w', BuildFailed err)
          end
      end
  end.

(** [err?.code === 10004 ? 'Server not found or bot not in it.' : err.message] *)
Definition cloneFailure (e : CloneFailure) : CloneFailure :=
  let unknownGuild (a : ApiError) :=
    if decide (err_code a = Some 10004%Z) then true else false in
  match e with
  | FetchError a => if unknownGuild a then NotFound else e
  | EngineError (Rejected a) => if unknownGuild a then NotFound else e
  | _ => e
  end.

(** The branch [modal-clone], as a function of what
    [client.guilds.fetch(sourceGuildId)] and the two fetches of [fromGuild]
    give: an error or the collections of the source guild. *)
Definition modalClone (source : ApiError + LiveGuild) (w : option (World G))
  : option (World G) * Reply :=
  match source with
  | inl e => (w, CloneFailed (cloneFailure (FetchError e)))
  | inr sourceGuild =>
      let template := fromGuild sourceGuild in
      match ensureTemplateSafe (Some template) with
      | Some e => (w, CloneFailed (cloneFailure (NotSafe e)))
      | None =>
          match w with
          | None => (None, TemplateSaved)
          | Some w =>
              match buildServerFromTemplate template w with
              | (w', Ok _) => (Some w', ServerCloned)
              | (w', Throw err) => (Some w', CloneFailed (cloneFailure (EngineError err)))
              end
          end
      end
  end.


End WithPlatform.
End WithHost.
End Handlers.

(* ===================================================================== *)
(** * Part XI-c: the vocabulary of the behaviour of runs                   *)
(* ===================================================================== *)

Module Behaviour.
Import JS Regex Unicode Model TextParser Live ServerBuilder Index Statements.

(** ** Errors and calls *)

(** A rejection of the platform. *)
Definition platformError (e : exn) : Prop := exists a, e = Rejected a.

Definition isChannelCall (c : Call) : Prop :=
  match c with CreateChannel _ => True | _ => False end.

(** A creation call for a channel or category carries a name that is not
    empty. *)
Definition namedCall (c : Call) : Prop :=
  match c with CreateChannel p => cp_name p <> [] | _ => True end.

(** A call made for a category once it exists: the creation of a channel
    under it, or an overwrite. *)
Definition childCall (parent : jsstring) (c : Call) : Prop :=
  match c with
  | CreateChannel p => cp_parent p = Some parent
  | CreateRole _ => False
  | CreateOverwrite _ _ _ _ => True
  end.

(** The number of channel and category creation calls of a log. *)
Definition channelCalls (l : list Call) : nat :=
  length (List.filter (fun c => match c with CreateChannel _ => true | _ => false end) l).

(** A platform operation that never rejects. *)
Definition neverRejects {G A} (op : G -> G * (ApiError + A)) : Prop :=
  forall g, exists g' a, op g = (g', inr a).

Section WithPlatform.
Context {G : Type} `{Platform G}.

(** [m] only raises errors that satisfy [Q]. *)
Definition raises {A} (Q : exn -> Prop) (m : M G A) : Prop :=
  forall w w' e, m w = (w', Throw e) -> Q e.

(** A run of [m] that ends without error has added at least [n] channel
    or category creation calls to the log. *)
Definition sends {A} (n : nat) (m : M G A) : Prop :=
  forall w w' a, m w = (w', Ok a) ->
    exists l, log w' = log w ++ l /\ (n <= channelCalls l)%nat.

(** A platform none of whose three operations ever rejects. *)
Definition lenient : Prop :=
  (forall p, neverRejects (rolesCreate p)) /\
  (forall p, neverRejects (channelsCreate p)) /\
  (forall c r a d, neverRejects (overwritesCreate c r a d)).

End WithPlatform.

(** ** Templates whose permission values are decimal texts *)

Definition canonicalTemplate (t : Template) : bool :=
  match roles t, categories t with
  | NotArray, _ => false
  | rs, IsArray cs =>
      rolesCanonical (default [] (arrayOr rs)) && forallb canonicalCategory cs
  | _, _ => false
  end.

(** ** What the text parser builds *)

Definition parsedRole (r : RoleSpec) : bool :=
  truthy (role_name r) && bool_decide (hoist r = Some false)
  && bool_decide (mentionable r = Some true) && negb (isEveryone r)
  && canonical (permissions r)
  && match position r with None => true | Some _ => false end.

(** A channel with a name, the type [voice] or [text], a topic that is not
    empty, no [nsfw] flag, no slow mode, and decimal permission texts. *)
Definition parsedChannel (ch : ChannelSpec) : bool :=
  truthy (ch_name ch) && cleanType (ch_type ch)
  && from_option truthy false (ch_topic ch)
  && negb (ch_nsfw ch) && (ch_slowmode ch =? 0)
  && canonicalChannel ch.

Definition parsedCategory (c : CategorySpec) : bool :=
  truthy (cat_name c)
  && match cat_channels c with
     | Some chs => forallb parsedChannel chs
     | None => false
     end.

(** ** Lines *)

(** What [normalizeLine] makes of one code unit: the byte order mark and
    the zero width space vanish, the no-break space becomes a space, the
    eight bar characters become [|] and the two dashes [-]. *)
Definition normalizeUnit (c : N) : jsstring :=
  if 65279 =? c then []
  else if 8203 =? c then []
  else if 160 =? c then lit " "
  else if isBar c then lit "|"
  else if isDash c then lit "-"
  else [c].

(** ** What the image analyzer builds *)

Definition ocrTopics : list jsstring :=
  [ lit "Welcome channel with info."; lit "Server rules."; lit "Announcements.";
    lit "Simple voice channel."; lit "Auto description from OCR." ].

(** A channel without overwrites, of type [voice] or [text], public, with
    one of the five fixed topics. *)
Definition ocrChannelShape (ch : ChannelSpec) : bool :=
  cleanType (ch_type ch)
  && match ch_topic ch with
     | Some t => existsb (jeqb t) ocrTopics
     | None => false
     end
  && match ch_overwrites ch with None => true | Some _ => false end
  && match ch_private ch with Some false => true | _ => false end.

Definition ocrCategoryShape (c : CategorySpec) : bool :=
  match cat_channels c with
  | Some chs => forallb ocrChannelShape chs
  | None => false
  end.

(** ** The extractor *)

(** The live roles and overwrites of a guild carry bit sets, which are not
    negative. *)
Definition liveBits (g : LiveGuild) : Prop :=
  Forall (fun r => (0 <= lr_permissions r)%Z) (lg_roles g) /\
  Forall
    (fun ch => Forall (fun ow => (0 <= lo_allow ow)%Z /\ (0 <= lo_deny ow)%Z) (lc_overwrites ch))
    (lg_channels g).

(** A small guild whose collections are not in the order of their raw
    positions: two categories, a text channel, a stage channel, a channel
    without parent. *)
Definition shuffledGuild : LiveGuild :=
  mkLiveGuild (lit "1")
    [ mkLiveRole (lit "7") (lit "Mod") 255 true false 8 2;
      mkLiveRole (lit "1") (lit "@everyone") 0 false false 1024 0 ]
    [ mkLiveChannel (lit "20") (lit "talk") 0 (Some (lit "10")) (Some (lit "Chat."))
        false 5 3 [mkLiveOverwrite (lit "1") 0 1024 0; mkLiveOverwrite (lit "99") 1 0 8];
      mkLiveChannel (lit "11") (lit "LATER") 4 None None false 0 2 [];
      mkLiveChannel (lit "10") (lit "FIRST") 4 None None false 0 1 [];
      mkLiveChannel (lit "21") (lit "stage") 13 (Some (lit "10")) None false 0 0 [];
      mkLiveChannel (lit "30") (lit "loose") 0 None None false 0 4 [] ].

(** ** The role creation call of the roles import *)

Section WithHost.
Context `{Host}.

(** The call [createRoles] sends for a RoleSpec: its name and color, its
    flags with [false] and [true] for a missing one, and the bits that
    [normalizePermissionsInput] gives. *)
Definition importedFor (r : RoleSpec) (p : RolePayload) : Prop :=
  rp_name p = role_name r /\ rp_color p = color r /\
  rp_hoist p = Some (default false (hoist r)) /\
  rp_mentionable p = Some (default true (mentionable r)) /\
  Handlers.normalizePermissionsInput (permissions r) = Ok (rp_permissions p).

End WithHost.

(** A RoleSpec that carries both flags and whose permission value is not
    the number NaN. *)
Definition flagged (r : RoleSpec) : Prop :=
  is_Some (hoist r) /\ is_Some (mentionable r) /\ permissions r <> PermNumber NumNaN.

End Behaviour.

(* ===================================================================== *)
(** * Part XII: the validator                                             *)
(* ===================================================================== *)

Module ValidatorFacts.
Import JS Model Index Statements.

Lemma channelCount_from (cats : list CategorySpec) (n : nat) :
  fold_left
    (fun count cat =>
       (count + match cat_channels cat with Some chs => length chs | None => O end)%nat)
    cats n = (n + totalChannels cats)%nat.
Proof.
  revert n. induction cats as [|cat cats IH]; intros n; simpl.
  - unfold totalChannels. simpl. lia.
  - rewrite IH. unfold totalChannels. simpl.
    destruct (cat_channels cat); simpl; lia.
Qed.

Lemma channelCount_total (cats : list CategorySpec) :
  channelCount cats = totalChannels cats.
Proof. unfold channelCount. rewrite channelCount_from. lia. Qed.

Lemma totalChannels_app (a b : list CategorySpec) :
  totalChannels (a ++ b) = (totalChannels a + totalChannels b)%nat.
Proof. unfold totalChannels. rewrite List.map_app, list_sum_app. reflexivity. Qed.

(** What the validator does on a template whose categories are an array. *)
Lemma ensureTemplateSafe_array (t : Template) (cats : list CategorySpec) :
  categories t = IsArray cats ->
  ensureTemplateSafe (Some t) =
    if (500 <? totalChannels cats)%nat then Some (TooManyChannels (totalChannels cats))
    else if (200 <? roleCount t)%nat then Some (TooManyRoles (roleCount t))
    else None.
Proof.
  intros Hc. unfold ensureTemplateSafe. rewrite Hc, channelCount_total. reflexivity.
Qed.

(** C2. [ensureTemplateSafe] throws the TemplateInvalid error exactly when
    the template is absent or its [categories] is missing or no array;
    otherwise it throws a LimitExceeded error exactly when the channels of
    all categories together are more than 500 or the roles more than 200.
    So 501 channels are refused however they are spread over categories,
    and exactly 500 (with at most 200 roles) are accepted. *)
Theorem ensureTemplateSafe_spec :
  ensureTemplateSafe None = Some NotValid /\
  forall t : Template,
    ((exists e, ensureTemplateSafe (Some t) = Some e /\ errorKind e = TemplateInvalid)
       <-> arrayOr (categories t) = None) /\
    (forall cats, categories t = IsArray cats ->
       ((exists e, ensureTemplateSafe (Some t) = Some e /\ errorKind e = LimitExceeded)
          <-> (500 < totalChannels cats \/ 200 < roleCount t)%nat) /\
       (totalChannels cats = 501%nat ->
          ensureTemplateSafe (Some t) = Some (TooManyChannels 501)) /\
       (totalChannels cats = 500%nat -> (roleCount t <= 200)%nat ->
          ensureTemplateSafe (Some t) = None)).
Proof.
  split; [reflexivity|]. intros t. split.
  - destruct (categories t) as [| |cats] eqn:Hc; cbn [arrayOr].
    + unfold ensureTemplateSafe. rewrite Hc. split; [reflexivity|].
      intros _. exists NotValid. split; reflexivity.
    + unfold ensureTemplateSafe. rewrite Hc. split; [reflexivity|].
      intros _. exists NotValid. split; reflexivity.
    + split; [|discriminate].
      intros [e [He Hk]]. rewrite (ensureTemplateSafe_array t cats Hc) in He.
      destruct (500 <? totalChannels cats)%nat;
        [|destruct (200 <? roleCount t)%nat]; inversion He; subst; discriminate.
  - intros cats Hc. pose proof (ensureTemplateSafe_array t cats Hc) as E.
    split; [split|rewrite E; split].
    + intros [e [He Hk]]. rewrite E in He.
      destruct (500 <? totalChannels cats)%nat eqn:E1.
      * left. apply Nat.ltb_lt in E1. exact E1.
      * destruct (200 <? roleCount t)%nat eqn:E2; [|discriminate].
        right. apply Nat.ltb_lt in E2. exact E2.
    + intros Hlim. rewrite E.
      destruct (500 <? totalChannels cats)%nat eqn:E1.
      * eexists. split; reflexivity.
      * destruct (200 <? roleCount t)%nat eqn:E2.
        -- eexists. split; reflexivity.
        -- apply Nat.ltb_ge in E1. apply Nat.ltb_ge in E2. lia.
    + intros H501. rewrite H501. reflexivity.
    + intros H500 Hr. rewrite H500. simpl.
      destruct (200 <? roleCount t)%nat eqn:E2; [|reflexivity].
      apply Nat.ltb_lt in E2. lia.
Qed.

Lemma ensureTemplateSafe_spec_witness :
  ensureTemplateSafe (Some (oneCategory 500)) = None /\
  ensureTemplateSafe (Some (oneCategory 501)) = Some (TooManyChannels 501).
Proof.
  split.
  - apply (proj2 (proj2 (proj2 (proj2 ensureTemplateSafe_spec (oneCategory 500)) _ eq_refl)));
      [vm_compute; reflexivity | vm_compute; lia].
  - apply (proj1 (proj2 (proj2 (proj2 ensureTemplateSafe_spec (oneCategory 501)) _ eq_refl)));
      vm_compute; reflexivity.
Defined.

End ValidatorFacts.

(* ===================================================================== *)
(** * Part XIII: the provisioning engine                                  *)
(* ===================================================================== *)

Module EngineFacts.
Import JS Unicode Model Live ServerBuilder Statements.

(** ** Definitions used by the statements *)

Section WithHost.
Context `{Host}.

Section WithPlatform.
Context {G : Type} `{Platform G}.

(** ** The monad *)

Lemma bind_ret_l {A B} (a : A) (f : A -> M G B) (w : World G) :
  bind (ret a) f w = f a w.
Proof. reflexivity. Qed.

Lemma bind_ok {A B} (m : M G A) (f : A -> M G B) w w' a :
  m w = (w', Ok a) -> bind m f w = f a w'.
Proof. intros E. unfold bind. rewrite E. reflexivity. Qed.

Lemma bind_throw {A B} (m : M G A) (f : A -> M G B) w w' e :
  m w = (w', Throw e) -> bind m f w = (w', Throw e).
Proof. intros E. unfold bind. rewrite E. reflexivity. Qed.






(** ** The log *)

Lemma extends_ret {A} P (a : A) : extends P (ret a : M G A).
Proof. intros w. exists []. simpl. rewrite app_nil_r. auto. Qed.

Lemma extends_throw {A} P e : extends P (@throw G A e).
Proof. intros w. exists []. simpl. rewrite app_nil_r. auto. Qed.

Lemma extends_lift {A} P (o : outcome A) : extends P (liftOutcome o : M G A).
Proof. intros w. exists []. simpl. rewrite app_nil_r. auto. Qed.

Lemma extends_call {A} (P : Call -> Prop) c (op : G -> G * (ApiError + A)) :
  P c -> extends P (call c op).
Proof.
  intros Pc w. exists [c]. unfold call.
  destruct (op (guild w)) as [g' [e|a]]; simpl; auto.
Qed.

Lemma extends_bind {A B} P (m : M G A) (f : A -> M G B) :
  extends P m -> (forall a, extends P (f a)) -> extends P (bind m f).
Proof.
  intros Hm Hf w. destruct (Hm w) as [l1 [E1 F1]].
  unfold bind. destruct (m w) as [w' [a|e]]; simpl in *.
  - destruct (Hf a w') as [l2 [E2 F2]]. exists (l1 ++ l2).
    rewrite E2, E1, app_assoc. split; [reflexivity|].
    apply Forall_app. auto.
  - exists l1. auto.
Qed.

Lemma extends_catch {A} P (m : M G A) (h : exn -> M G A) :
  extends P m -> (forall e, extends P (h e)) -> extends P (catch m h).
Proof.
  intros Hm Hh w. destruct (Hm w) as [l1 [E1 F1]].
  unfold catch. destruct (m w) as [w' [a|e]]; simpl in *.
  - exists l1. auto.
  - destruct (Hh e w') as [l2 [E2 F2]]. exists (l1 ++ l2).
    rewrite E2, E1, app_assoc. split; [reflexivity|].
    apply Forall_app. auto.
Qed.

Lemma extends_forEach {A} P (l : list A) (body : A -> M G unit) :
  (forall x, extends P (body x)) -> extends P (forEach l body).
Proof.
  intros Hb. induction l as [|x l IH]; simpl.
  - apply extends_ret.
  - apply extends_bind; [apply Hb|intros _; exact IH].
Qed.

(** ** Names and topics *)

Lemma jeqb_true (a b : jsstring) : jeqb a b = true <-> a = b.
Proof. unfold jeqb. destruct (decide (a = b)); split; congruence. Qed.


Lemma truthy_false (s : jsstring) : truthy s = false <-> s = [].
Proof. destruct s; simpl; split; congruence. Qed.

Lemma sanitizeName_length (name : jsstring) : (length (sanitizeName name) <= 90)%nat.
Proof.
  unfold sanitizeName, slice0. destruct (truthy (trim name)); cbn [negb].
  - apply firstn_le_length.
  - vm_compute. lia.
Qed.

Lemma categoryPayload_sized (c : CategorySpec) : wellSized (CreateChannel (categoryPayload c)).
Proof.
  cbn [wellSized categoryPayload cp_name cp_topic].
  split; [apply sanitizeName_length|]. intros t Ht. discriminate.
Qed.

Lemma channelPayload_sized (parent : jsstring) (ch : ChannelSpec) :
  wellSized (CreateChannel (channelPayload parent ch)).
Proof.
  unfold channelPayload. destruct (isVoiceType (ch_type ch)); cbn [wellSized cp_name cp_topic].
  - split; [apply sanitizeName_length|]. intros t Ht. discriminate.
  - split; [apply sanitizeName_length|]. intros t Ht.
    destruct (ch_topic ch) as [t0|]; [|discriminate].
    destruct (truthy t0); [|discriminate].
    assert (E : t = slice0 1024 t0) by congruence.
    rewrite E. apply firstn_le_length.
Qed.

Lemma applyOverwrite_log (P : Call -> Prop) m channel ow :
  (forall c r a d, P (CreateOverwrite c r a d)) ->
  extends P (applyOverwrite m channel ow).
Proof.
  intros HP. unfold applyOverwrite.
  destruct (m !! roleRefId ow) as [id|]; [|apply extends_ret].
  destruct (negb (truthy id)); [apply extends_ret|].
  apply extends_bind; [apply extends_lift|]. intros a.
  apply extends_bind; [apply extends_lift|]. intros d.
  apply extends_call. apply HP.
Qed.


Lemma ensureRolesFrom_log (P : Call -> Prop) rs :
  (forall p, P (CreateRole p)) ->
  forall m, extends P (ensureRolesFrom m rs).
Proof.
  intros HR. induction rs as [|r rs IH]; intros m; simpl.
  - apply extends_ret.
  - apply extends_bind; [|intros m'; apply IH].
    unfold ensureRole. destruct (isEveryone r || jeqb (refId r) everyoneId).
    + apply extends_ret.
    + apply extends_bind; [apply extends_lift|]. intros perms.
      apply extends_bind; [apply extends_call, HR|]. intros id. apply extends_ret.
Qed.


(** ** The retry of a channel creation *)

Lemma topic_field_spec (e : ApiError) :
  existsb (jeqb (lit "topic")) (err_fields e)
  || (if decide (err_code e = Some 50035%Z) then true else false) = true
  <-> topicSignature e.
Proof.
  unfold topicSignature. rewrite orb_true_iff, existsb_exists. split.
  - intros [[x [Hx Hj]]|Hc].
    + left. apply jeqb_true in Hj. subst x. exact Hx.
    + right. destruct (decide (err_code e = Some 50035%Z)); [assumption|discriminate].
  - intros [Hf|Hc].
    + left. exists (lit "topic"). split; [exact Hf|]. apply jeqb_true. reflexivity.
    + right. destruct (decide (err_code e = Some 50035%Z)); [reflexivity|contradiction].
Qed.

Lemma topic_truthy_spec (payload : ChannelPayload) :
  from_option truthy false (cp_topic payload) = true
  <-> exists t, cp_topic payload = Some t /\ t <> [].
Proof.
  destruct (cp_topic payload) as [t|]; simpl.
  - split.
    + intros E. exists t. split; [reflexivity|]. intros ->. discriminate.
    + intros [t' [E N]]. inversion E; subst. destruct t'; [congruence|reflexivity].
  - split; [discriminate|]. intros [t [E _]]. discriminate.
Qed.

(** C4 (amended).  A channel creation that the platform accepts is issued
    once.  When it is rejected with an error that names the field [topic]
    among its validation errors, or that carries the code 50035 whatever
    field caused it, and the payload has a non-empty topic, the same
    creation is issued exactly once more without the topic, and its result
    is the result of [createChannelSafe]: no error surfaces when the retry
    is accepted.  A rejection without these signatures, or of a payload
    without topic, is not retried and is raised to the caller. *)
Theorem createChannelSafe_retry (payload : ChannelPayload) (w : World G) :
  (forall g1 id,
     channelsCreate payload (guild w) = (g1, inr id) ->
     createChannelSafe payload w = (mkWorld g1 (log w ++ [CreateChannel payload]), Ok id)) /\
  (forall g1 e,
     channelsCreate payload (guild w) = (g1, inl e) ->
     let w1 := mkWorld g1 (log w ++ [CreateChannel payload]) in
     let retried := topicSignature e /\ exists t, cp_topic payload = Some t /\ t <> [] in
     (retried ->
        createChannelSafe payload w =
          call (CreateChannel (withoutTopic payload)) (channelsCreate (withoutTopic payload)) w1 /\
        forall g2 id,
          channelsCreate (withoutTopic payload) g1 = (g2, inr id) ->
          createChannelSafe payload w =
            (mkWorld g2 (log w ++ [CreateChannel payload; CreateChannel (withoutTopic payload)]),
             Ok id)) /\
     (~ retried -> createChannelSafe payload w = (w1, Throw (Rejected e)))).
Proof.
  split.
  - intros g1 id E. unfold createChannelSafe, catch, call. rewrite E. reflexivity.
  - intros g1 e E w1 retried.
    assert (Hdec : topicSignature e /\ (exists t, cp_topic payload = Some t /\ t <> []) <->
                   (existsb (jeqb (lit "topic")) (err_fields e)
                    || (if decide (err_code e = Some 50035%Z) then true else false))
                   && from_option truthy false (cp_topic payload) = true).
    { rewrite andb_true_iff, topic_field_spec, topic_truthy_spec. tauto. }
    assert (Hrun : createChannelSafe payload w =
              if (existsb (jeqb (lit "topic")) (err_fields e)
                  || (if decide (err_code e = Some 50035%Z) then true else false))
                 && from_option truthy false (cp_topic payload)
              then call (CreateChannel (withoutTopic payload))
                     (channelsCreate (withoutTopic payload)) w1
              else (w1, Throw (Rejected e))).
    { unfold createChannelSafe, catch. unfold call at 1. rewrite E.
      match goal with |- (if ?c then _ else _) _ = _ => destruct c end; reflexivity. }
    split.
    + intros R. apply Hdec in R. rewrite Hrun, R. split; [reflexivity|].
      intros g2 id E2. unfold call, w1. simpl. rewrite E2. simpl.
      rewrite <- app_assoc. reflexivity.
    + intros NR. rewrite Hrun.
      match goal with |- (if ?c then _ else _) = _ => destruct c eqn:C end; [|reflexivity].
      exfalso. apply NR, Hdec. reflexivity.
Qed.

(** ** Overwrites that resolve to no role *)

Lemma ensureRole_keys m r w w' m' :
  ensureRole m r w = (w', Ok m') -> exists v, m' = <[refId r := v]> m.
Proof.
  unfold ensureRole. destruct (isEveryone r || jeqb (refId r) everyoneId).
  - intros E. inversion E; subst. eexists. reflexivity.
  - unfold bind, liftOutcome, call, ret.
    destruct (normalizePermValue (permissions r)) as [p|e]; [|discriminate].
    destruct (rolesCreate _ (guild w)) as [g' [e|id]]; [discriminate|].
    intros E. inversion E; subst. eexists. reflexivity.
Qed.








(** ** The role phase *)

Lemma ensureRolesFrom_base m r rs (w : World G) :
  mapsToBase r = true ->
  ensureRolesFrom m (r :: rs) w = ensureRolesFrom (<[refId r := everyoneId]> m) rs w.
Proof.
  intros B. cbn [ensureRolesFrom]. unfold ensureRole. unfold mapsToBase in B.
  rewrite B. reflexivity.
Qed.

Lemma ensureRolesFrom_invalid m r rs (w : World G) e :
  mapsToBase r = false ->
  normalizePermValue (permissions r) = Throw e ->
  ensureRolesFrom m (r :: rs) w = (w, Throw e).
Proof.
  intros B Np. cbn [ensureRolesFrom]. unfold ensureRole. unfold mapsToBase in B.
  rewrite B, Np. reflexivity.
Qed.

Lemma ensureRolesFrom_rejected m r rs (w : World G) p g' e :
  mapsToBase r = false ->
  normalizePermValue (permissions r) = Ok p ->
  rolesCreate (rolePayload r p) (guild w) = (g', inl e) ->
  ensureRolesFrom m (r :: rs) w =
    (mkWorld g' (log w ++ [CreateRole (rolePayload r p)]), Throw (Rejected e)).
Proof.
  intros B Np Rc. cbn [ensureRolesFrom]. unfold ensureRole. unfold mapsToBase in B.
  rewrite B, Np. unfold bind, liftOutcome, call. unfold rolePayload in Rc.
  rewrite Rc. reflexivity.
Qed.

Lemma ensureRolesFrom_created m r rs (w : World G) p g' id :
  mapsToBase r = false ->
  normalizePermValue (permissions r) = Ok p ->
  rolesCreate (rolePayload r p) (guild w) = (g', inr id) ->
  ensureRolesFrom m (r :: rs) w =
    ensureRolesFrom (<[refId r := id]> m) rs
      (mkWorld g' (log w ++ [CreateRole (rolePayload r p)])).
Proof.
  intros B Np Rc. cbn [ensureRolesFrom]. unfold ensureRole. unfold mapsToBase in B.
  rewrite B, Np. unfold bind, liftOutcome, call. unfold rolePayload in Rc.
  rewrite Rc. reflexivity.
Qed.

Lemma sentFor_rolePayload r p :
  normalizePermValue (permissions r) = Ok p -> sentFor r (rolePayload r p).
Proof. intros Np. unfold sentFor. simpl. auto. Qed.

Lemma ensureRolesFrom_calls rs :
  forall m w,
    exists done pending created,
      List.filter (fun r => negb (mapsToBase r)) rs = done ++ pending /\
      log (fst (ensureRolesFrom m rs w)) = log w ++ List.map CreateRole created /\
      Forall2 sentFor done created /\
      (forall m', snd (ensureRolesFrom m rs w) = Ok m' -> pending = []).
Proof.
  induction rs as [|r rs IH]; intros m w.
  - exists [], [], []. simpl. rewrite app_nil_r.
    split; [reflexivity|]. split; [reflexivity|]. split; [constructor|reflexivity].
  - cbn [List.filter]. destruct (mapsToBase r) eqn:B; cbn [negb].
    + rewrite (ensureRolesFrom_base m r rs w B). apply IH.
    + destruct (normalizePermValue (permissions r)) as [p|e] eqn:Np.
      * destruct (rolesCreate (rolePayload r p) (guild w)) as [g' [e|id]] eqn:Rc.
        -- rewrite (ensureRolesFrom_rejected m r rs w p g' e B Np Rc).
           exists [r], (List.filter (fun r => negb (mapsToBase r)) rs), [rolePayload r p].
           split; [reflexivity|]. split; [reflexivity|]. split.
           ++ constructor; [apply sentFor_rolePayload, Np|constructor].
           ++ intros m' Hm'. discriminate.
        -- rewrite (ensureRolesFrom_created m r rs w p g' id B Np Rc).
           destruct (IH (<[refId r := id]> m)
                        (mkWorld g' (log w ++ [CreateRole (rolePayload r p)])))
             as [done [pending [created [Hf [Hl [H2 Hp]]]]]].
           exists (r :: done), pending, (rolePayload r p :: created).
           split; [simpl; f_equal; exact Hf|]. split.
           ++ rewrite Hl. simpl. rewrite <- app_assoc. reflexivity.
           ++ split; [|exact Hp].
              constructor; [apply sentFor_rolePayload, Np|exact H2].
      * rewrite (ensureRolesFrom_invalid m r rs w e B Np).
        exists [], (r :: List.filter (fun r => negb (mapsToBase r)) rs), [].
        split; [reflexivity|]. split; [simpl; rewrite app_nil_r; reflexivity|].
        split; [constructor|]. intros m' Hm'. discriminate.
Qed.


End WithPlatform.
End WithHost.

(** ** Concrete runs *)

(** On a platform that refuses topics, the creation of a channel with a
    topic succeeds after one retry. *)
Lemma createChannelSafe_retry_witness :
  @createChannelSafe _ (Sim.platform Examples.rejectTopic) Examples.newsPayload Examples.freshWorld =
    (mkWorld (fst (Sim.createChannel Examples.rejectTopic (withoutTopic Examples.newsPayload)
                     Sim.emptyTarget))
       [CreateChannel Examples.newsPayload; CreateChannel (withoutTopic Examples.newsPayload)],
     Ok (lit "1")).
Proof.
  refine (proj2 (proj1 (proj2 (@createChannelSafe_retry _ (Sim.platform Examples.rejectTopic)
                                 Examples.newsPayload Examples.freshWorld)
                          Sim.emptyTarget Examples.topicError eq_refl) _) _ _ eq_refl).
  split.
  - left. vm_compute. left. reflexivity.
  - exists (lit "hello"). split; [reflexivity | discriminate].
Defined.

(** C4, as stated, fails: a rejection whose only faulty field is [name],
    under the code 50035, is retried without topic as well. *)
Lemma createChannelSafe_counterexample :
  ~ (forall (payload : ChannelPayload) (w : World Sim.State) g e,
       @channelsCreate _ (Sim.platform Examples.rejectBadName) payload (guild w) = (g, inl e) ->
       ~ In (lit "topic") (err_fields e) ->
       @createChannelSafe _ (Sim.platform Examples.rejectBadName) payload w =
         (mkWorld g (log w ++ [CreateChannel payload]), Throw (Rejected e))).
Proof.
  intros claim.
  specialize (claim Examples.badPayload Examples.freshWorld Sim.emptyTarget Examples.nameError eq_refl).
  assert (N : ~ In (lit "topic") (err_fields Examples.nameError)).
  { vm_compute. intros [E|[]]. discriminate. }
  specialize (claim N). vm_compute in claim. discriminate.
Qed.




End EngineFacts.

(* ===================================================================== *)
(** * Part XIV: the text parser                                           *)
(* ===================================================================== *)

Module ParserFacts.
Import JS Regex Unicode Model TextParser Statements.

Lemma flagEqb_eq (a b : PermFlag) : flagEqb a b = true -> a = b.
Proof. destruct a, b; simpl; intros E; try reflexivity; discriminate. Qed.

Section WithHost.
Context `{Host}.

(** ** permissionsToBitfield *)

Lemma mappedFlags_from (perms : list jsstring) (acc : list PermFlag) :
  fold_left
    (fun mapped p =>
       match switchPermission (normalizePermission p) with
       | Some f => mapped ++ [f]
       | None => mapped
       end)
    perms acc = acc ++ recognized perms.
Proof.
  revert acc. induction perms as [|p perms IH]; intros acc.
  - unfold recognized. simpl. rewrite app_nil_r. reflexivity.
  - cbn [fold_left]. rewrite IH. unfold recognized. cbn [omap list_omap].
    destruct (switchPermission (normalizePermission p)) as [f|].
    + rewrite <- app_assoc. reflexivity.
    + reflexivity.
Qed.

Lemma mappedFlags_recognized (perms : list jsstring) :
  mappedFlags perms = recognized perms.
Proof. unfold mappedFlags. rewrite mappedFlags_from. reflexivity. Qed.

Lemma recognized_In (perms : list jsstring) (f : PermFlag) :
  In f (recognized perms) <->
  exists p, In p perms /\ switchPermission (normalizePermission p) = Some f.
Proof.
  unfold recognized. rewrite <- list_elem_of_In, list_elem_of_omap.
  split; intros [p [Hp E]]; exists p; split; auto; apply list_elem_of_In; auto.
Qed.

Lemma resolveFlags_from_bit (l : list PermFlag) (acc : N) (i : N) :
  N.testbit (fold_left (fun prev f => N.lor prev (Flags f)) l acc) i =
  N.testbit acc i || existsb (fun f => N.testbit (Flags f) i) l.
Proof.
  revert acc. induction l as [|f l IH]; intros acc; simpl.
  - rewrite orb_false_r. reflexivity.
  - rewrite IH, N.lor_spec, orb_assoc. reflexivity.
Qed.

Lemma resolveFlags_bit (l : list PermFlag) (i : N) :
  N.testbit (resolveFlags l) i = existsb (fun f => N.testbit (Flags f) i) l.
Proof. unfold resolveFlags. rewrite resolveFlags_from_bit. reflexivity. Qed.

Lemma resolveFlags_fold_right (l : list PermFlag) :
  resolveFlags l = fold_right N.lor 0 (List.map Flags l).
Proof.
  apply N.bits_inj. intros i. rewrite resolveFlags_bit.
  induction l as [|f l IH]; simpl; [reflexivity|].
  rewrite N.lor_spec, IH. reflexivity.
Qed.

Lemma permissionsToBitfield_bit (perms : list jsstring) (i : N) :
  N.testbit (permissionsToBitfield perms) i = true <->
  exists p f, In p perms /\ switchPermission (normalizePermission p) = Some f /\
              N.testbit (Flags f) i = true.
Proof.
  unfold permissionsToBitfield.
  rewrite resolveFlags_bit, mappedFlags_recognized, existsb_exists. split.
  - intros [f [Hf Hb]]. apply recognized_In in Hf as [p [Hp E]]. eauto.
  - intros [p [f [Hp [E Hb]]]]. exists f. split; [|exact Hb].
    apply recognized_In. eauto.
Qed.

(** Two inputs with the same members give the same bits. *)
Lemma permissionsToBitfield_members (P Q : list jsstring) :
  (forall p, In p P <-> In p Q) ->
  permissionsToBitfield P = permissionsToBitfield Q.
Proof.
  intros E. apply N.bits_inj. intros i. apply eq_true_iff_eq.
  rewrite !permissionsToBitfield_bit.
  split; intros [p [f [Hp R]]]; exists p, f; split; auto; apply E; exact Hp.
Qed.

(** The case labels are distinct: each one selects its own line of the
    table. *)
Lemma synonyms_distinct :
  forallb
    (fun e => match switchPermission (lit (fst e)) with
              | Some f => flagEqb f (snd e)
              | None => false
              end)
    synonyms = true.
Proof. vm_compute. reflexivity. Qed.

Lemma switchPermission_table (norm : jsstring) (f : PermFlag) :
  switchPermission norm = Some f <->
  exists label, In (label, f) synonyms /\ norm = lit label.
Proof.
  split.
  - unfold switchPermission. intros E.
    destruct (List.find _ synonyms) as [[label g]|] eqn:F; [|discriminate].
    simpl in E. inversion E; subst g.
    apply find_some in F as [Hin Hj]. exists label. split; [exact Hin|].
    simpl in Hj. unfold jeqb in Hj. destruct (decide (norm = lit label)); congruence.
  - intros [label [Hin ->]].
    pose proof synonyms_distinct as D. rewrite forallb_forall in D.
    specialize (D _ Hin). simpl in D.
    destruct (switchPermission (lit label)) as [g|]; [|discriminate].
    apply flagEqb_eq in D. congruence.
Qed.

(** C7.  [permissionsToBitfield] is total, and for every sequence of names:
    its result is the bitwise or of the flag values of the names that the
    table of the [switch] recognizes once the parenthetical parts are
    removed, the ends trimmed and the case folded ([normalizePermission]);
    a bit is set exactly when a recognized name of the input sets it; a name
    that is not recognized contributes nothing, wherever it stands; and the
    result does not depend on order or repetition, so a permutation [Q] of
    [P] and [Q ++ Q] give the bits of [P]. *)
Theorem permissionsToBitfield_spec :
  (forall perms,
     permissionsToBitfield perms = fold_right N.lor 0 (List.map Flags (recognized perms))) /\
  (forall norm f,
     switchPermission norm = Some f <->
     exists label, In (label, f) synonyms /\ norm = lit label) /\
  normalizePermission (lit "  View Channel (text only) ") = lit "view channel" /\
  (forall perms i,
     N.testbit (permissionsToBitfield perms) i = true <->
     exists p f, In p perms /\ switchPermission (normalizePermission p) = Some f /\
                 N.testbit (Flags f) i = true) /\
  (forall P u Q,
     switchPermission (normalizePermission u) = None ->
     permissionsToBitfield (P ++ u :: Q) = permissionsToBitfield (P ++ Q)) /\
  (forall P Q,
     Permutation P Q ->
     permissionsToBitfield Q = permissionsToBitfield P /\
     permissionsToBitfield (Q ++ Q) = permissionsToBitfield P).
Proof.
  split; [|split; [|split; [|split; [|split]]]].
  - intros perms. unfold permissionsToBitfield.
    rewrite mappedFlags_recognized. apply resolveFlags_fold_right.
  - apply switchPermission_table.
  - vm_compute. reflexivity.
  - apply permissionsToBitfield_bit.
  - intros P u Q E. unfold permissionsToBitfield. rewrite !mappedFlags_recognized.
    unfold recognized. rewrite !omap_app. cbn [omap list_omap]. rewrite E. reflexivity.
  - intros P Q HP. split.
    + apply permissionsToBitfield_members. intros p. split; intros Hp.
      * eapply Permutation_in; [apply Permutation_sym, HP|exact Hp].
      * eapply Permutation_in; [exact HP|exact Hp].
    + apply permissionsToBitfield_members. intros p. rewrite in_app_iff. split.
      * intros [Hp|Hp]; (eapply Permutation_in; [apply Permutation_sym, HP|exact Hp]).
      * intros Hp. left. eapply Permutation_in; [exact HP|exact Hp].
Qed.

(** ** parseTextStructure *)

Lemma buildChannelFromLine_baseRoleOnly (line : jsstring) :
  baseRoleOnly (buildChannelFromLine line).
Proof.
  unfold baseRoleOnly, buildChannelFromLine. cbn [ch_overwrites].
  destruct (extractPermissions (normalizeLine line)); [left|right; eexists]; reflexivity.
Qed.

Lemma parseLine_baseRoleOnly (st : ParseState) (line : jsstring) :
  Forall categoryBaseRoleOnly (ps_categories st) ->
  Forall categoryBaseRoleOnly (ps_categories (parseLine st line)).
Proof.
  intros Inv. unfold parseLine.
  destruct (isRoleLine line).
  { destruct (buildRoleFromLine _ line); exact Inv. }
  match goal with |- context [if ?c then _ else _] => destruct c end.
  { cbn [ps_categories]. apply Forall_app. split; [exact Inv|].
    constructor; [constructor|constructor]. }
  assert (Push : forall cats i,
             Forall categoryBaseRoleOnly cats ->
             Forall categoryBaseRoleOnly
               (alter (pushChannel (buildChannelFromLine (normalizeLine (trim line)))) i cats)).
  { intros cats i Hc. apply Forall_alter; [exact Hc|].
    intros c _ Pc. unfold categoryBaseRoleOnly, pushChannel in *. cbn [cat_channels default].
    apply Forall_app. split; [exact Pc|].
    constructor; [apply buildChannelFromLine_baseRoleOnly|constructor]. }
  destruct (ps_current st) as [i|] eqn:Cur; cbn [ps_current ps_categories].
  - rewrite Cur. cbn [ps_categories]. apply Push, Inv.
  - apply Push. apply Forall_app. split; [exact Inv|].
    constructor; [constructor|constructor].
Qed.

Lemma parse_baseRoleOnly (lines : list jsstring) (st : ParseState) :
  Forall categoryBaseRoleOnly (ps_categories st) ->
  Forall categoryBaseRoleOnly (ps_categories (fold_left parseLine lines st)).
Proof.
  revert st. induction lines as [|line lines IH]; intros st Inv; simpl; [exact Inv|].
  apply IH, parseLine_baseRoleOnly, Inv.
Qed.

Lemma countChannels_total (cats : list CategorySpec) :
  countChannels cats = totalChannels cats.
Proof.
  unfold countChannels.
  assert (E : forall n,
             fold_left (fun total cat => (total + length (default [] (cat_channels cat)))%nat)
               cats n = (n + totalChannels cats)%nat).
  { induction cats as [|c cats IH]; intros n; simpl.
    - unfold totalChannels. simpl. lia.
    - rewrite IH. unfold totalChannels. simpl. lia. }
  rewrite E. lia.
Qed.

(** C8.  [parseTextStructure] is a total function: every raw input gives
    a template whose [roles] and [categories] are arrays (at worst both
    empty, as for the empty input and for an input of blank lines), whose
    summary reports the number of categories and the number of channels in
    them; the empty result passes the validator. *)
Theorem parseTextStructure_total :
  (forall raw, exists cats rs,
     categories (parseTextStructure raw) = IsArray cats /\
     roles (parseTextStructure raw) = IsArray rs /\
     summary (parseTextStructure raw) =
       toString (N.of_nat (length cats)) ++ lit " categories / " ++
       toString (N.of_nat (totalChannels cats)) ++ lit " channels") /\
  parseTextStructure [] =
    mkTemplate (IsArray []) (IsArray []) (lit "0 categories / 0 channels") /\
  parseTextStructure (lit "   " ++ [13; 10; 10; 9] ++ lit " ") = parseTextStructure [] /\
  Index.ensureTemplateSafe (Some (parseTextStructure [])) = None.
Proof.
  split; [|split; [|split]].
  - intros raw. unfold parseTextStructure.
    set (st := fold_left parseLine _ _).
    exists (ps_categories st), (ps_roles st). cbn [categories roles summary].
    rewrite countChannels_total. auto.
  - vm_compute. reflexivity.
  - vm_compute. reflexivity.
  - vm_compute. reflexivity.
Qed.

(** C6.  The two lines [INFORMATION] and
    [  #rules | Type: text | Permissions: [View Channel, Read Message History]]
    parse to no role and one category [INFORMATION] with one text channel
    [rules], whose only overwrite allows the View-Channel and
    Read-Message-History bits to the key [everyone] and denies nothing.  In
    general a channel built from text has no overwrite, or exactly one, an
    [allow] for the key [everyone]: never one for a named role. *)
Theorem parse_information_example :
  parseTextStructure
    (lit "INFORMATION" ++ [10] ++
     lit "  #rules | Type: text | Permissions: [View Channel, Read Message History]") =
  mkTemplate
    (IsArray [])
    (IsArray
       [mkCategory (lit "INFORMATION")
          (Some
             [mkChannel (lit "rules") (TypeString (lit "text")) (Some (lit "Server rules."))
                false 0 (Some false)
                (Some
                   [mkOverwrite (lit "everyone")
                      (PermString
                         (toString (N.lor (Flags ViewChannel) (Flags ReadMessageHistory))))
                      (PermString (lit "0"))])])])
    (lit "1 categories / 1 channels") /\
  (forall line, baseRoleOnly (buildChannelFromLine line)) /\
  (forall raw cats,
     categories (parseTextStructure raw) = IsArray cats ->
     Forall categoryBaseRoleOnly cats).
Proof.
  split; [|split].
  - vm_compute. reflexivity.
  - apply buildChannelFromLine_baseRoleOnly.
  - intros raw cats E. unfold parseTextStructure in E. cbn [categories] in E.
    inversion E; subst. apply parse_baseRoleOnly. constructor.
Qed.

(** C5, as the code has it.  The line
    [Owner | Color: #ff0000 | Permissions: [Administrator, Manage Roles]]
    parses to no category and one role of color [0xff0000] with the
    Administrator and Manage-Roles bits; but its name keeps the two
    separators of the line: it is [Owner | |], not [Owner]. *)
Theorem parse_owner_example :
  parseTextStructure
    (lit "Owner | Color: #ff0000 | Permissions: [Administrator, Manage Roles]") =
  mkTemplate
    (IsArray
       [mkRole (freshRefId 0) (lit "Owner | |") 16711680 (Some false) (Some true)
          (PermString (toString (N.lor (Flags Administrator) (Flags ManageRoles))))
          None false])
    (IsArray [])
    (lit "0 categories / 0 channels").
Proof. vm_compute. reflexivity. Qed.

End WithHost.

Lemma permissionsToBitfield_spec_witness :
  @permissionsToBitfield Examples.asciiHost [lit "Speak"; lit "no such thing"; lit "Connect"] =
  @permissionsToBitfield Examples.asciiHost [lit "Connect"; lit "Speak"; lit "no such thing"] /\
  @permissionsToBitfield Examples.asciiHost ([lit "Connect"] ++ lit "no such thing" :: [lit "Speak"]) =
  @permissionsToBitfield Examples.asciiHost ([lit "Connect"] ++ [lit "Speak"]).
Proof.
  split.
  - apply (proj1 (proj2 (proj2 (proj2 (proj2 (proj2 (@permissionsToBitfield_spec Examples.asciiHost)))))
                    [lit "Connect"; lit "Speak"; lit "no such thing"]
                    [lit "Speak"; lit "no such thing"; lit "Connect"]
                    (Permutation_cons_append _ _))).
  - apply (proj1 (proj2 (proj2 (proj2 (proj2 (@permissionsToBitfield_spec Examples.asciiHost)))))).
    vm_compute. reflexivity.
Defined.

Lemma parse_information_example_witness :
  Forall (@categoryBaseRoleOnly)
    [mkCategory (lit "General")
       (Some [@buildChannelFromLine Examples.asciiHost (lit "#chat | Permissions: [Send Messages]")])].
Proof.
  apply (proj2 (proj2 (@parse_information_example Examples.asciiHost))
           (lit "#chat | Permissions: [Send Messages]")).
  vm_compute. reflexivity.
Defined.

End ParserFacts.

(* ===================================================================== *)
(** * Part XV: decimal strings                                            *)
(* ===================================================================== *)

Module NumberFacts.
Import JS.

Lemma digitsFrom_digit (b acc c d : N) (s : jsstring) :
  digitOfUnit c = Some d -> (d <? b) = true ->
  digitsFrom b acc (c :: s) = digitsFrom b (acc * b + d) s.
Proof. intros Hd Hb. cbn [digitsFrom]. rewrite Hd, Hb. reflexivity. Qed.

Lemma digitsFrom_units (u : Decimal.uint) (acc : N) :
  digitsFrom 10 acc (unitsOfUint u) =
  Some (DecimalPos.Unsigned.of_lu (Decimal.rev u) + acc * 10 ^ DecimalPos.Unsigned.usize u).
Proof.
  revert acc.
  induction u as [|u IH|u IH|u IH|u IH|u IH|u IH|u IH|u IH|u IH|u IH]; intros acc;
    cbn [unitsOfUint];
    [ cbn [digitsFrom]; f_equal; simpl; lia
    | erewrite digitsFrom_digit; [|reflexivity|reflexivity]; rewrite IH; f_equal;
      set (R := DecimalPos.Unsigned.of_lu (Decimal.rev u));
      match goal with
      | |- context [Decimal.rev (?D u)] =>
          change (Decimal.rev (D u)) with (Decimal.revapp u (D Decimal.Nil))
      end;
      rewrite DecimalPos.Unsigned.of_lu_revapp; fold R;
      cbn [DecimalPos.Unsigned.of_lu DecimalPos.Unsigned.usize];
      rewrite N.pow_succ_r';
      set (P := 10 ^ DecimalPos.Unsigned.usize u);
      match goal with
      | |- context [?a - 48] => let v := eval vm_compute in (a - 48) in change (a - 48) with v
      end;
      lia .. ].
Qed.

Lemma unitsOfUint_nil (u : Decimal.uint) : unitsOfUint u = [] -> u = Decimal.Nil.
Proof. destruct u; simpl; intros E; [reflexivity|discriminate ..]. Qed.

Lemma toString_nonempty (n : N) : toString n <> [].
Proof.
  unfold toString. intros E. apply unitsOfUint_nil in E.
  destruct n as [|p]; [discriminate|].
  exact (DecimalPos.Unsigned.to_uint_nonnil p E).
Qed.

(** Reading the decimal digits of [n] gives [n] back. *)
Lemma digits_toString (n : N) : digits 10 (toString n) = Some n.
Proof.
  unfold digits. pose proof (toString_nonempty n) as NE.
  destruct (toString n) eqn:E; [congruence|]. rewrite <- E. unfold toString.
  rewrite digitsFrom_units. f_equal.
  rewrite N.mul_0_l, N.add_0_r, <- DecimalPos.Unsigned.of_uint_alt.
  apply DecimalN.Unsigned.of_to.
Qed.

Lemma toString_inj (n m : N) : toString n = toString m -> n = m.
Proof.
  intros E. pose proof (digits_toString n) as A. rewrite E, digits_toString in A.
  congruence.
Qed.

Lemma toString_truthy (n : N) : truthy (toString n) = true.
Proof. pose proof (toString_nonempty n). destruct (toString n); [congruence|reflexivity]. Qed.

Lemma unitsOfUint_digits (u : Decimal.uint) :
  Forall (fun c => isDigit c = true) (unitsOfUint u).
Proof. induction u; simpl; constructor; auto. Qed.

Lemma digit_not_white (c : N) : isDigit c = true -> isWhite c = false.
Proof.
  unfold isDigit, isWhite, inRange. intros D.
  apply andb_true_iff in D as [L U]. apply N.leb_le in L. apply N.leb_le in U.
  apply orb_false_iff. split.
  - cbn [existsb]. repeat (apply orb_false_iff; split); try reflexivity;
      apply N.eqb_neq; lia.
  - apply andb_false_iff. left. apply N.leb_gt. lia.
Qed.

Lemma trimStart_head (c : N) (s : jsstring) :
  isWhite c = false -> trimStart (c :: s) = c :: s.
Proof. intros W. simpl. rewrite W. reflexivity. Qed.

Lemma trim_digits (s : jsstring) :
  Forall (fun c => isDigit c = true) s -> trim s = s.
Proof.
  intros D. unfold trim, trimEnd.
  assert (S1 : trimStart s = s).
  { destruct D as [|c s Dc Ds]; [reflexivity|]. apply trimStart_head, digit_not_white, Dc. }
  rewrite S1.
  assert (Dr : Forall (fun c => isDigit c = true) (rev s)) by (apply Forall_rev; exact D).
  destruct (rev s) as [|c r] eqn:E.
  - simpl. rewrite <- (rev_involutive s), E. reflexivity.
  - inversion Dr as [|? ? Dc Dr']; subst.
    rewrite trimStart_head by (apply digit_not_white, Dc).
    rewrite <- E. apply rev_involutive.
Qed.

(** [BigInt] of the decimal text of [n] is [n]. *)
Lemma BigInt_toString (n : N) : BigInt (toString n) = Some (Z.of_N n).
Proof.
  pose proof (unitsOfUint_digits (N.to_uint n)) as D. fold (toString n) in D.
  unfold BigInt. rewrite (trim_digits _ D).
  pose proof (digits_toString n) as R.
  destruct (toString n) as [|c r]; [discriminate|].
  inversion D as [|? ? Dc Dr]; subst.
  assert (Rc : 48 <= c <= 57).
  { unfold isDigit, inRange in Dc. apply andb_true_iff in Dc as [L U].
    apply N.leb_le in L. apply N.leb_le in U. lia. }
  replace (c =? 43) with false by (symmetry; apply N.eqb_neq; lia).
  replace (c =? 45) with false by (symmetry; apply N.eqb_neq; lia).
  destruct r as [|x r'].
  - rewrite R. reflexivity.
  - inversion Dr as [|? ? Dx Dr']; subst.
    assert (Rx : 48 <= x <= 57).
    { unfold isDigit, inRange in Dx. apply andb_true_iff in Dx as [L U].
      apply N.leb_le in L. apply N.leb_le in U. lia. }
    replace (x =? 120) with false by (symmetry; apply N.eqb_neq; lia).
    replace (x =? 88) with false by (symmetry; apply N.eqb_neq; lia).
    replace (x =? 111) with false by (symmetry; apply N.eqb_neq; lia).
    replace (x =? 79) with false by (symmetry; apply N.eqb_neq; lia).
    replace (x =? 98) with false by (symmetry; apply N.eqb_neq; lia).
    replace (x =? 66) with false by (symmetry; apply N.eqb_neq; lia).
    rewrite !andb_false_r. rewrite R. reflexivity.
Qed.

Lemma bigintToString_of_N (n : N) : bigintToString (Z.of_N n) = toString n.
Proof. destruct n; reflexivity. Qed.

End NumberFacts.

(* ===================================================================== *)
(** * Part XVI: the extractor                                             *)
(* ===================================================================== *)

Module ExtractFacts.
Import JS Model Live Index Statements.

(** ** Sorting *)

Lemma insertBy_least {A} (key : A -> Z) (x : A) (l : list A) :
  Forall (fun y => (key x <= key y)%Z) l -> insertBy key x l = x :: l.
Proof.
  intros F. destruct F as [|y l Hy F]; simpl; [reflexivity|].
  apply Z.leb_le in Hy. rewrite Hy. reflexivity.
Qed.

Lemma sortBy_ascending {A} (key : A -> Z) (l : list A) :
  ascendingBy key l -> sortBy key l = l.
Proof.
  induction l as [|x l IH]; simpl; [reflexivity|].
  intros [F S]. rewrite (IH S). apply insertBy_least, F.
Qed.

Lemma Forall_filter_keep {A} (P : A -> Prop) (f : A -> bool) (l : list A) :
  Forall P l -> Forall P (List.filter f l).
Proof.
  induction 1 as [|x l Px F IH]; simpl; [constructor|].
  destruct (f x); [constructor|]; assumption.
Qed.

Lemma ascendingBy_filter {A} (key : A -> Z) (f : A -> bool) (l : list A) :
  ascendingBy key l -> ascendingBy key (List.filter f l).
Proof.
  induction l as [|x l IH]; simpl; [auto|].
  intros [F S]. destruct (f x); simpl; [split|]; auto.
  apply Forall_filter_keep, F.
Qed.

Lemma NoDup_map_filter {A B} (g : A -> B) (f : A -> bool) (l : list A) :
  NoDup (List.map g l) -> NoDup (List.map g (List.filter f l)).
Proof.
  induction l as [|x l IH]; simpl; [auto|].
  intros N. apply NoDup_cons in N as [Nx N]. destruct (f x); simpl; [|auto].
  apply NoDup_cons. split; [|auto].
  intros Hin. apply Nx. apply list_elem_of_In in Hin. apply list_elem_of_In.
  apply in_map_iff in Hin as [y [Ey Hy]]. apply in_map_iff. exists y.
  split; [exact Ey|]. apply filter_In in Hy. tauto.
Qed.

(** ** The map of categories *)

Lemma jeqb_refl (a : jsstring) : jeqb a a = true.
Proof. unfold jeqb. destruct (decide (a = a)); congruence. Qed.

Lemma jeqb_neq (a b : jsstring) : a <> b -> jeqb a b = false.
Proof. unfold jeqb. destruct (decide (a = b)); congruence. Qed.

Lemma jeqb_eq (a b : jsstring) : jeqb a b = true -> a = b.
Proof. unfold jeqb. destruct (decide (a = b)); congruence. Qed.

Lemma mapSet_fresh {V} (k : jsstring) (v : V) (m : list (jsstring * V)) :
  ~ In k (List.map fst m) -> mapSet k v m = m ++ [(k, v)].
Proof.
  induction m as [|[k' v'] m IH]; simpl; [reflexivity|].
  intros N. rewrite jeqb_neq by tauto. rewrite IH by tauto. reflexivity.
Qed.

Lemma categoryMap_build (cats : list LiveChannel) (acc : list (jsstring * CategorySpec)) :
  NoDup (List.map fst acc ++ List.map lc_id cats) ->
  fold_left (fun m cat => mapSet (lc_id cat) (emptyCategory cat) m) cats acc =
  acc ++ List.map (fun cat => (lc_id cat, emptyCategory cat)) cats.
Proof.
  revert acc. induction cats as [|cat cats IH]; intros acc N; simpl.
  - rewrite app_nil_r. reflexivity.
  - assert (Nk : ~ In (lc_id cat) (List.map fst acc)).
    { intros Hin. apply NoDup_app in N as [_ [D _]].
      apply (D (lc_id cat)); apply list_elem_of_In; [exact Hin|left; reflexivity]. }
    rewrite (mapSet_fresh _ _ _ Nk), IH.
    + rewrite <- app_assoc. reflexivity.
    + rewrite List.map_app, <- app_assoc. exact N.
Qed.

Lemma mutateAt_absent k f (m : list (jsstring * CategorySpec)) :
  ~ In k (List.map fst m) -> List.map (mutateAt k f) m = m.
Proof.
  induction m as [|[k' v'] m IH]; simpl; [reflexivity|].
  intros N. unfold mutateAt at 1. simpl. rewrite jeqb_neq by tauto.
  rewrite IH by tauto. reflexivity.
Qed.

Lemma mapGet_None {V} k (m : list (jsstring * V)) :
  mapGet k m = None -> ~ In k (List.map fst m).
Proof.
  induction m as [|[k' v'] m IH]; simpl; [tauto|].
  destruct (jeqb k' k) eqn:E; [discriminate|].
  intros G [Hk|Hin]; [|exact (IH G Hin)].
  subst. rewrite jeqb_refl in E. discriminate.
Qed.

Lemma mapMutate_mutateAt k f (m : list (jsstring * CategorySpec)) :
  NoDup (List.map fst m) -> mapMutate f k m = List.map (mutateAt k f) m.
Proof.
  induction m as [|[k' v'] m IH]; simpl; [reflexivity|].
  intros N. apply NoDup_cons in N as [Nk N]. unfold mutateAt at 1. simpl.
  destruct (jeqb k' k) eqn:E.
  - apply jeqb_eq in E. subst k'. rewrite mutateAt_absent; [reflexivity|].
    intros Hin. apply Nk, list_elem_of_In, Hin.
  - rewrite IH by exact N. reflexivity.
Qed.

Lemma placeChild_mutateAt (m : list (jsstring * CategorySpec)) (ch : LiveChannel) :
  NoDup (List.map fst m) ->
  placeChild m ch = List.map (mutateAt (default [] (lc_parentId ch)) (pushChild ch)) m.
Proof.
  intros N. unfold placeChild.
  destruct (mapGet (default [] (lc_parentId ch)) m) eqn:G.
  - apply mapMutate_mutateAt, N.
  - symmetry. apply mutateAt_absent, mapGet_None, G.
Qed.

Lemma mutateAt_keys k f (m : list (jsstring * CategorySpec)) :
  List.map fst (List.map (mutateAt k f) m) = List.map fst m.
Proof. rewrite List.map_map. reflexivity. Qed.

Lemma placeChildren (chs : list LiveChannel) :
  forall m : list (jsstring * CategorySpec),
    NoDup (List.map fst m) ->
    fold_left placeChild chs m = List.map (fun e => (fst e, gather (fst e) chs (snd e))) m.
Proof.
  induction chs as [|ch chs IH]; intros m N; simpl.
  - unfold gather. simpl. rewrite <- (map_id m) at 1.
    apply map_ext. intros [k c]. reflexivity.
  - rewrite (placeChild_mutateAt m ch N), IH by (rewrite mutateAt_keys; exact N).
    rewrite List.map_map. apply map_ext. intros [k c]. reflexivity.
Qed.

Lemma gather_cons (k : jsstring) (ch : LiveChannel) (chs : list LiveChannel) (c : CategorySpec) :
  gather k (ch :: chs) c =
  gather k chs (if jeqb k (default [] (lc_parentId ch)) then pushChild ch c else c).
Proof. reflexivity. Qed.

Lemma gather_channels (k : jsstring) (chs : list LiveChannel) (name : jsstring)
    (acc : list ChannelSpec) :
  gather k chs {| cat_name := name; cat_channels := Some acc |} =
  {| cat_name := name;
     cat_channels := Some (acc ++ List.map channelTemplate (List.filter (childOf k) chs)) |}.
Proof.
  revert acc. induction chs as [|ch chs IH]; intros acc.
  - simpl. rewrite app_nil_r. reflexivity.
  - rewrite gather_cons. cbn [List.filter]. unfold childOf at 1.
    destruct (jeqb k (default [] (lc_parentId ch))).
    + unfold pushChild. cbn [cat_name cat_channels default].
      rewrite IH. cbn [List.map]. rewrite <- app_assoc. reflexivity.
    + apply IH.
Qed.

(** What [fromGuild] returns for a guild whose collections come in the
    order of their raw positions and whose channel identifiers are
    distinct. *)
Lemma fromGuild_ordered (g : LiveGuild) :
  ascendingBy lr_rawPosition (lg_roles g) ->
  ascendingBy lc_rawPosition (lg_channels g) ->
  NoDup (List.map lc_id (lg_channels g)) ->
  roles (fromGuild g) = IsArray (List.map (roleTemplate (lg_everyone g)) (lg_roles g)) /\
  categories (fromGuild g) =
    IsArray
      (List.map
         (fun cat =>
            {| cat_name := lc_name cat;
               cat_channels :=
                 Some (List.map channelTemplate
                         (List.filter (childOf (lc_id cat))
                            (List.filter hasParent (lg_channels g)))) |})
         (List.filter isCategory (lg_channels g))).
Proof.
  intros Ar Ac N. unfold fromGuild. cbn [roles categories]. split.
  - rewrite (sortBy_ascending _ _ Ar). reflexivity.
  - f_equal.
    fold isCategory. fold hasParent.
    rewrite (sortBy_ascending _ (List.filter isCategory _) (ascendingBy_filter _ _ _ Ac)).
    rewrite (sortBy_ascending _ (List.filter hasParent _) (ascendingBy_filter _ _ _ Ac)).
    change (fun m cat => mapSet (lc_id cat) {| cat_name := lc_name cat; cat_channels := Some [] |} m)
      with (fun m cat => mapSet (lc_id cat) (emptyCategory cat) m).
    rewrite categoryMap_build by (simpl; apply NoDup_map_filter, N). simpl.
    rewrite placeChildren.
    + rewrite !List.map_map. apply map_ext. intros cat. simpl.
      unfold emptyCategory. rewrite gather_channels. reflexivity.
    + rewrite List.map_map. simpl. apply NoDup_map_filter, N.
Qed.

(** ** The sort on any collection *)

Lemma insertBy_perm {A} (key : A -> Z) (x : A) (l : list A) :
  Permutation (insertBy key x l) (x :: l).
Proof.
  induction l as [|y l IH]; cbn [insertBy]; [reflexivity|].
  destruct (key x <=? key y)%Z; [reflexivity|].
  etransitivity; [apply perm_skip, IH|apply perm_swap].
Qed.

Lemma sortBy_perm {A} (key : A -> Z) (l : list A) : Permutation (sortBy key l) l.
Proof.
  induction l as [|x l IH]; cbn [sortBy]; [reflexivity|].
  etransitivity; [apply insertBy_perm|apply perm_skip, IH].
Qed.

Lemma insertBy_ascending {A} (key : A -> Z) (x : A) (l : list A) :
  ascendingBy key l -> ascendingBy key (insertBy key x l).
Proof.
  induction l as [|y l IH]; cbn [insertBy ascendingBy].
  - intros _. split; [constructor|exact I].
  - intros [Hy Hl]. destruct (key x <=? key y)%Z eqn:L.
    + cbn [ascendingBy]. apply Z.leb_le in L. split; [|split; assumption].
      constructor; [exact L|].
      eapply List.Forall_impl; [|exact Hy]. intros z Hz. simpl in Hz. lia.
    + cbn [ascendingBy]. apply Z.leb_gt in L. split; [|apply IH, Hl].
      apply List.Forall_forall. intros z Hz.
      apply (Permutation_in _ (insertBy_perm key x l)) in Hz.
      destruct Hz as [<-|Hz]; [lia|].
      rewrite List.Forall_forall in Hy. apply Hy, Hz.
Qed.

Lemma sortBy_sorted {A} (key : A -> Z) (l : list A) : ascendingBy key (sortBy key l).
Proof.
  induction l as [|x l IH]; cbn [sortBy]; [exact I|]. apply insertBy_ascending, IH.
Qed.

Lemma sortBy_In {A} (key : A -> Z) (l : list A) (x : A) : In x (sortBy key l) <-> In x l.
Proof.
  split; apply Permutation_in; [|symmetry]; apply sortBy_perm.
Qed.

Lemma sortBy_ids (f : LiveChannel -> bool) (chans : list LiveChannel) :
  NoDup (List.map lc_id chans) ->
  NoDup (List.map lc_id (sortBy lc_rawPosition (List.filter f chans))).
Proof.
  intros N.
  assert (P : Permutation (List.map lc_id (sortBy lc_rawPosition (List.filter f chans)))
                (List.map lc_id (List.filter f chans)))
    by apply Permutation.Permutation_map, sortBy_perm.
  rewrite P. apply NoDup_map_filter, N.
Qed.

(** What [fromGuild] returns for a guild whose channel identifiers are
    distinct, whatever the order of its collections. *)
Lemma fromGuild_distinct (g : LiveGuild) :
  NoDup (List.map lc_id (lg_channels g)) ->
  categories (fromGuild g) =
    IsArray
      (List.map
         (fun cat =>
            {| cat_name := lc_name cat;
               cat_channels :=
                 Some (List.map channelTemplate
                         (List.filter (childOf (lc_id cat))
                            (sortBy lc_rawPosition
                               (List.filter hasParent (lg_channels g))))) |})
         (sortBy lc_rawPosition (List.filter isCategory (lg_channels g)))).
Proof.
  intros N. unfold fromGuild. cbn [categories]. f_equal.
  fold isCategory. fold hasParent.
  change (fun m cat => mapSet (lc_id cat) {| cat_name := lc_name cat; cat_channels := Some [] |} m)
    with (fun m cat => mapSet (lc_id cat) (emptyCategory cat) m).
  rewrite categoryMap_build by (simpl; apply sortBy_ids, N). simpl.
  rewrite placeChildren.
  - rewrite !List.map_map. apply map_ext. intros cat. simpl.
    unfold emptyCategory. rewrite gather_channels. reflexivity.
  - rewrite List.map_map. simpl. apply sortBy_ids, N.
Qed.

End ExtractFacts.

(* ===================================================================== *)
(** * Part XVII: provisioning into the reference platform, and back       *)
(* ===================================================================== *)

Module RoundTrip.
Import JS Unicode Model Live ServerBuilder Index Statements ExtractFacts NumberFacts.

(** ** The channels a run leaves behind *)

(** ** Arithmetic of layouts *)

Lemma size_app (a b : Outline) : size (a ++ b) = size a + size b.
Proof. induction a as [|[n chs] a IH]; simpl; [reflexivity|]. rewrite IH. lia. Qed.

Lemma childShapes_app k parent a b :
  childShapes k parent (a ++ b) =
  childShapes k parent a ++ childShapes (k + N.of_nat (length a)) parent b.
Proof.
  revert k. induction a as [|[n v] a IH]; intros k; simpl.
  - rewrite N.add_0_r. reflexivity.
  - rewrite IH. do 3 f_equal. lia.
Qed.

Lemma layout_app k (a b : Outline) :
  layout k (a ++ b) = layout k a ++ layout (k + size a) b.
Proof.
  revert k. induction a as [|[n chs] a IH]; intros k; simpl.
  - rewrite N.add_0_r. reflexivity.
  - rewrite IH, <- app_assoc. do 4 f_equal. lia.
Qed.

Lemma layout_new_category k (o : Outline) name :
  layout k (o ++ [(name, [])]) =
  layout k o ++ [mkShape (toString (k + size o)) name GuildCategory None].
Proof. rewrite layout_app. reflexivity. Qed.

Lemma layout_new_channel k (o : Outline) name chs cn voice :
  layout k (o ++ [(name, chs ++ [(cn, voice)])]) =
  layout k (o ++ [(name, chs)]) ++
  [mkShape (toString (k + size o + 1 + N.of_nat (length chs))) cn
     (if voice then GuildVoice else GuildText) (Some (toString (k + size o)))].
Proof.
  rewrite !layout_app. cbn [layout]. rewrite childShapes_app. cbn [childShapes].
  rewrite !app_nil_r, <- !app_assoc. reflexivity.
Qed.

Lemma size_new_channel (o : Outline) name chs x :
  size (o ++ [(name, chs ++ [x])]) = size (o ++ [(name, chs)]) + 1.
Proof. rewrite !size_app. simpl. rewrite length_app. simpl. lia. Qed.

Lemma countUp_app k a b : countUp k (a + b) = countUp k a ++ countUp (k + N.of_nat a) b.
Proof.
  revert k. induction a as [|a IH]; intros k.
  - simpl. rewrite N.add_0_r. reflexivity.
  - cbn [Nat.add countUp]. rewrite IH. cbn [app]. do 3 f_equal. lia.
Qed.

Lemma childShapes_ids k parent chs :
  List.map sh_id (childShapes k parent chs) = List.map toString (countUp k (length chs)).
Proof.
  revert k. induction chs as [|[n v] chs IH]; intros k; simpl; [reflexivity|].
  rewrite IH. reflexivity.
Qed.

(** The identifiers of a layout are the texts of consecutive numbers. *)
Lemma layout_ids k (o : Outline) :
  List.map sh_id (layout k o) = List.map toString (countUp k (N.to_nat (size o))).
Proof.
  revert k. induction o as [|[n chs] o IH]; intros k; [reflexivity|].
  cbn [layout size List.map].
  replace (N.to_nat (1 + N.of_nat (length chs) + size o))
    with (1 + (length chs + N.to_nat (size o)))%nat by lia.
  cbn [Nat.add countUp List.map sh_id]. f_equal.
  rewrite List.map_app, childShapes_ids, IH, countUp_app, List.map_app.
  first [reflexivity | do 3 f_equal; lia].
Qed.

Lemma countUp_bounds k n j : In j (countUp k n) -> k <= j.
Proof.
  revert k. induction n as [|n IH]; intros k; simpl; [tauto|].
  intros [E|Hin]; [lia|]. apply IH in Hin. lia.
Qed.

Lemma countUp_NoDup k n : NoDup (countUp k n).
Proof.
  revert k. induction n as [|n IH]; intros k; simpl; [constructor|].
  apply NoDup_cons. split; [|apply IH].
  intros Hin. apply list_elem_of_In, countUp_bounds in Hin. lia.
Qed.

Lemma ids_NoDup k n : NoDup (List.map toString (countUp k n)).
Proof.
  apply NoDup_fmap_2; [|apply countUp_NoDup].
  intros a b E. apply toString_inj, E.
Qed.

(** Channels whose shapes are a layout have distinct identifiers. *)
Lemma layout_distinct (chans : list LiveChannel) k (o : Outline) :
  List.map shape chans = layout k o -> NoDup (List.map lc_id chans).
Proof.
  intros E.
  replace (List.map lc_id chans) with (List.map sh_id (List.map shape chans))
    by (rewrite List.map_map; reflexivity).
  rewrite E, layout_ids. apply ids_NoDup.
Qed.
(** ** Reading a layout back *)

Lemma kidsOf_app id a b : kidsOf id (a ++ b) = kidsOf id a ++ kidsOf id b.
Proof. unfold kidsOf. rewrite !List.filter_app, List.map_app. reflexivity. Qed.

Lemma kidsOf_none id l :
  Forall (fun sh => sh_parent sh <> Some id) l -> kidsOf id l = [].
Proof.
  induction 1 as [|sh l Hs F IH]; [reflexivity|].
  change (sh :: l) with ([sh] ++ l). rewrite kidsOf_app, IH, app_nil_r.
  unfold kidsOf. destruct sh as [i n t [p|]]; simpl in *; [|reflexivity].
  destruct (truthy p); simpl; [|reflexivity].
  rewrite jeqb_neq by congruence. reflexivity.
Qed.

Lemma kidsOf_children k j chs :
  kidsOf (toString k) (childShapes j (toString k) chs) = chs.
Proof.
  revert j. induction chs as [|[n v] chs IH]; intros j; [reflexivity|].
  cbn [childShapes].
  change (?x :: childShapes ?a ?b ?c) with ([x] ++ childShapes a b c).
  rewrite kidsOf_app, IH. unfold kidsOf. simpl.
  rewrite toString_truthy. simpl. rewrite jeqb_refl. simpl.
  destruct v; reflexivity.
Qed.

Lemma outlineIn_app all a b : outlineIn all (a ++ b) = outlineIn all a ++ outlineIn all b.
Proof. unfold outlineIn. rewrite List.filter_app, List.map_app. reflexivity. Qed.

Lemma outlineIn_children all k parent chs : outlineIn all (childShapes k parent chs) = [].
Proof.
  revert k. induction chs as [|[n v] chs IH]; intros k; [reflexivity|].
  cbn [childShapes].
  change (?x :: childShapes ?a ?b ?c) with ([x] ++ childShapes a b c).
  rewrite outlineIn_app, IH. unfold outlineIn. simpl. destruct v; reflexivity.
Qed.

Lemma outlineIn_category all cat :
  sh_type cat = 4%Z -> outlineIn all [cat] = [(sh_name cat, kidsOf (sh_id cat) all)].
Proof. intros E. unfold outlineIn. cbn [List.filter]. rewrite E. reflexivity. Qed.

Lemma childShapes_parent k parent chs :
  Forall (fun sh => sh_parent sh = Some parent) (childShapes k parent chs).
Proof.
  revert k. induction chs as [|[n v] chs IH]; intros k; simpl; constructor; auto.
Qed.

(** The parents named in a layout are categories of that layout. *)
Lemma layout_parents k (o : Outline) :
  Forall (fun sh => forall j, j < k -> sh_parent sh <> Some (toString j)) (layout k o).
Proof.
  revert k. induction o as [|[n chs] o IH]; intros k; cbn [layout]; [constructor|].
  constructor; [intros j _; discriminate|].
  apply Forall_app. split.
  - eapply Forall_impl; [apply childShapes_parent|].
    intros sh E j Hj. cbn beta in E. rewrite E. intros X. inversion X as [Y].
    apply toString_inj in Y. lia.
  - eapply Forall_impl; [apply IH|].
    intros sh E j Hj. apply E. lia.
Qed.

Lemma outlineIn_layout (o : Outline) :
  forall k pre,
    Forall (fun sh => forall j, k <= j -> sh_parent sh <> Some (toString j)) pre ->
    outlineIn (pre ++ layout k o) (layout k o) = o.
Proof.
  induction o as [|[n chs] o IH]; intros k pre Hpre; [reflexivity|].
  cbn [layout].
  set (cat := mkShape (toString k) n GuildCategory None).
  set (kids := childShapes (k + 1) (toString k) chs).
  set (k' := k + 1 + N.of_nat (length chs)).
  change (cat :: kids ++ layout k' o) with ([cat] ++ kids ++ layout k' o).
  rewrite !outlineIn_app. unfold kids at 3. rewrite outlineIn_children.
  rewrite (outlineIn_category _ cat eq_refl).
  transitivity
    ((sh_name cat, kidsOf (sh_id cat) (pre ++ [cat] ++ kids ++ layout k' o))
     :: outlineIn (pre ++ [cat] ++ kids ++ layout k' o) (layout k' o)); [reflexivity|].
  f_equal.
  - cbn [sh_name sh_id cat]. f_equal.
    rewrite !kidsOf_app.
    assert (K1 : kidsOf (toString k) pre = []).
    { apply kidsOf_none. eapply Forall_impl; [exact Hpre|]. intros sh E. apply E. lia. }
    assert (K2 : kidsOf (toString k) [cat] = []).
    { apply kidsOf_none. constructor; [discriminate|constructor]. }
    assert (K3 : kidsOf (toString k) (layout k' o) = []).
    { apply kidsOf_none. eapply Forall_impl; [apply layout_parents|].
      intros sh E. apply E. unfold k'. lia. }
    rewrite K1, K2, K3. unfold kids. rewrite kidsOf_children, app_nil_r. reflexivity.
  - replace (pre ++ [cat] ++ kids ++ layout k' o) with ((pre ++ [cat] ++ kids) ++ layout k' o)
      by (rewrite <- !app_assoc; reflexivity).
    apply IH. apply Forall_app. split; [|apply Forall_app; split].
    + eapply Forall_impl; [exact Hpre|]. intros sh E j Hj. apply E. unfold k' in Hj. lia.
    + constructor; [intros j _; discriminate|constructor].
    + eapply Forall_impl; [apply childShapes_parent|].
      intros sh E j Hj. cbn beta in E. rewrite E. intros X. inversion X as [Y].
      apply toString_inj in Y. unfold k' in Hj. lia.
Qed.

Lemma filter_map_swap {A B} (h : A -> B) (f : B -> bool) (l : list A) :
  List.filter f (List.map h l) = List.map h (List.filter (fun x => f (h x)) l).
Proof.
  induction l as [|x l IH]; simpl; [reflexivity|].
  destruct (f (h x)); simpl; rewrite IH; reflexivity.
Qed.

Lemma Permutation_filter {A} (f : A -> bool) (l l' : list A) :
  Permutation l l' -> Permutation (List.filter f l) (List.filter f l').
Proof.
  induction 1 as [|x l l' P IH|x y l|l l' l'' P1 IH1 P2 IH2]; cbn [List.filter].
  - reflexivity.
  - destruct (f x); [apply perm_skip|]; exact IH.
  - destruct (f x), (f y); try reflexivity. apply perm_swap.
  - etransitivity; eassumption.
Qed.

Lemma Forall2_pointwise {A B} (R : B -> B -> Prop) (f g : A -> B) (l : list A) :
  (forall x, R (f x) (g x)) -> Forall2 R (List.map f l) (List.map g l).
Proof. intros E. induction l as [|x l IH]; cbn [List.map]; constructor; auto. Qed.

(** Channels whose shapes are the layout of an outline read as that
    outline, in creation order. *)
Lemma layout_reading (chans : list LiveChannel) k (o : Outline) :
  List.map shape chans = layout k o ->
  List.map (reading (List.filter hasParent chans)) (List.filter isCategory chans) =
  typedOutline o.
Proof.
  intros E.
  transitivity (typedOutline (outlineIn (List.map shape chans) (List.map shape chans))).
  - unfold outlineIn, typedOutline, reading, hasParent, isCategory, childOf.
    rewrite !filter_map_swap, !List.map_map.
    apply map_ext. intros cat. cbn [fst snd shape sh_name sh_id]. f_equal.
    rewrite ?filter_map_swap, !List.map_map.
    apply map_ext. intros ch. reflexivity.
  - rewrite E. change (layout k o) with ([] ++ layout k o) at 1.
    rewrite (outlineIn_layout o k []) by constructor. reflexivity.
Qed.

(** Extraction from channels whose shapes are the layout of an outline
    gives that outline, up to the order in which the positions put the
    categories and, in each category, its channels. *)
Lemma extracted_outline (g : LiveGuild) k (o : Outline) (cats : list CategorySpec) :
  List.map shape (lg_channels g) = layout k o ->
  categories (fromGuild g) = IsArray cats ->
  sameOutline (outlineOf cats) (typedOutline o).
Proof.
  intros E Ec.
  pose proof (layout_distinct _ _ _ E) as N.
  rewrite (fromGuild_distinct g N) in Ec. injection Ec as <-.
  rewrite <- (layout_reading _ _ _ E).
  set (kids := List.filter hasParent (lg_channels g)).
  set (sorted := sortBy lc_rawPosition kids).
  exists (List.map (reading sorted) (List.filter isCategory (lg_channels g))). split.
  - unfold outlineOf. rewrite List.map_map.
    etransitivity; [|apply Permutation.Permutation_map, sortBy_perm].
    apply Permutation_refl'. apply map_ext. intros cat.
    unfold reading. cbn [cat_name cat_channels default from_option fst snd]. unfold id.
    f_equal. rewrite List.map_map. apply map_ext. intros ch. reflexivity.
  - apply Forall2_pointwise. intros cat. split; [reflexivity|].
    unfold reading. cbn [snd].
    apply Permutation.Permutation_map, Permutation_filter, sortBy_perm.
Qed.

(** ** A run on the reference platform, wherever it places what it creates
       and whatever it refuses *)

Section Placed.
Variable place : N -> Z.
Variable reject : ChannelPayload -> option ApiError.

#[local] Hint Extern 0 (Platform Sim.State) =>
  exact (Sim.platformAt place reject) : typeclass_instances.

Section WithHost.
Context `{Host}.

Lemma canonical_normalize (v : PermValue) :
  canonical v = true ->
  exists n, v = PermString (toString n) /\ normalizePermValue v = Ok (Z.of_N n).
Proof.
  destruct v as [b|s|s| |x]; simpl; try discriminate.
  destruct (digits 10 s) as [n|] eqn:D; [|discriminate].
  intros E. apply jeqb_eq in E. subst s. exists n. split; [reflexivity|].
  rewrite BigInt_toString. simpl. unfold fromBigInt.
  replace (0 <=? Z.of_N n)%Z with true by (symmetry; apply Z.leb_le; lia).
  reflexivity.
Qed.

Lemma canonical_permBits (v : PermValue) :
  canonical v = true -> PermString (bigintToString (permBits v)) = v.
Proof.
  intros C. destruct (canonical_normalize v C) as [n [-> N]].
  unfold permBits. rewrite N, bigintToString_of_N. reflexivity.
Qed.

Lemma shape_setOverwrite channel role a d (ch : LiveChannel) :
  shape (Sim.setOverwrite channel role a d ch) = shape ch.
Proof. unfold Sim.setOverwrite. destruct (jeqb (lc_id ch) channel); reflexivity. Qed.

Lemma steady_refl s : steady s s.
Proof. unfold steady. auto. Qed.

Lemma steady_trans s1 s2 s3 : steady s1 s2 -> steady s2 s3 -> steady s1 s3.
Proof. unfold steady. intros [A [B C]] [D [E F]]. repeat split; congruence. Qed.

Lemma applyOverwrite_sim m channel ow (w w' : World Sim.State) :
  applyOverwrite m channel ow w = (w', Ok tt) -> steady (guild w) (guild w').
Proof.
  unfold applyOverwrite.
  destruct (m !! roleRefId ow) as [id|];
    [|intros E; inversion E; subst; apply steady_refl].
  destruct (negb (truthy id)); [intros E; inversion E; subst; apply steady_refl|].
  unfold bind, liftOutcome, call.
  destruct (normalizePermValue (allow ow)) as [a|e]; [|discriminate].
  destruct (normalizePermValue (deny ow)) as [d|e]; [|discriminate].
  cbn [overwritesCreate Sim.platformAt]. unfold Sim.createOverwrite.
  intros E. inversion E; subst. clear E.
  unfold steady. cbn [guild Sim.st_channels Sim.st_next Sim.st_roles].
  split; [|auto]. rewrite List.map_map. apply map_ext. intros ch. apply shape_setOverwrite.
Qed.

Lemma overwrites_sim m channel (ows : list ChannelOverwrite) :
  forall w w' : World Sim.State,
    forEach ows (applyOverwrite m channel) w = (w', Ok tt) ->
    steady (guild w) (guild w').
Proof.
  induction ows as [|ow ows IH]; intros w w' E.
  - inversion E; subst. apply steady_refl.
  - cbn [forEach] in E. unfold bind in E.
    destruct (applyOverwrite m channel ow w) as [w1 [[]|e]] eqn:E1; [|discriminate].
    eapply steady_trans; [apply (applyOverwrite_sim _ _ _ _ _ E1)|apply (IH _ _ E)].
Qed.

(** A creation that is accepted, at once or at the retry, adds one channel
    with the name, type and parent of the payload. *)
Lemma createChannelAt_sim (payload : ChannelPayload) (s s' : Sim.State) id :
  Sim.createChannelAt place reject payload s = (s', inr id) ->
  id = toString (Sim.st_next s) /\
  List.map shape (Sim.st_channels s') =
    List.map shape (Sim.st_channels s) ++
    [mkShape id (cp_name payload) (cp_type payload) (cp_parent payload)] /\
  Sim.st_next s' = Sim.st_next s + 1 /\
  Sim.st_roles s' = Sim.st_roles s.
Proof.
  unfold Sim.createChannelAt. destruct (reject payload); [discriminate|].
  intros E. inversion E; subst. cbn [Sim.st_channels Sim.st_next Sim.st_roles].
  rewrite List.map_app. auto.
Qed.

Lemma createChannelSafe_sim (payload : ChannelPayload) (w w' : World Sim.State) id :
  createChannelSafe payload w = (w', Ok id) ->
  id = toString (Sim.st_next (guild w)) /\
  List.map shape (Sim.st_channels (guild w')) =
    List.map shape (Sim.st_channels (guild w)) ++
    [mkShape id (cp_name payload) (cp_type payload) (cp_parent payload)] /\
  Sim.st_next (guild w') = Sim.st_next (guild w) + 1 /\
  Sim.st_roles (guild w') = Sim.st_roles (guild w).
Proof.
  unfold createChannelSafe, catch. unfold call at 1.
  cbn [channelsCreate Sim.platformAt].
  destruct (Sim.createChannelAt place reject payload (guild w)) as [s1 [e|id1]] eqn:E1.
  - assert (S1 : s1 = guild w).
    { unfold Sim.createChannelAt in E1. destruct (reject payload); inversion E1; reflexivity. }
    match goal with |- context [if ?c then _ else _] => destruct c end;
      [|discriminate].
    unfold call. cbn [guild log].
    set (clone := mkChannelPayload _ _ _ _ _ _).
    destruct (Sim.createChannelAt place reject clone s1) as [s2 [e2|id2]] eqn:E2;
      [discriminate|].
    intros E. inversion E; subst w' id2. cbn [guild].
    destruct (createChannelAt_sim clone s1 s2 id E2) as [Ei [Ec [En Er]]].
    rewrite S1 in *. auto.
  - intros E. inversion E; subst w' id1. cbn [guild].
    apply (createChannelAt_sim payload (guild w) s1 id E1).
Qed.

Lemma channelPayload_shape parent ch :
  cp_name (channelPayload parent ch) = fst (expectedChannel ch) /\
  cp_type (channelPayload parent ch) =
    (if snd (expectedChannel ch) then GuildVoice else GuildText) /\
  cp_parent (channelPayload parent ch) = Some parent.
Proof.
  unfold channelPayload, expectedChannel. cbn [fst snd].
  destruct (isVoiceType (ch_type ch)); auto.
Qed.

Lemma buildChannel_sim m n0 (o : Outline) name chs ch (w w' : World Sim.State) :
  List.map shape (Sim.st_channels (guild w)) = layout n0 (o ++ [(name, chs)]) ->
  Sim.st_next (guild w) = n0 + size (o ++ [(name, chs)]) ->
  buildChannel m (toString (n0 + size o)) ch w = (w', Ok tt) ->
  List.map shape (Sim.st_channels (guild w')) =
    layout n0 (o ++ [(name, chs ++ [expectedChannel ch])]) /\
  Sim.st_next (guild w') = n0 + size (o ++ [(name, chs ++ [expectedChannel ch])]) /\
  Sim.st_roles (guild w') = Sim.st_roles (guild w).
Proof.
  intros L Nx E. unfold buildChannel, bind in E.
  destruct (createChannelSafe (channelPayload (toString (n0 + size o)) ch) w)
    as [w1 [id|e]] eqn:E0; [|discriminate].
  destruct (createChannelSafe_sim _ _ _ _ E0) as [Ei [Ec [En R1]]].
  assert (L1 : List.map shape (Sim.st_channels (guild w1)) =
               layout n0 (o ++ [(name, chs ++ [expectedChannel ch])])).
  { rewrite Ec, L, Ei.
    destruct (channelPayload_shape (toString (n0 + size o)) ch) as [Hn [Ht Hp]].
    rewrite Hn, Ht, Hp, Nx.
    destruct (expectedChannel ch) as [cn voice]. cbn [fst snd].
    rewrite layout_new_channel. rewrite size_app. cbn [size].
    replace (n0 + (size o + (1 + N.of_nat (length chs) + 0)))
      with (n0 + size o + 1 + N.of_nat (length chs)) by lia.
    reflexivity. }
  assert (N1 : Sim.st_next (guild w1) = n0 + size (o ++ [(name, chs ++ [expectedChannel ch])])).
  { rewrite En, Nx, size_new_channel. lia. }
  destruct (ch_overwrites ch) as [ows|] eqn:Eo.
  - destruct (overwrites_sim m _ ows w1 w' E) as [S2 [S3 S4]].
    split; [congruence|]. split; congruence.
  - inversion E; subst. auto.
Qed.

Lemma channels_sim m n0 (o : Outline) name (chans : list ChannelSpec) :
  forall chs (w w' : World Sim.State),
    List.map shape (Sim.st_channels (guild w)) = layout n0 (o ++ [(name, chs)]) ->
    Sim.st_next (guild w) = n0 + size (o ++ [(name, chs)]) ->
    forEach chans (buildChannel m (toString (n0 + size o))) w = (w', Ok tt) ->
    List.map shape (Sim.st_channels (guild w')) =
      layout n0 (o ++ [(name, chs ++ List.map expectedChannel chans)]) /\
    Sim.st_next (guild w') =
      n0 + size (o ++ [(name, chs ++ List.map expectedChannel chans)]) /\
    Sim.st_roles (guild w') = Sim.st_roles (guild w).
Proof.
  induction chans as [|ch chans IH]; intros chs w w' L Nx E.
  - inversion E; subst. cbn [List.map]. rewrite app_nil_r. auto.
  - cbn [forEach] in E. unfold bind in E.
    destruct (buildChannel m (toString (n0 + size o)) ch w) as [w1 [[]|e]] eqn:E1;
      [|discriminate].
    destruct (buildChannel_sim m n0 o name chs ch w w1 L Nx E1) as [L1 [N1 R1]].
    destruct (IH (chs ++ [expectedChannel ch]) w1 w' L1 N1 E) as [L2 [N2 R2]].
    cbn [List.map].
    replace (chs ++ expectedChannel ch :: List.map expectedChannel chans)
      with ((chs ++ [expectedChannel ch]) ++ List.map expectedChannel chans)
      by (rewrite <- app_assoc; reflexivity).
    split; [exact L2|]. split; [exact N2|]. congruence.
Qed.

Lemma buildCategory_sim m n0 (o : Outline) (c : CategorySpec) (w w' : World Sim.State) :
  List.map shape (Sim.st_channels (guild w)) = layout n0 o ->
  Sim.st_next (guild w) = n0 + size o ->
  buildCategory m c w = (w', Ok tt) ->
  List.map shape (Sim.st_channels (guild w')) = layout n0 (o ++ [expectedCategory c]) /\
  Sim.st_next (guild w') = n0 + size (o ++ [expectedCategory c]) /\
  Sim.st_roles (guild w') = Sim.st_roles (guild w).
Proof.
  intros L Nx E. unfold buildCategory, bind in E. unfold call at 1 in E.
  cbn [channelsCreate Sim.platformAt] in E.
  destruct (Sim.createChannelAt place reject (categoryPayload c) (guild w))
    as [s1 [e|id]] eqn:E0; [discriminate|].
  destruct (createChannelAt_sim _ _ _ _ E0) as [Ei [Ec [En R1]]].
  set (w1 := mkWorld s1 (log w ++ [CreateChannel (categoryPayload c)])) in E.
  assert (L1 : List.map shape (Sim.st_channels (guild w1)) =
               layout n0 (o ++ [(fst (expectedCategory c), [])])).
  { unfold w1. cbn [guild]. rewrite Ec, L, layout_new_category, Ei, Nx. reflexivity. }
  assert (N1 : Sim.st_next (guild w1) = n0 + size (o ++ [(fst (expectedCategory c), [])])).
  { unfold w1. cbn [guild]. rewrite En, Nx, size_app. simpl. lia. }
  rewrite Ei, Nx in E.
  destruct (channels_sim m n0 o (fst (expectedCategory c)) (default [] (cat_channels c)) []
              w1 w' L1 N1 E) as [L2 [N2 R2]].
  cbn [app] in L2, N2.
  replace (expectedCategory c)
    with (fst (expectedCategory c), List.map expectedChannel (default [] (cat_channels c)))
    by reflexivity.
  split; [exact L2|]. split; [exact N2|]. rewrite R2. exact R1.
Qed.

Lemma categories_sim m n0 (cs : list CategorySpec) :
  forall (o : Outline) (w w' : World Sim.State),
    List.map shape (Sim.st_channels (guild w)) = layout n0 o ->
    Sim.st_next (guild w) = n0 + size o ->
    forEach cs (buildCategory m) w = (w', Ok tt) ->
    List.map shape (Sim.st_channels (guild w')) =
      layout n0 (o ++ List.map expectedCategory cs) /\
    Sim.st_roles (guild w') = Sim.st_roles (guild w).
Proof.
  induction cs as [|c cs IH]; intros o w w' L Nx E.
  - inversion E; subst. cbn [List.map]. rewrite app_nil_r. auto.
  - cbn [forEach] in E. unfold bind in E.
    destruct (buildCategory m c w) as [w1 [[]|e]] eqn:E1; [|discriminate].
    destruct (buildCategory_sim m n0 o c w w1 L Nx E1) as [L1 [N1 R1]].
    destruct (IH (o ++ [expectedCategory c]) w1 w' L1 N1 E) as [L2 R2].
    cbn [List.map].
    replace (o ++ expectedCategory c :: List.map expectedCategory cs)
      with ((o ++ [expectedCategory c]) ++ List.map expectedCategory cs)
      by (rewrite <- app_assoc; reflexivity).
    split; [exact L2|]. congruence.
Qed.

(** ** The role phase on the reference platform *)

Lemma roles_sim (rs : list RoleSpec) :
  forall m (w w' : World Sim.State) m',
    ensureRolesFrom m rs w = (w', Ok m') ->
    List.map liveEntry (Sim.st_roles (guild w')) =
      List.map liveEntry (Sim.st_roles (guild w)) ++
      List.map sentEntry (List.filter created rs) /\
    Sim.st_channels (guild w') = Sim.st_channels (guild w) /\
    Sim.st_next (guild w') =
      Sim.st_next (guild w) + N.of_nat (length (List.filter created rs)).
Proof.
  induction rs as [|r rs IH]; intros m w w' m' E.
  - inversion E; subst. cbn [List.filter List.map length].
    rewrite app_nil_r, N.add_0_r. auto.
  - assert (Cr : created r = negb (@mapsToBase _ (Sim.platformAt place reject) r))
      by reflexivity.
    cbn [List.filter]. rewrite Cr. destruct (mapsToBase r) eqn:B; cbn [negb].
    + rewrite (EngineFacts.ensureRolesFrom_base m r rs w B) in E. apply (IH _ _ _ _ E).
    + destruct (normalizePermValue (permissions r)) as [p|e] eqn:Np.
      * rewrite (EngineFacts.ensureRolesFrom_created m r rs w p
                   (fst (Sim.createRoleAt place (rolePayload r p) (guild w)))
                   (toString (Sim.st_next (guild w))) B Np eq_refl) in E.
        destruct (IH _ _ _ _ E) as [A [C D]].
        cbn [guild fst Sim.createRoleAt Sim.st_roles Sim.st_channels Sim.st_next] in A, C, D.
        rewrite A, C, D. cbn [List.map length].
        rewrite List.map_app, <- app_assoc. cbn [List.map app].
        split; [|split; [reflexivity|lia]].
        f_equal. f_equal. unfold liveEntry, sentEntry, permBits.
        cbn [lr_name lr_color lr_permissions rolePayload rp_name rp_color rp_permissions].
        rewrite Np. reflexivity.
      * rewrite (EngineFacts.ensureRolesFrom_invalid m r rs w e B Np) in E. discriminate.
Qed.

Lemma rolesCanonical_filter f rs : rolesCanonical rs = true -> rolesCanonical (List.filter f rs) = true.
Proof.
  unfold rolesCanonical. rewrite !forallb_forall. intros C r Hr.
  apply filter_In in Hr as [Hr _]. apply C, Hr.
Qed.

Lemma sentEntry_canonical (rs : list RoleSpec) :
  rolesCanonical rs = true -> List.map sentEntry rs = rolesOf rs.
Proof.
  induction rs as [|r rs IH]; intros C; [reflexivity|].
  cbn [rolesCanonical forallb] in C. apply andb_true_iff in C as [C1 C2].
  cbn [List.map rolesOf]. f_equal; [|apply IH, C2].
  unfold sentEntry. rewrite (canonical_permBits _ C1). reflexivity.
Qed.

(** ** Names and types that provisioning keeps as they are *)

Lemma cleanName_kept name fallback :
  cleanName name = true -> sanitizeName (orElse name fallback) = name.
Proof.
  unfold cleanName, orElse. intros C. apply andb_true_iff in C as [T E].
  rewrite T. apply jeqb_eq, E.
Qed.

Lemma cleanType_kept t :
  cleanType t = true ->
  TypeString (if isVoiceType t then lit "voice" else lit "text") = t.
Proof.
  destruct t as [n|s]; simpl; [discriminate|].
  intros C. apply orb_true_iff in C as [E|E]; apply jeqb_eq in E; subst s; reflexivity.
Qed.

Lemma clean_outline (cs : list CategorySpec) :
  forallb cleanCategory cs = true ->
  typedOutline (List.map expectedCategory cs) = outlineOf cs.
Proof.
  induction cs as [|c cs IH]; intros C; [reflexivity|].
  cbn [forallb] in C. apply andb_true_iff in C as [C1 C2].
  cbn [List.map typedOutline outlineOf]. f_equal; [|apply IH, C2].
  unfold cleanCategory in C1. apply andb_true_iff in C1 as [Cn Cc].
  unfold expectedCategory. cbn [fst snd]. rewrite (cleanName_kept _ _ Cn). f_equal.
  induction (default [] (cat_channels c)) as [|ch chs IHc]; [reflexivity|].
  cbn [forallb] in Cc. apply andb_true_iff in Cc as [Ch Cr].
  cbn [List.map]. f_equal; [|apply IHc, Cr].
  unfold cleanChannel in Ch. apply andb_true_iff in Ch as [Hn Ht].
  unfold expectedChannel. cbn [fst snd].
  rewrite (cleanName_kept _ _ Hn), (cleanType_kept _ Ht). reflexivity.
Qed.

(** What a run that ends without error leaves in the empty target, and
    what the extractor reads there. *)
Lemma run_extracted (t : Template) (w' : World Sim.State) :
  buildServerFromTemplate t (mkWorld Sim.emptyTarget []) = (w', Ok tt) ->
  exists rs' cs',
    roles (fromGuild (Sim.fetch (guild w'))) = IsArray rs' /\
    categories (fromGuild (Sim.fetch (guild w'))) = IsArray cs' /\
    Permutation (rolesOf rs')
      ((lit "@everyone", 0, PermString (lit "0"))
       :: List.map sentEntry (List.filter created (default [] (arrayOr (roles t))))) /\
    sameOutline (outlineOf cs')
      (typedOutline (List.map expectedCategory (default [] (arrayOr (categories t))))).
Proof.
  intros E. unfold buildServerFromTemplate, bind in E.
  set (rs := default [] (arrayOr (roles t))).
  assert (Er : exists w1 m,
             ensureRoles rs (mkWorld Sim.emptyTarget []) = (w1, Ok m) /\
             match categories t with
             | IsArray l => forEach l (buildCategory m) w1
             | _ => throw TypeError w1
             end = (w', Ok tt)).
  { unfold rs. destruct (roles t) as [| |l]; cbn [arrayOr default from_option]; unfold id.
    - destruct (ensureRoles [] (mkWorld Sim.emptyTarget [])) as [w1 [m|e]] eqn:E1;
        [|discriminate]. exists w1, m. split; [reflexivity|].
      destruct (categories t); exact E.
    - discriminate.
    - destruct (ensureRoles l (mkWorld Sim.emptyTarget [])) as [w1 [m|e]] eqn:E1;
        [|discriminate]. exists w1, m. split; [reflexivity|].
      destruct (categories t); exact E. }
  destruct Er as [w1 [m [E1 E2]]]. clear E.
  destruct (categories t) as [| |cs] eqn:Ec; try discriminate.
  cbn [arrayOr default from_option]. unfold id.
  destruct (roles_sim rs _ _ _ _ E1) as [R1 [C1 N1]].
  cbn [guild Sim.emptyTarget Sim.st_roles Sim.st_channels Sim.st_next] in R1, C1, N1.
  destruct (categories_sim m (Sim.st_next (guild w1)) cs [] w1 w') as [L2 R2];
    [rewrite C1; reflexivity | cbn [size]; lia | exact E2 |].
  cbn [app] in L2.
  eexists. eexists. split; [reflexivity|]. split; [unfold fromGuild; reflexivity|].
  split.
  - cbn [Sim.fetch lg_roles lg_everyone].
    assert (Ro : forall l, rolesOf (List.map (roleTemplate Sim.everyone) l) =
                           List.map liveEntry l).
    { intros l. unfold rolesOf. rewrite List.map_map. reflexivity. }
    rewrite Ro.
    etransitivity; [apply Permutation.Permutation_map, sortBy_perm|].
    rewrite R2, R1. reflexivity.
  - apply (extracted_outline (Sim.fetch (guild w')) (Sim.st_next (guild w1))).
    + exact L2.
    + reflexivity.
Qed.

End WithHost.
End Placed.

End RoundTrip.

(* ===================================================================== *)
(** * Part XX: the two permission normalizers                             *)
(* ===================================================================== *)

Module NormalizerFacts.
Import JS Model Live ServerBuilder Index Statements Behaviour.

Lemma minus_digits_trim (n : N) : trim (45 :: toString n) = 45 :: toString n.
Proof.
  pose proof (NumberFacts.unitsOfUint_digits (N.to_uint n)) as D. fold (toString n) in D.
  pose proof (NumberFacts.toString_nonempty n) as NE.
  unfold trim, trimEnd.
  rewrite NumberFacts.trimStart_head by reflexivity.
  cbn [rev].
  assert (Dr : Forall (fun c => isDigit c = true) (rev (toString n)))
    by (apply Forall_rev; exact D).
  destruct (rev (toString n)) as [|c r] eqn:E.
  - exfalso. apply NE. rewrite <- (rev_involutive (toString n)), E. reflexivity.
  - inversion Dr as [|? ? Dc Dr']; subst. cbn [app].
    rewrite NumberFacts.trimStart_head by (apply NumberFacts.digit_not_white, Dc).
    change (c :: r ++ [45]) with ((c :: r) ++ [45]).
    rewrite <- E, rev_app_distr, rev_involutive. reflexivity.
Qed.

(** [BigInt] reads back the decimal text of a BigInt of either sign. *)
Lemma BigInt_bigintToString (z : Z) : BigInt (bigintToString z) = Some z.
Proof.
  destruct z as [|p|p].
  - reflexivity.
  - change (bigintToString (Z.pos p)) with (toString (N.pos p)).
    rewrite NumberFacts.BigInt_toString. reflexivity.
  - change (bigintToString (Z.neg p)) with (45 :: toString (N.pos p)).
    unfold BigInt. rewrite minus_digits_trim.
    change (45 =? 43) with false. change (45 =? 45) with true. cbn iota.
    rewrite NumberFacts.digits_toString. reflexivity.
Qed.

Section WithHost.
Context `{Host}.

Lemma normalize_decimal (z : Z) :
  (0 <= z)%Z -> normalizePermValue (PermString (bigintToString z)) = Ok z.
Proof.
  intros P. cbn [normalizePermValue]. rewrite BigInt_bigintToString.
  cbn [mbind option_bind]. unfold fromBigInt.
  replace (0 <=? z)%Z with true by (symmetry; apply Z.leb_le; exact P).
  reflexivity.
Qed.

Lemma normalizers_same (v : PermValue) :
  v <> PermNumber NumNaN ->
  Handlers.normalizePermissionsInput v = normalizePermValue v.
Proof.
  intros N. destruct v as [bits|bitfield|s| |[|z|]]; try reflexivity.
  - destruct s as [|c s]; reflexivity.
  - congruence.
  - cbn [Handlers.normalizePermissionsInput normalizePermValue].
    destruct (Z.eqb_spec z 0) as [->|]; reflexivity.
Qed.

(** X1.  What the extractor writes for the permissions of a role and for
    the [allow] and [deny] of an overwrite (the decimal text of the live
    bit set) is read back by [normalizePermValue] as the same bit set. *)
Theorem extracted_permissions_read_back (everyone : jsstring) (r : LiveRole)
    (ow : LiveOverwrite) :
  (0 <= lr_permissions r)%Z -> (0 <= lo_allow ow)%Z -> (0 <= lo_deny ow)%Z ->
  normalizePermValue (permissions (roleTemplate everyone r)) = Ok (lr_permissions r) /\
  normalizePermValue (allow (overwriteTemplate ow)) = Ok (lo_allow ow) /\
  normalizePermValue (deny (overwriteTemplate ow)) = Ok (lo_deny ow).
Proof.
  intros Pr Pa Pd. cbn [roleTemplate overwriteTemplate permissions allow deny].
  rewrite !normalize_decimal by assumption. auto.
Qed.

(** X2.  [normalizePermissionsInput] of index.js and [normalizePermValue]
    of serverBuilder.js give the same result on every permission value
    (a [PermissionsBitField], an object with a [bitfield], a string, a
    number, an absent value) except the number NaN: the early return of
    the former for a falsy input is what the latter computes for an absent
    value, for the empty text and for the number zero, but on NaN the
    former returns the empty bit set and the latter raises a RangeError. *)
Theorem normalizers_agree (v : PermValue) :
  (v <> PermNumber NumNaN ->
   Handlers.normalizePermissionsInput v = normalizePermValue v) /\
  Handlers.normalizePermissionsInput (PermNumber NumNaN) = Ok 0%Z /\
  normalizePermValue (PermNumber NumNaN) = Throw (RangeError (PermNumber NumNaN)) /\
  normalizePermValue (PermString []) = Ok 0%Z /\
  normalizePermValue (PermNumber (NumInteger 0)) = Ok 0%Z.
Proof. split; [apply normalizers_same|repeat split]. Qed.

End WithHost.

Lemma normalizers_agree_witness :
  Handlers.normalizePermissionsInput (H := Examples.asciiHost) (PermNumber (NumInteger 8)) =
  normalizePermValue (H := Examples.asciiHost) (PermNumber (NumInteger 8)).
Proof.
  apply (proj1 (normalizers_agree (H := Examples.asciiHost) (PermNumber (NumInteger 8)))).
  discriminate.
Defined.

Lemma extracted_permissions_read_back_witness :
  normalizePermValue (H := Examples.asciiHost)
    (permissions (roleTemplate (lit "1") (mkLiveRole (lit "7") (lit "Mod") 255 true false 8 2)))
  = Ok 8%Z.
Proof.
  apply (extracted_permissions_read_back (H := Examples.asciiHost) (lit "1")
           (mkLiveRole (lit "7") (lit "Mod") 255 true false 8 2)
           (mkLiveOverwrite (lit "1") 0 1024 0)); simpl; lia.
Defined.

End NormalizerFacts.

(* ===================================================================== *)
(** * Part XXI: what a run sends and what it raises                       *)
(* ===================================================================== *)

Module RunFacts.
Import JS Unicode Model Live ServerBuilder Index Statements Behaviour.

Section WithHost.
Context `{Host}.

Section WithPlatform.
Context {G : Type} `{Platform G}.

(** ** Errors of the monad *)

Lemma raises_ret {A} Q (a : A) : raises Q (ret a : M G A).
Proof. intros w w' e E. discriminate. Qed.

Lemma raises_throw {A} (Q : exn -> Prop) e : Q e -> raises Q (@throw G A e).
Proof. intros Qe w w' e' E. unfold throw in E. congruence. Qed.

Lemma raises_lift {A} (Q : exn -> Prop) (o : outcome A) :
  (forall e, o = Throw e -> Q e) -> raises Q (liftOutcome o : M G A).
Proof. intros Ho w w' e E. unfold liftOutcome in E. apply Ho. congruence. Qed.

Lemma raises_call {A} (Q : exn -> Prop) c (op : G -> G * (ApiError + A)) :
  (forall a, Q (Rejected a)) -> raises Q (call c op).
Proof.
  intros HQ w w' e. unfold call.
  destruct (op (guild w)) as [g' [a|x]]; intros E; [|discriminate].
  assert (E' : e = Rejected a) by congruence. rewrite E'. apply HQ.
Qed.

Lemma raises_call_lenient {A} (Q : exn -> Prop) c (op : G -> G * (ApiError + A)) :
  neverRejects op -> raises Q (call c op).
Proof.
  intros N w w' e. unfold call. destruct (N (guild w)) as [g' [a E]]. rewrite E.
  discriminate.
Qed.

Lemma raises_bind {A B} Q (m : M G A) (f : A -> M G B) :
  raises Q m -> (forall a, raises Q (f a)) -> raises Q (bind m f).
Proof.
  intros Hm Hf w w' e. unfold bind. destruct (m w) as [w1 [a|x]] eqn:E.
  - apply Hf.
  - intros E'. apply (Hm w w1). rewrite E. congruence.
Qed.

Lemma raises_catch {A} Q (m : M G A) (h : exn -> M G A) :
  raises Q m -> (forall e, Q e -> raises Q (h e)) -> raises Q (catch m h).
Proof.
  intros Hm Hh w w' e. unfold catch. destruct (m w) as [w1 [a|x]] eqn:E.
  - discriminate.
  - apply Hh. apply (Hm w w1). exact E.
Qed.

Lemma raises_forEach_in {A} Q (l : list A) (body : A -> M G unit) :
  (forall x, In x l -> raises Q (body x)) -> raises Q (forEach l body).
Proof.
  induction l as [|x l IH]; intros Hb; simpl.
  - apply raises_ret.
  - apply raises_bind; [apply Hb; left; reflexivity|].
    intros _. apply IH. intros y Hy. apply Hb. right. exact Hy.
Qed.

Lemma raises_weaken {A} (Q Q' : exn -> Prop) (m : M G A) :
  (forall e, Q e -> Q' e) -> raises Q m -> raises Q' m.
Proof. intros I Hm w w' e E. apply I, (Hm w w' e E). Qed.

(** ** Errors of the engine *)

Section Errors.
Variable Q : exn -> Prop.
Variable S : PermValue -> Prop.
Variable Sent : ChannelPayload -> Prop.
Hypothesis sentCategory : forall c, Sent (categoryPayload c).
Hypothesis sentChannel : forall parent ch, Sent (channelPayload parent ch).
Hypothesis sentRetry : forall p, Sent p -> Sent (withoutTopic p).
Hypothesis roleCalls : forall p, raises Q (call (CreateRole p) (rolesCreate p)).
Hypothesis channelCallsQ :
  forall p, Sent p -> raises Q (call (CreateChannel p) (channelsCreate p)).
Hypothesis overwriteCalls :
  forall c r a d, raises Q (call (CreateOverwrite c r a d) (overwritesCreate c r a d)).
Hypothesis normalized : forall v e, S v -> normalizePermValue v = Throw e -> Q e.

Lemma ensureRolesFrom_raises (rs : list RoleSpec) :
  Forall (fun r => S (permissions r)) rs ->
  forall m, raises Q (ensureRolesFrom m rs).
Proof.
  induction 1 as [|r rs Hr Hrs IH]; intros m; simpl.
  - apply raises_ret.
  - apply raises_bind; [|intros m'; apply IH].
    unfold ensureRole. destruct (isEveryone r || jeqb (refId r) everyoneId).
    + apply raises_ret.
    + apply raises_bind; [apply raises_lift; intros e; apply normalized, Hr|].
      intros perms. apply raises_bind; [apply roleCalls|]. intros id. apply raises_ret.
Qed.

Lemma createChannelSafe_raises (payload : ChannelPayload) :
  Sent payload -> raises Q (createChannelSafe payload).
Proof.
  intros Sp. unfold createChannelSafe. apply raises_catch; [apply channelCallsQ, Sp|].
  intros e Qe.
  match goal with |- raises _ (if ?c then _ else _) => destruct c end.
  - apply channelCallsQ, (sentRetry payload Sp).
  - apply raises_throw, Qe.
Qed.

Lemma applyOverwrite_raises m channel (ow : ChannelOverwrite) :
  S (allow ow) -> S (deny ow) -> raises Q (applyOverwrite m channel ow).
Proof.
  intros Sa Sd. unfold applyOverwrite.
  destruct (m !! roleRefId ow) as [id|]; [|apply raises_ret].
  destruct (negb (truthy id)); [apply raises_ret|].
  apply raises_bind; [apply raises_lift; intros e; apply normalized, Sa|]. intros a.
  apply raises_bind; [apply raises_lift; intros e; apply normalized, Sd|]. intros d.
  apply overwriteCalls.
Qed.

Lemma buildCategory_raises m (c : CategorySpec) :
  Forall
    (fun ch => Forall (fun ow => S (allow ow) /\ S (deny ow)) (default [] (ch_overwrites ch)))
    (default [] (cat_channels c)) ->
  raises Q (buildCategory m c).
Proof.
  intros Hc. unfold buildCategory.
  apply raises_bind; [apply channelCallsQ, sentCategory|]. intros parent.
  apply raises_forEach_in. intros ch Hch.
  rewrite List.Forall_forall in Hc. specialize (Hc ch Hch).
  unfold buildChannel.
  apply raises_bind; [apply createChannelSafe_raises, sentChannel|].
  intros channel. destruct (ch_overwrites ch) as [ows|]; [|apply raises_ret].
  cbn [default from_option] in Hc. unfold id in Hc.
  apply raises_forEach_in. intros ow How.
  rewrite List.Forall_forall in Hc. destruct (Hc ow How) as [Sa Sd].
  apply applyOverwrite_raises; assumption.
Qed.

End Errors.

Lemma normalize_throws (v : PermValue) (e : exn) :
  normalizePermValue v = Throw e ->
  (exists x, e = RangeError x) \/ (exists s, e = SyntaxError s).
Proof.
  destruct v as [bits|bitfield|s| |[|z|]]; cbn [normalizePermValue]; try discriminate.
  - destruct (BigInt bitfield ≫= fromBigInt); discriminate.
  - destruct (BigInt s ≫= fromBigInt); [discriminate|]. unfold resolveText.
    destruct (isNumericText s).
    + destruct (BigInt s); [discriminate|]. intros E. injection E as <-. eauto.
    + destruct (flagNamed s); [discriminate|]. intros E. injection E as <-. eauto.
  - intros E. injection E as <-. eauto.
  - destruct (fromBigInt z); [discriminate|]. intros E. injection E as <-. eauto.
  - intros E. injection E as <-. eauto.
Qed.

(** A numeric text that is no integer literal raises the SyntaxError of
    [BigInt], on every host. *)
Lemma normalize_fraction :
  normalizePermValue (PermString (lit "1.5")) = Throw (SyntaxError (lit "1.5")).
Proof. reflexivity. Qed.

Lemma canonical_normalized (v : PermValue) (e : exn) :
  canonical v = true -> normalizePermValue v = Throw e -> False.
Proof.
  intros C E. destruct (RoundTrip.canonical_normalize v C) as [b [_ Eb]]. congruence.
Qed.

Lemma rolesCanonical_Forall (rs : list RoleSpec) :
  rolesCanonical rs = true -> Forall (fun r => canonical (permissions r) = true) rs.
Proof.
  unfold rolesCanonical. rewrite List.forallb_forall, List.Forall_forall. auto.
Qed.

Lemma canonicalCategory_Forall (c : CategorySpec) :
  canonicalCategory c = true ->
  Forall
    (fun ch =>
       Forall (fun ow => canonical (allow ow) = true /\ canonical (deny ow) = true)
         (default [] (ch_overwrites ch)))
    (default [] (cat_channels c)).
Proof.
  unfold canonicalCategory, canonicalChannel, canonicalOverwrite.
  rewrite List.forallb_forall, List.Forall_forall. intros Hc ch Hch.
  specialize (Hc ch Hch). rewrite List.forallb_forall in Hc.
  apply List.Forall_forall. intros ow How. apply andb_true_iff, Hc, How.
Qed.

(** The errors of a run, from those of its calls and of the normalizer. *)
Lemma build_raises (Q : exn -> Prop) (S : PermValue -> Prop) (Sent : ChannelPayload -> Prop)
    (t : Template) :
  (forall c, Sent (categoryPayload c)) ->
  (forall parent ch, Sent (channelPayload parent ch)) ->
  (forall p, Sent p -> Sent (withoutTopic p)) ->
  (forall p, raises Q (call (CreateRole p) (rolesCreate p))) ->
  (forall p, Sent p -> raises Q (call (CreateChannel p) (channelsCreate p))) ->
  (forall c r a d, raises Q (call (CreateOverwrite c r a d) (overwritesCreate c r a d))) ->
  (forall v e, S v -> normalizePermValue v = Throw e -> Q e) ->
  (roles t = NotArray -> Q TypeError) ->
  (arrayOr (categories t) = None -> Q TypeError) ->
  Forall (fun r => S (permissions r)) (default [] (arrayOr (roles t))) ->
  Forall
    (fun c =>
       Forall
         (fun ch =>
            Forall (fun ow => S (allow ow) /\ S (deny ow)) (default [] (ch_overwrites ch)))
         (default [] (cat_channels c)))
    (default [] (arrayOr (categories t))) ->
  raises Q (buildServerFromTemplate t).
Proof.
  intros S1 S2 S3 HR HC HO HN TR TC SR SC. unfold buildServerFromTemplate.
  apply raises_bind.
  - destruct (roles t) as [| |rs]; cbn [arrayOr default from_option] in SR.
    + apply raises_ret.
    + apply raises_throw, TR. reflexivity.
    + unfold ensureRoles. apply (ensureRolesFrom_raises Q S); assumption.
  - intros m. destruct (categories t) as [| |cs]; cbn [arrayOr default from_option] in SC.
    + apply raises_throw, TC. reflexivity.
    + apply raises_throw, TC. reflexivity.
    + apply raises_forEach_in. intros c Hc. unfold id in SC.
      rewrite List.Forall_forall in SC.
      apply (buildCategory_raises Q S Sent); try assumption. apply SC, Hc.
Qed.

Lemma sized_build_raises (Q : exn -> Prop) (Sent : ChannelPayload -> Prop) (t : Template) :
  (forall c, Sent (categoryPayload c)) ->
  (forall parent ch, Sent (channelPayload parent ch)) ->
  (forall p, Sent p -> Sent (withoutTopic p)) ->
  (forall p, raises Q (call (CreateRole p) (rolesCreate p))) ->
  (forall p, Sent p -> raises Q (call (CreateChannel p) (channelsCreate p))) ->
  (forall c r a d, raises Q (call (CreateOverwrite c r a d) (overwritesCreate c r a d))) ->
  canonicalTemplate t = true ->
  raises Q (buildServerFromTemplate t).
Proof.
  intros S1 S2 S3 HR HC HO Ct.
  apply (build_raises Q (fun v => canonical v = true) Sent); try assumption.
  - intros v e C E. destruct (canonical_normalized v e C E).
  - intros E. unfold canonicalTemplate in Ct. rewrite E in Ct. discriminate.
  - intros E. unfold canonicalTemplate in Ct.
    destruct (roles t), (categories t); try discriminate.
  - unfold canonicalTemplate in Ct.
    destruct (roles t) as [| |rs]; cbn [arrayOr default from_option]; unfold id;
      [constructor|constructor|].
    destruct (categories t); try discriminate.
    apply andb_true_iff in Ct as [Cr _]. apply rolesCanonical_Forall, Cr.
  - unfold canonicalTemplate in Ct.
    destruct (categories t) as [| |cs]; cbn [arrayOr default from_option]; unfold id;
      [constructor|constructor|].
    assert (Cc : forallb canonicalCategory cs = true).
    { destruct (roles t); try discriminate; apply andb_true_iff in Ct as [_ Cc]; exact Cc. }
    rewrite List.forallb_forall in Cc. apply List.Forall_forall. intros c Hc.
    apply canonicalCategory_Forall, Cc, Hc.
Qed.

Lemma canonical_build_raises (Q : exn -> Prop) (t : Template) :
  (forall p, raises Q (call (CreateRole p) (rolesCreate p))) ->
  (forall p, raises Q (call (CreateChannel p) (channelsCreate p))) ->
  (forall c r a d, raises Q (call (CreateOverwrite c r a d) (overwritesCreate c r a d))) ->
  canonicalTemplate t = true ->
  raises Q (buildServerFromTemplate t).
Proof.
  intros HR HC HO Ct. apply (sized_build_raises Q (fun _ => True)); auto.
Qed.

Lemma platform_build_raises (t : Template) :
  canonicalTemplate t = true -> raises platformError (buildServerFromTemplate t).
Proof.
  intros Ct. apply canonical_build_raises; try exact Ct; intros; apply raises_call;
    intros z; exists z; reflexivity.
Qed.

Lemma lenient_build_succeeds (t : Template) (w : World G) :
  lenient -> canonicalTemplate t = true -> snd (buildServerFromTemplate t w) = Ok tt.
Proof.
  intros [LR [LC LO]] Ct.
  assert (R : raises (fun _ => False) (buildServerFromTemplate t)).
  { apply canonical_build_raises; try exact Ct; intros; apply raises_call_lenient; auto. }
  destruct (buildServerFromTemplate t w) as [w' [[]|e]] eqn:E; [reflexivity|].
  destruct (R w w' e E).
Qed.

(** X3.  A template that passes [ensureTemplateSafe] and whose [roles] are
    an array or absent never makes the engine raise the TypeError of
    iterating something that is no array: a run can only end with a
    rejection of the platform or with the error of a permission value that
    is no bit set, which is a RangeError or, for a numeric text that is no
    integer such as [1.5], the SyntaxError of [BigInt]. *)
Theorem validated_run_errors (t : Template) :
  ensureTemplateSafe (Some t) = None ->
  roles t <> NotArray ->
  raises (fun e => platformError e \/ (exists v, e = RangeError v) \/
                   (exists s, e = SyntaxError s))
    (buildServerFromTemplate t).
Proof.
  intros V NR.
  assert (A : exists cs, categories t = IsArray cs).
  { unfold ensureTemplateSafe in V. destruct (categories t) as [| |cs]; try discriminate.
    exists cs. reflexivity. }
  destruct A as [cs Ec].
  apply (build_raises _ (fun _ => True) (fun _ => True)); auto.
  - intros p. apply raises_call. intros a. left. exists a. reflexivity.
  - intros p _. apply raises_call. intros a. left. exists a. reflexivity.
  - intros c r a d. apply raises_call. intros x. left. exists x. reflexivity.
  - intros v e _ E. right. apply (normalize_throws v e E).
  - intros E. contradiction.
  - rewrite Ec. discriminate.
  - apply List.Forall_forall. auto.
  - apply List.Forall_forall. intros c _. apply List.Forall_forall. intros ch _.
    apply List.Forall_forall. auto.
Qed.

(** X4.  [ensureTemplateSafe] checks that [categories] is an array but not
    that [roles] is one.  A template whose [roles] is a value that is
    neither an array nor iterable nor falsy (a plain object, a non-zero
    number) passes it exactly when its channels are within the ceiling: its
    roles count as none.  The engine, from every state of the target, then
    raises a TypeError before any call and leaves the target as it was. *)
Theorem roles_shape_unchecked (cs : list CategorySpec) (sm : jsstring) (w : World G) :
  (ensureTemplateSafe (Some (mkTemplate NotArray (IsArray cs) sm)) = None <->
   (channelCount cs <= MAX_CHANNELS)%nat) /\
  buildServerFromTemplate (mkTemplate NotArray (IsArray cs) sm) w = (w, Throw TypeError).
Proof.
  split; [|reflexivity].
  unfold ensureTemplateSafe. cbn [categories roles].
  destruct (Nat.ltb_spec MAX_CHANNELS (channelCount cs)) as [L|L].
  - split; [discriminate|]. intros L'. exfalso. apply (Nat.lt_irrefl MAX_CHANNELS).
    eapply Nat.lt_le_trans; eassumption.
  - split; [intros _; exact L|reflexivity].
Qed.

(** X5.  When every permission value of a template is the decimal text of
    a number (as the text parser and the extractor write them), its
    [categories] are an array and its [roles] an array or absent, a run can
    only fail by a rejection of the platform: it raises neither a
    RangeError nor a TypeError. *)
Theorem canonical_run_errors (t : Template) :
  canonicalTemplate t = true -> raises platformError (buildServerFromTemplate t).
Proof.
  intros Ct. apply canonical_build_raises; [| | |exact Ct].
  - intros p. apply raises_call. intros z. exists z. reflexivity.
  - intros p. apply raises_call. intros z. exists z. reflexivity.
  - intros c r a d. apply raises_call. intros z. exists z. reflexivity.
Qed.

(** X6.  On a platform that rejects no call, the run of such a template
    ends without error from every state. *)
Theorem lenient_run_succeeds (t : Template) (w : World G) :
  lenient -> canonicalTemplate t = true -> snd (buildServerFromTemplate t w) = Ok tt.
Proof.
  intros [LR [LC LO]] Ct.
  assert (R : raises (fun _ => False) (buildServerFromTemplate t)).
  { apply canonical_build_raises; [| | |exact Ct].
    - intros p. apply raises_call_lenient, LR.
    - intros p. apply raises_call_lenient, LC.
    - intros c r a d. apply raises_call_lenient, LO. }
  destruct (buildServerFromTemplate t w) as [w' [[]|e]] eqn:E; [reflexivity|].
  destruct (R w w' e E).
Qed.

End WithPlatform.
End WithHost.

Lemma accepting_lenient : @lenient Sim.State Sim.accepting.
Proof.
  split; [|split].
  - intros p g. eexists. eexists. reflexivity.
  - intros p g. eexists. eexists. reflexivity.
  - intros c r a d g. eexists. eexists. reflexivity.
Qed.

Lemma validated_run_errors_witness :
  @raises Sim.State _ (fun e => platformError e \/ (exists v, e = RangeError v) \/
                                (exists s, e = SyntaxError s))
    (buildServerFromTemplate (H := Examples.asciiHost) (H0 := Sim.accepting)
       (mkTemplate (IsArray Examples.smallRoles) (IsArray Examples.smallCategories) [])).
Proof.
  apply (validated_run_errors (H := Examples.asciiHost) (H0 := Sim.accepting)).
  - vm_compute. reflexivity.
  - simpl. discriminate.
Defined.

Lemma roles_shape_unchecked_witness :
  ensureTemplateSafe (Some (mkTemplate NotArray (IsArray Examples.smallCategories) [])) = None.
Proof.
  apply (proj1 (roles_shape_unchecked (H := Examples.asciiHost) (H0 := Sim.accepting)
                  Examples.smallCategories [] Examples.freshWorld)).
  vm_compute. lia.
Defined.

Lemma canonical_run_errors_witness :
  @raises Sim.State _ platformError
    (buildServerFromTemplate (H := Examples.asciiHost) (H0 := Sim.platform Examples.rejectTopic)
       (mkTemplate (IsArray Examples.smallRoles) (IsArray Examples.smallCategories) [])).
Proof.
  apply (canonical_run_errors (H := Examples.asciiHost)
           (H0 := Sim.platform Examples.rejectTopic)).
  vm_compute. reflexivity.
Defined.

Lemma lenient_run_succeeds_witness :
  snd (buildServerFromTemplate (H := Examples.asciiHost) (H0 := Sim.accepting)
         (mkTemplate (IsArray Examples.smallRoles) (IsArray Examples.smallCategories) [])
         Examples.freshWorld) = Ok tt.
Proof.
  apply (lenient_run_succeeds (H := Examples.asciiHost) (H0 := Sim.accepting)).
  - exact accepting_lenient.
  - vm_compute. reflexivity.
Defined.

End RunFacts.

(* ===================================================================== *)
(** * Part XXII: the creation calls of a run                              *)
(* ===================================================================== *)

Module CallFacts.
Import JS Unicode Model Live ServerBuilder Index Statements Behaviour.

Lemma channelCalls_app (a b : list Call) :
  channelCalls (a ++ b) = (channelCalls a + channelCalls b)%nat.
Proof. unfold channelCalls. rewrite List.filter_app, length_app. reflexivity. Qed.

Lemma list_sum_step (a : nat) (l : list nat) : list_sum (a :: l) = (a + list_sum l)%nat.
Proof. reflexivity. Qed.

Lemma categories_and_channels (cs : list CategorySpec) :
  list_sum (List.map (fun c => S (length (default [] (cat_channels c)))) cs) =
  (length cs + totalChannels cs)%nat.
Proof.
  unfold totalChannels. induction cs as [|c cs IH]; [reflexivity|].
  cbn [List.map length]. rewrite !list_sum_step, IH. lia.
Qed.

Section WithHost.
Context `{Host}.

Lemma sanitizeName_nonempty (name : jsstring) : sanitizeName name <> [].
Proof.
  unfold sanitizeName, slice0. destruct (trim name) as [|c r]; cbn [truthy negb].
  - discriminate.
  - cbn [firstn]. discriminate.
Qed.

Section WithPlatform.
Context {G : Type} `{Platform G}.

(** ** Names *)

Lemma channelPayload_name (parent : jsstring) (ch : ChannelSpec) :
  cp_name (channelPayload parent ch) = sanitizeName (orElse (ch_name ch) (lit "channel")).
Proof. unfold channelPayload. destruct (isVoiceType (ch_type ch)); reflexivity. Qed.

Lemma buildCategory_named m (c : CategorySpec) : extends namedCall (buildCategory m c).
Proof.
  unfold buildCategory.
  apply EngineFacts.extends_bind;
    [apply EngineFacts.extends_call; cbn [namedCall categoryPayload cp_name];
     apply sanitizeName_nonempty|].
  intros parent. apply EngineFacts.extends_forEach. intros ch. unfold buildChannel.
  apply EngineFacts.extends_bind.
  - unfold createChannelSafe. apply EngineFacts.extends_catch.
    + apply EngineFacts.extends_call. cbn [namedCall]. rewrite channelPayload_name.
      apply sanitizeName_nonempty.
    + intros e.
      match goal with |- extends _ (if ?c then _ else _) => destruct c end.
      * apply EngineFacts.extends_call. cbn [namedCall cp_name].
        rewrite channelPayload_name. apply sanitizeName_nonempty.
      * apply EngineFacts.extends_throw.
  - intros channel. destruct (ch_overwrites ch) as [ows|]; [|apply EngineFacts.extends_ret].
    apply EngineFacts.extends_forEach. intros ow.
    apply EngineFacts.applyOverwrite_log. intros; exact I.
Qed.

(** X7.  No run ever asks the platform for a channel or a category with an
    empty name: whatever the template holds (an empty name, blanks only),
    every creation call of every run carries a name of at least one
    unit. *)
Theorem names_never_empty (g : G) (t : Template) :
  Forall namedCall (log (fst (provision g t))).
Proof.
  assert (E : extends namedCall (buildServerFromTemplate t)).
  { unfold buildServerFromTemplate. apply EngineFacts.extends_bind.
    - destruct (roles t); [| apply EngineFacts.extends_throw |];
        apply EngineFacts.ensureRolesFrom_log; intros p; exact I.
    - intros m. destruct (categories t); try apply EngineFacts.extends_throw.
      apply EngineFacts.extends_forEach. intros c. apply buildCategory_named. }
  destruct (E (mkWorld g [])) as [l [El Fl]]. unfold provision. rewrite El. exact Fl.
Qed.

(** ** Counting the creation calls *)

Lemma sends_zero {A} (P : Call -> Prop) (m : M G A) : extends P m -> sends 0 m.
Proof.
  intros E w w' a Em. destruct (E w) as [l [El _]]. rewrite Em in El.
  exists l. split; [exact El|lia].
Qed.

Lemma sends_bind {A B} (a b : nat) (m : M G A) (f : A -> M G B) :
  sends a m -> (forall x, sends b (f x)) -> sends (a + b) (bind m f).
Proof.
  intros Hm Hf w w' y. unfold bind. destruct (m w) as [w1 [x|e]] eqn:E; [|discriminate].
  intros Ef. destruct (Hm w w1 x E) as [l1 [E1 C1]].
  destruct (Hf x w1 w' y Ef) as [l2 [E2 C2]].
  exists (l1 ++ l2). rewrite E2, E1, app_assoc, channelCalls_app. split; [reflexivity|lia].
Qed.

Lemma sends_forEach {A} (n : A -> nat) (l : list A) (body : A -> M G unit) :
  (forall x, sends (n x) (body x)) -> sends (list_sum (List.map n l)) (forEach l body).
Proof.
  intros Hb. induction l as [|x l IH]; cbn [forEach List.map]; [|rewrite list_sum_step].
  - intros w w' a E. exists []. unfold ret in E. rewrite app_nil_r.
    split; [congruence|unfold channelCalls; simpl; lia].
  - apply sends_bind; [apply Hb|intros _; exact IH].
Qed.

Lemma sends_call {A} c (op : G -> G * (ApiError + A)) :
  isChannelCall c -> sends 1 (call c op).
Proof.
  intros Ic w w' a. unfold call. destruct (op (guild w)) as [g' [e|x]]; [discriminate|].
  intros E. exists [c]. split; [inversion E; reflexivity|].
  destruct c; try destruct Ic. unfold channelCalls. simpl. lia.
Qed.

Lemma createChannelSafe_sends (payload : ChannelPayload) :
  sends 1 (createChannelSafe payload).
Proof.
  intros w w' a. unfold createChannelSafe, catch.
  destruct (call (CreateChannel payload) (channelsCreate payload) w) as [w1 [x|e]] eqn:E.
  - intros E'.
    apply (sends_call (CreateChannel payload) (channelsCreate payload) I w w' a).
    rewrite E. exact E'.
  - assert (L1 : log w1 = log w ++ [CreateChannel payload]).
    { unfold call in E. destruct (channelsCreate payload (guild w)) as [g' [z|z]];
        inversion E; reflexivity. }
    match goal with |- (if ?c then _ else _) _ = _ -> _ => destruct c end.
    + intros E2.
      destruct (sends_call (CreateChannel _) _ I w1 w' a E2) as [l [El Cl]].
      exists (CreateChannel payload :: l). rewrite El, L1, <- app_assoc.
      split; [reflexivity|]. change (CreateChannel payload :: l) with ([CreateChannel payload] ++ l).
      rewrite channelCalls_app. lia.
    + discriminate.
Qed.

Lemma buildCategory_sends m (c : CategorySpec) :
  sends (S (length (default [] (cat_channels c)))) (buildCategory m c).
Proof.
  unfold buildCategory. change (S ?n) with (1 + n)%nat.
  apply sends_bind; [apply sends_call; exact I|]. intros parent.
  replace (length (default [] (cat_channels c)))
    with (list_sum (List.map (fun _ : ChannelSpec => 1%nat) (default [] (cat_channels c)))).
  - apply sends_forEach. intros ch. unfold buildChannel.
    change 1%nat with (1 + 0)%nat. apply sends_bind; [apply createChannelSafe_sends|].
    intros channel. destruct (ch_overwrites ch) as [ows|].
    + apply (sends_zero (fun _ => True)). apply EngineFacts.extends_forEach. intros ow.
      apply EngineFacts.applyOverwrite_log. intros; exact I.
    + apply (sends_zero (fun _ => True)), EngineFacts.extends_ret.
  - induction (default [] (cat_channels c)) as [|x l IH]; [reflexivity|].
    cbn [List.map length]. rewrite list_sum_step, IH. reflexivity.
Qed.

(** X8.  A run that ends without error has asked the platform for at
    least one creation per category and one per channel (more when a
    creation was retried without its topic).  The ceiling of
    [ensureTemplateSafe] counts the channels only, so a template within it
    can take as many creations more as it has categories. *)
Theorem successful_run_creations (g : G) (rs : field RoleSpec) (cs : list CategorySpec)
    (sm : jsstring) :
  snd (provision g (mkTemplate rs (IsArray cs) sm)) = Ok tt ->
  (length cs + totalChannels cs <=
   channelCalls (log (fst (provision g (mkTemplate rs (IsArray cs) sm)))))%nat.
Proof.
  intros Ok.
  assert (Hs : sends (0 + (length cs + totalChannels cs))
                 (buildServerFromTemplate (mkTemplate rs (IsArray cs) sm))).
  { unfold buildServerFromTemplate. cbn [roles categories]. apply sends_bind.
    - apply (sends_zero (fun _ => True)).
      destruct rs; [| apply EngineFacts.extends_throw |];
        apply EngineFacts.ensureRolesFrom_log; intros p; exact I.
    - intros m. rewrite <- categories_and_channels.
      apply sends_forEach. intros c. apply buildCategory_sends. }
  unfold provision in *.
  destruct (buildServerFromTemplate _ (mkWorld g [])) as [w' [[]|e]] eqn:E; [|discriminate].
  destruct (Hs (mkWorld g []) w' tt E) as [l [El Cl]].
  cbn [fst]. rewrite El. cbn [log app]. lia.
Qed.

End WithPlatform.
End WithHost.

Lemma successful_run_creations_witness :
  (1 + 2 <=
   channelCalls
     (log (fst (provision (H := Examples.asciiHost) (H0 := Sim.accepting) Sim.emptyTarget
                  (mkTemplate (IsArray Examples.smallRoles)
                     (IsArray Examples.smallCategories) [])))))%nat.
Proof.
  apply (successful_run_creations (H := Examples.asciiHost) (H0 := Sim.accepting)
           Sim.emptyTarget (IsArray Examples.smallRoles) Examples.smallCategories []).
  vm_compute. reflexivity.
Defined.

End CallFacts.

(* ===================================================================== *)
(** * Part XXIII: what the text parser builds                             *)
(* ===================================================================== *)

Module ParserShape.
Import JS Regex Unicode Model TextParser Live ServerBuilder Index Statements Behaviour.

Lemma orElse_truthy (a b : jsstring) : truthy b = true -> truthy (orElse a b) = true.
Proof. intros B. unfold orElse. destruct (truthy a) eqn:A; assumption. Qed.

Lemma canonical_decimal (n : N) : canonical (PermString (toString n)) = true.
Proof.
  cbn [canonical]. rewrite NumberFacts.digits_toString. apply ExtractFacts.jeqb_refl.
Qed.

Lemma totalChannels_push (ch : ChannelSpec) (i : nat) (cats : list CategorySpec) :
  (totalChannels (alter (pushChannel ch) i cats) <= S (totalChannels cats))%nat.
Proof.
  revert i. induction cats as [|c cats IH]; intros i;
    [unfold totalChannels; simpl; lia|].
  destruct i as [|i].
  - change (alter (pushChannel ch) 0%nat (c :: cats)) with (pushChannel ch c :: cats).
    unfold totalChannels. cbn [List.map pushChannel cat_channels].
    rewrite !CallFacts.list_sum_step.
    change (default [] (Some ?x)) with x. rewrite length_app. simpl. lia.
  - change (alter (pushChannel ch) (S i) (c :: cats))
      with (c :: alter (pushChannel ch) i cats).
    specialize (IH i). unfold totalChannels in *. cbn [List.map].
    rewrite !CallFacts.list_sum_step. lia.
Qed.

Section WithHost.
Context `{Host}.

(** ** Roles *)

Lemma buildRoleFromLine_shape (n : nat) (line : jsstring) (r : RoleSpec) :
  buildRoleFromLine n line = Some r -> parsedRole r = true /\ refId r = freshRefId n.
Proof.
  unfold buildRoleFromLine. destruct (exec reColor line) as [m|]; [|discriminate].
  match goal with |- (if truthy ?c then _ else _) = _ -> _ => destruct (truthy c) eqn:T end;
    [|discriminate].
  intros E. inversion E; subst r; clear E.
  unfold parsedRole. cbn [role_name hoist mentionable isEveryone permissions position refId].
  rewrite T, canonical_decimal. auto.
Qed.

Lemma parseLine_roles (st : ParseState) (line : jsstring) :
  forallb parsedRole (ps_roles st) = true ->
  List.map refId (ps_roles st) = List.map freshRefId (seq 0 (length (ps_roles st))) ->
  forallb parsedRole (ps_roles (parseLine st line)) = true /\
  List.map refId (ps_roles (parseLine st line)) =
    List.map freshRefId (seq 0 (length (ps_roles (parseLine st line)))).
Proof.
  intros Sh Ids. unfold parseLine. destruct (isRoleLine line).
  - destruct (buildRoleFromLine _ line) as [r|] eqn:B; [|auto].
    destruct (buildRoleFromLine_shape _ _ _ B) as [Pr Ir]. cbn [ps_roles]. split.
    + rewrite forallb_app, Sh. cbn [forallb]. rewrite Pr. reflexivity.
    + rewrite List.map_app, length_app, seq_app, List.map_app, Ids. cbn [List.map length seq].
      rewrite Ir. reflexivity.
  - match goal with |- context [if ?c then _ else _] => destruct c end; [auto|].
    destruct (ps_current st) eqn:Cur; cbn [ps_current ps_roles]; rewrite ?Cur;
      cbn [ps_roles]; auto.
Qed.

(** ** Channels and categories *)

Lemma suggestDescription_truthy (name : jsstring) (isVoice : bool) :
  truthy (TextParser.suggestDescription name isVoice) = true.
Proof.
  unfold TextParser.suggestDescription.
  repeat match goal with |- context [if ?c then _ else _] => destruct c end; reflexivity.
Qed.

Lemma buildChannelFromLine_shape (line : jsstring) :
  parsedChannel (buildChannelFromLine line) = true.
Proof.
  unfold parsedChannel, buildChannelFromLine, canonicalChannel.
  cbn [ch_name ch_type ch_topic ch_nsfw ch_slowmode ch_overwrites from_option].
  rewrite orElse_truthy by reflexivity.
  match goal with
  | |- context [TypeString (if ?v then _ else _)] =>
      replace (cleanType (TypeString (if v then lit "voice" else lit "text"))) with true
        by (destruct v; reflexivity)
  end.
  match goal with
  | |- context [truthy (match ?x with Some t => _ | None => ?d end)] =>
      replace (truthy (match x with Some t => if truthy t then t else d | None => d end))
        with true
  end.
  - destruct (extractPermissions (normalizeLine line)) as [|p ps]; [reflexivity|].
    cbn [default from_option]. unfold id, forallb, canonicalOverwrite.
    cbn [allow deny]. rewrite canonical_decimal. reflexivity.
  - symmetry. destruct (extractTopic (normalizeLine line)) as [t|].
    + destruct (truthy t) eqn:T; [exact T|apply suggestDescription_truthy].
    + apply suggestDescription_truthy.
Qed.

Lemma cleanCategoryName_truthy (name : jsstring) : truthy (cleanCategoryName name) = true.
Proof. unfold cleanCategoryName. apply orElse_truthy. reflexivity. Qed.

Lemma pushChannel_shape (ch : ChannelSpec) (i : nat) (cats : list CategorySpec) :
  parsedChannel ch = true ->
  forallb parsedCategory cats = true ->
  forallb parsedCategory (alter (pushChannel ch) i cats) = true.
Proof.
  intros Pc. revert i. induction cats as [|c cats IH]; intros i Hc; [reflexivity|].
  cbn [forallb] in Hc. apply andb_true_iff in Hc as [Hc Hcs].
  destruct i as [|i].
  - change (alter (pushChannel ch) 0%nat (c :: cats)) with (pushChannel ch c :: cats).
    cbn [forallb]. rewrite Hcs, andb_true_r.
    unfold parsedCategory in *. cbn [pushChannel cat_name cat_channels].
    apply andb_true_iff in Hc as [Hn Hch]. rewrite Hn.
    destruct (cat_channels c) as [chs|]; [|discriminate].
    cbn [default from_option]. unfold id. rewrite forallb_app, Hch.
    cbn [forallb]. rewrite Pc. reflexivity.
  - change (alter (pushChannel ch) (S i) (c :: cats))
      with (c :: alter (pushChannel ch) i cats).
    cbn [forallb]. rewrite Hc, (IH i Hcs). reflexivity.
Qed.

Lemma parseLine_categories (st : ParseState) (line : jsstring) :
  forallb parsedCategory (ps_categories st) = true ->
  forallb parsedCategory (ps_categories (parseLine st line)) = true.
Proof.
  intros Inv. unfold parseLine. destruct (isRoleLine line).
  { destruct (buildRoleFromLine _ line); exact Inv. }
  match goal with |- context [if ?c then _ else _] => destruct c end.
  { cbn [ps_categories]. rewrite forallb_app, Inv. cbn [forallb].
    unfold parsedCategory. cbn [cat_name cat_channels forallb].
    rewrite cleanCategoryName_truthy. reflexivity. }
  destruct (ps_current st) as [i|] eqn:Cur; cbn [ps_current ps_categories].
  - rewrite Cur. cbn [ps_categories].
    apply pushChannel_shape; [apply buildChannelFromLine_shape|exact Inv].
  - apply pushChannel_shape; [apply buildChannelFromLine_shape|].
    rewrite forallb_app, Inv. reflexivity.
Qed.

(** ** Counting *)

Lemma parseLine_counts (st : ParseState) (line : jsstring) :
  (length (ps_roles (parseLine st line)) + totalChannels (ps_categories (parseLine st line))
   <= S (length (ps_roles st) + totalChannels (ps_categories st)))%nat /\
  (length (ps_categories (parseLine st line)) <= S (length (ps_categories st)))%nat.
Proof.
  unfold parseLine. destruct (isRoleLine line).
  { destruct (buildRoleFromLine _ line); cbn [ps_roles ps_categories];
      rewrite ?length_app; simpl; lia. }
  match goal with |- context [if ?c then _ else _] => destruct c end.
  { cbn [ps_roles ps_categories].
    rewrite ValidatorFacts.totalChannels_app, length_app. unfold totalChannels at 2.
    simpl. lia. }
  destruct (ps_current st) as [i|] eqn:Cur; cbn [ps_current ps_categories ps_roles].
  - rewrite Cur. cbn [ps_categories ps_roles]. rewrite length_alter.
    pose proof (totalChannels_push (buildChannelFromLine (normalizeLine (trim line))) i
                  (ps_categories st)).
    lia.
  - rewrite length_alter, length_app.
    match goal with
    | |- context [alter (pushChannel ?ch) ?i ?l] =>
        pose proof (totalChannels_push ch i l) as P
    end.
    rewrite ValidatorFacts.totalChannels_app in P. unfold totalChannels at 3 in P.
    simpl in P. simpl. lia.
Qed.

(** The invariant of the loop of [parseTextStructure]. *)
Lemma parse_loop (lines : list jsstring) (st : ParseState) :
  forallb parsedRole (ps_roles st) = true ->
  List.map refId (ps_roles st) = List.map freshRefId (seq 0 (length (ps_roles st))) ->
  forallb parsedCategory (ps_categories st) = true ->
  let st' := fold_left parseLine lines st in
  forallb parsedRole (ps_roles st') = true /\
  List.map refId (ps_roles st') = List.map freshRefId (seq 0 (length (ps_roles st'))) /\
  forallb parsedCategory (ps_categories st') = true /\
  (length (ps_roles st') + totalChannels (ps_categories st')
   <= length lines + (length (ps_roles st) + totalChannels (ps_categories st)))%nat /\
  (length (ps_categories st') <= length lines + length (ps_categories st))%nat.
Proof.
  revert st. induction lines as [|line lines IH]; intros st Pr Ir Pc; cbn [fold_left].
  - cbn zeta. repeat split; auto; simpl; lia.
  - destruct (parseLine_roles st line Pr Ir) as [Pr' Ir'].
    pose proof (parseLine_categories st line Pc) as Pc'.
    destruct (parseLine_counts st line) as [C1 C2].
    destruct (IH (parseLine st line) Pr' Ir' Pc') as [A [B [C [D E]]]].
    cbn zeta. repeat split; auto; cbn [length]; lia.
Qed.

Lemma parsed_lines (raw : jsstring) :
  (length (List.filter truthy
             (List.map (fun l => normalizeLine (trimEnd l)) (splitLines [] raw)))
   <= length (splitLines [] raw))%nat.
Proof.
  etransitivity; [apply List.filter_length_le|]. rewrite length_map. lia.
Qed.

Lemma parsed_template (raw : jsstring) :
  exists rs cs,
    roles (parseTextStructure raw) = IsArray rs /\
    categories (parseTextStructure raw) = IsArray cs /\
    forallb parsedRole rs = true /\
    List.map refId rs = List.map freshRefId (seq 0 (length rs)) /\
    forallb parsedCategory cs = true /\
    (length rs + totalChannels cs <= length (splitLines [] raw))%nat /\
    (length cs <= length (splitLines [] raw))%nat.
Proof.
  unfold parseTextStructure.
  set (lines := List.filter truthy _).
  destruct (parse_loop lines (mkParseState [] [] None) eq_refl eq_refl eq_refl)
    as [A [B [C [D E]]]].
  pose proof (parsed_lines raw) as L. fold lines in L.
  exists (ps_roles (fold_left parseLine lines (mkParseState [] [] None))).
  exists (ps_categories (fold_left parseLine lines (mkParseState [] [] None))).
  cbn [roles categories]. cbn [ps_roles ps_categories length] in D, E.
  unfold totalChannels at 2 in D. simpl in D.
  repeat split; auto; lia.
Qed.

Lemma parsedRole_canonical (r : RoleSpec) :
  parsedRole r = true -> canonical (permissions r) = true.
Proof.
  unfold parsedRole. intros P.
  repeat (apply andb_true_iff in P as [P ?]). assumption.
Qed.

Lemma parsedCategory_canonical (c : CategorySpec) :
  parsedCategory c = true -> canonicalCategory c = true.
Proof.
  unfold parsedCategory, canonicalCategory. intros P.
  apply andb_true_iff in P as [_ P].
  destruct (cat_channels c) as [chs|]; [|discriminate].
  cbn [default from_option]. unfold id.
  rewrite List.forallb_forall in *. intros ch Hch. specialize (P ch Hch).
  unfold parsedChannel in P. apply andb_true_iff in P as [_ P]. exact P.
Qed.

Lemma parsed_canonical (raw : jsstring) :
  canonicalTemplate (parseTextStructure raw) = true.
Proof.
  destruct (parsed_template raw) as [rs [cs [Er [Ec [Pr [_ [Pc _]]]]]]].
  unfold canonicalTemplate. rewrite Er, Ec. cbn [arrayOr default from_option]. unfold id.
  apply andb_true_iff. split.
  - unfold rolesCanonical. rewrite List.forallb_forall in *. intros r Hr.
    apply parsedRole_canonical, Pr, Hr.
  - rewrite List.forallb_forall in *. intros c Hc.
    apply parsedCategory_canonical, Pc, Hc.
Qed.


(** X9.  Every role that [parseTextStructure] returns has a name that is
    not empty, is not hoisted, is mentionable, is not flagged [isEveryone],
    has no position and carries its permissions as the decimal text of a
    number. *)
Theorem parsed_roles_shape (raw : jsstring) :
  exists rs,
    roles (parseTextStructure raw) = IsArray rs /\
    forallb parsedRole rs = true.
Proof.
  destruct (parsed_template raw) as [rs [cs [Er [_ [Pr _]]]]].
  exists rs. auto.
Qed.

(** X10.  Every category that [parseTextStructure] returns has a name that
    is not empty and an array of channels, and every channel a name that is
    not empty, the type [voice] or [text], a topic that is not empty, no
    [nsfw] flag, no slow mode and permission values that are decimal
    texts: the fallbacks of the engine for a missing name never apply to a
    parsed template. *)
Theorem parsed_categories_shape (raw : jsstring) :
  exists cs,
    categories (parseTextStructure raw) = IsArray cs /\
    forallb parsedCategory cs = true.
Proof.
  destruct (parsed_template raw) as [rs [cs [_ [Ec [_ [_ [Pc _]]]]]]].
  exists cs. auto.
Qed.

(** X11.  A line of the text gives at most one role or one channel, and at
    most one category: the roles and channels of the parsed template are
    together at most as many as the lines of the text, and so are its
    categories. *)
Theorem parsed_counts (raw : jsstring) :
  exists rs cs,
    roles (parseTextStructure raw) = IsArray rs /\
    categories (parseTextStructure raw) = IsArray cs /\
    (length rs + totalChannels cs <= length (splitLines [] raw))%nat /\
    (length cs <= length (splitLines [] raw))%nat.
Proof.
  destruct (parsed_template raw) as [rs [cs [Er [Ec [_ [_ [_ [C1 C2]]]]]]]].
  exists rs, cs. auto.
Qed.

(** X12.  A text of at most 200 lines always parses to a template that
    [ensureTemplateSafe] accepts. *)
Theorem short_text_is_safe (raw : jsstring) :
  (length (splitLines [] raw) <= MAX_ROLES)%nat ->
  ensureTemplateSafe (Some (parseTextStructure raw)) = None.
Proof.
  intros L. destruct (parsed_template raw) as [rs [cs [Er [Ec [_ [_ [_ [C1 _]]]]]]]].
  rewrite (ValidatorFacts.ensureTemplateSafe_array _ cs Ec).
  unfold roleCount. rewrite Er. unfold MAX_ROLES in L.
  replace (500 <? totalChannels cs)%nat with false by (symmetry; apply Nat.ltb_ge; lia).
  replace (200 <? length rs)%nat with false by (symmetry; apply Nat.ltb_ge; lia).
  reflexivity.
Qed.

Section WithPlatform.
Context {G : Type} `{Platform G}.


(** X14.  On a platform that rejects no call, the template parsed from any
    text is built without error, from every state. *)
Theorem parsed_text_builds (raw : jsstring) (w : World G) :
  lenient -> snd (buildServerFromTemplate (parseTextStructure raw) w) = Ok tt.
Proof.
  intros L. apply RunFacts.lenient_build_succeeds; [exact L|apply parsed_canonical].
Qed.

End WithPlatform.
End WithHost.

Lemma short_text_is_safe_witness :
  ensureTemplateSafe
    (Some (parseTextStructure (H := Examples.asciiHost)
             (lit "INFO" ++ [10] ++ lit "#rules | Type: text"))) = None.
Proof.
  apply (short_text_is_safe (H := Examples.asciiHost)). vm_compute. lia.
Defined.

Lemma parsed_text_builds_witness :
  snd (buildServerFromTemplate (H := Examples.asciiHost) (H0 := Sim.accepting)
         (parseTextStructure (H := Examples.asciiHost)
            (lit "INFO" ++ [10] ++ lit "#rules | Type: text"))
         Examples.freshWorld) = Ok tt.
Proof.
  apply (parsed_text_builds (H := Examples.asciiHost) (H0 := Sim.accepting)).
  exact RunFacts.accepting_lenient.
Defined.

End ParserShape.

(* ===================================================================== *)
(** * Part XXIV: the extractor on any guild, and the clone                *)
(* ===================================================================== *)

Module CloneFacts.
Import JS Unicode Model Live ServerBuilder Index Statements Behaviour ExtractFacts.

(** ** The extracted template *)

(** X15.  For any fetched guild, the roles of the extracted template are
    the live roles, each once, in the order of their raw positions, and
    the one flagged [isEveryone] is the one that carries the identifier of
    the base role. *)
Theorem fromGuild_roles (g : LiveGuild) :
  exists sorted,
    Permutation sorted (lg_roles g) /\
    ascendingBy lr_rawPosition sorted /\
    roles (fromGuild g) = IsArray (List.map (roleTemplate (lg_everyone g)) sorted) /\
    forall r, In r sorted ->
      (isEveryone (roleTemplate (lg_everyone g) r) = true <-> lr_id r = lg_everyone g).
Proof.
  exists (sortBy lr_rawPosition (lg_roles g)).
  split; [apply sortBy_perm|]. split; [apply sortBy_sorted|]. split; [reflexivity|].
  intros r _. cbn [roleTemplate isEveryone]. apply EngineFacts.jeqb_true.
Qed.

(** X16.  For any fetched guild whose channel identifiers are distinct,
    the extracted template has one category for each live channel of type
    4, in the order of their raw positions, and under each the channels
    whose [parentId] is its identifier, in the order of their raw
    positions.  So a channel without a parent, and one whose parent is no
    category, is in no category of the template. *)
Theorem fromGuild_categories (g : LiveGuild) :
  NoDup (List.map lc_id (lg_channels g)) ->
  categories (fromGuild g) =
    IsArray
      (List.map
         (fun cat =>
            {| cat_name := lc_name cat;
               cat_channels :=
                 Some (List.map channelTemplate
                         (List.filter (childOf (lc_id cat))
                            (sortBy lc_rawPosition
                               (List.filter hasParent (lg_channels g))))) |})
         (sortBy lc_rawPosition (List.filter isCategory (lg_channels g)))).
Proof.
  intros N. unfold fromGuild. cbn [categories]. f_equal.
  fold isCategory. fold hasParent.
  change (fun m cat => mapSet (lc_id cat) {| cat_name := lc_name cat; cat_channels := Some [] |} m)
    with (fun m cat => mapSet (lc_id cat) (emptyCategory cat) m).
  rewrite ExtractFacts.categoryMap_build by (simpl; apply sortBy_ids, N). simpl.
  rewrite ExtractFacts.placeChildren.
  - rewrite !List.map_map. apply map_ext. intros cat. simpl.
    unfold emptyCategory. rewrite ExtractFacts.gather_channels. reflexivity.
  - rewrite List.map_map. simpl. apply sortBy_ids, N.
Qed.



(** ** The permission texts of the extractor *)

Lemma fold_left_inv {A B} (I : A -> Prop) (f : A -> B -> A) (l : list B) (a : A) :
  I a -> (forall acc x, In x l -> I acc -> I (f acc x)) -> I (fold_left f l a).
Proof.
  revert a. induction l as [|x l IH]; intros a Ia Step; cbn [fold_left]; [exact Ia|].
  apply IH.
  - apply Step; [left; reflexivity|exact Ia].
  - intros acc y Hy. apply Step. right. exact Hy.
Qed.

Lemma mapSet_Forall {V} (P : V -> Prop) (k : jsstring) (v : V) (m : list (jsstring * V)) :
  P v -> Forall (fun e => P (snd e)) m -> Forall (fun e => P (snd e)) (mapSet k v m).
Proof.
  intros Pv. induction 1 as [|[k' v'] m Pe Pm IH]; cbn [mapSet].
  - constructor; [exact Pv|constructor].
  - destruct (jeqb k' k); constructor; auto.
Qed.

Lemma mapMutate_Forall {V} (P : V -> Prop) (f : V -> V) (k : jsstring)
    (m : list (jsstring * V)) :
  (forall v, P v -> P (f v)) ->
  Forall (fun e => P (snd e)) m -> Forall (fun e => P (snd e)) (mapMutate f k m).
Proof.
  intros Pf. induction 1 as [|[k' v'] m Pe Pm IH]; cbn [mapMutate].
  - constructor.
  - destruct (jeqb k' k); constructor; auto. apply Pf, Pe.
Qed.

Lemma canonical_bits (z : Z) :
  (0 <= z)%Z -> canonical (PermString (bigintToString z)) = true.
Proof.
  intros P. rewrite <- (Z2N.id z P), NumberFacts.bigintToString_of_N.
  apply ParserShape.canonical_decimal.
Qed.

Lemma channelTemplate_canonical (ch : LiveChannel) :
  Forall (fun ow => (0 <= lo_allow ow)%Z /\ (0 <= lo_deny ow)%Z) (lc_overwrites ch) ->
  canonicalChannel (channelTemplate ch) = true.
Proof.
  intros F. unfold canonicalChannel. cbn [channelTemplate ch_overwrites default from_option].
  unfold id. apply List.forallb_forall. intros o Ho.
  apply in_map_iff in Ho as [ow [<- Hin]]. apply List.filter_In in Hin as [Hin _].
  rewrite List.Forall_forall in F. destruct (F ow Hin) as [Pa Pd].
  unfold canonicalOverwrite. cbn [overwriteTemplate allow deny].
  rewrite !canonical_bits by assumption. reflexivity.
Qed.

Lemma pushChild_canonical (ch : LiveChannel) (c : CategorySpec) :
  canonicalChannel (channelTemplate ch) = true ->
  canonicalCategory c = true -> canonicalCategory (pushChild ch c) = true.
Proof.
  intros Cc Ca. unfold canonicalCategory in *. cbn [pushChild cat_channels].
  change (default [] (Some ?x)) with x.
  rewrite forallb_app, Ca. cbn [forallb]. rewrite Cc. reflexivity.
Qed.

Lemma fromGuild_canonical (g : LiveGuild) :
  liveBits g -> canonicalTemplate (fromGuild g) = true.
Proof.
  intros [Lr Lc]. unfold canonicalTemplate, fromGuild.
  cbn [roles categories arrayOr default from_option]. unfold id.
  apply andb_true_iff. split.
  - unfold rolesCanonical. apply List.forallb_forall. intros r Hr.
    apply in_map_iff in Hr as [lr [<- Hin]]. apply sortBy_In in Hin.
    rewrite List.Forall_forall in Lr. cbn [roleTemplate permissions].
    apply canonical_bits, Lr, Hin.
  - apply List.forallb_forall. intros c Hc. apply in_map_iff in Hc as [[k c'] [<- Hin]].
    cbn [snd].
    match type of Hin with
    | In _ ?m =>
        assert (F : Forall (fun e : jsstring * CategorySpec =>
                              canonicalCategory (snd e) = true) m)
    end.
    { apply (fold_left_inv
               (fun m => Forall (fun e : jsstring * CategorySpec =>
                                   canonicalCategory (snd e) = true) m)).
      - apply (fold_left_inv
                 (fun m => Forall (fun e : jsstring * CategorySpec =>
                                     canonicalCategory (snd e) = true) m)).
        + constructor.
        + intros acc cat _ Ia.
          apply (mapSet_Forall (fun c => canonicalCategory c = true)); [reflexivity|exact Ia].
      - intros acc ch Hch Ia. apply sortBy_In in Hch. apply List.filter_In in Hch as [Hch _].
        rewrite List.Forall_forall in Lc. specialize (Lc ch Hch).
        unfold placeChild. destruct (mapGet _ acc); [|exact Ia].
        apply (mapMutate_Forall (fun c => canonicalCategory c = true)); [|exact Ia].
        intros v. apply pushChild_canonical, channelTemplate_canonical, Lc. }
    rewrite List.Forall_forall in F. apply (F (k, c') Hin).
Qed.

Section WithHost.
Context `{Host}.

(** X17.  What the engine sends for a channel that the extractor has
    read: under its sanitized name, a voice channel when the live type is
    2 and a text channel for every other live type (announcement, stage,
    forum), which keeps the first 1024 units of its topic, its [nsfw] flag
    and its slow mode. *)
Theorem cloned_channel_payload (parent : jsstring) (ch : LiveChannel) :
  channelPayload parent (channelTemplate ch) =
    if Z.eqb (lc_type ch) 2
    then mkChannelPayload (sanitizeName (orElse (lc_name ch) (lit "channel"))) GuildVoice
           (Some parent) None None None
    else mkChannelPayload (sanitizeName (orElse (lc_name ch) (lit "channel"))) GuildText
           (Some parent)
           (match lc_topic ch with
            | Some t => if truthy t then Some (firstn 1024 t) else None
            | None => None
            end)
           (Some (lc_nsfw ch)) (Some (lc_rateLimitPerUser ch)).
Proof.
  unfold channelPayload. cbn [channelTemplate ch_type ch_name ch_topic ch_nsfw ch_slowmode].
  destruct (Z.eqb (lc_type ch) 2); reflexivity.
Qed.

Section WithPlatform.
Context {G : Type} `{Platform G}.

Lemma ensureRolesFrom_base_bound (ev : jsstring) (rs : list LiveRole) :
  forall (m : gmap jsstring jsstring) (w w' : World G) m',
    ensureRolesFrom m (List.map (roleTemplate ev) rs) w = (w', Ok m') ->
    m !! ev = Some everyoneId \/ In ev (List.map lr_id rs) ->
    m' !! ev = Some everyoneId.
Proof.
  induction rs as [|r rs IH]; intros m w w' m' E Hev; cbn [List.map ensureRolesFrom] in E.
  - unfold ret in E. destruct Hev as [Hev|[]]. congruence.
  - unfold bind in E.
    destruct (ensureRole m (roleTemplate ev r) w) as [w1 [m1|e]] eqn:E1; [|discriminate].
    apply (IH m1 w1 w' m' E).
    destruct (decide (lr_id r = ev)) as [Eq|Ne].
    + left. unfold ensureRole in E1. cbn [roleTemplate isEveryone refId] in E1.
      rewrite Eq, ExtractFacts.jeqb_refl in E1. cbn [orb] in E1.
      unfold ret in E1. inversion E1. apply lookup_insert_eq.
    + destruct Hev as [Hev|[Hev|Hev]]; [|contradiction|right; exact Hev].
      left. destruct (EngineFacts.ensureRole_keys _ _ _ _ _ E1) as [v ->].
      cbn [roleTemplate refId]. rewrite lookup_insert_ne by exact Ne. exact Hev.
Qed.

(** X18.  When the roles of an extracted template are bound in a target,
    the identifier of the base role of the source is bound to the base
    role of the target (so the overwrites that the source had for its base
    role are applied to the base role of the target), and the roles that
    are created are as many as the source roles that carry neither the
    identifier of the source's base role nor that of the target's. *)
Theorem clone_binds_base_role (g : LiveGuild) (w w' : World G)
    (m : gmap jsstring jsstring) :
  In (lg_everyone g) (List.map lr_id (lg_roles g)) ->
  ensureRoles (List.map (roleTemplate (lg_everyone g)) (sortBy lr_rawPosition (lg_roles g))) w
    = (w', Ok m) ->
  m !! lg_everyone g = Some everyoneId /\
  exists created,
    log w' = log w ++ List.map CreateRole created /\
    length created =
      length
        (List.filter
           (fun r => negb (jeqb (lr_id r) (lg_everyone g) || jeqb (lr_id r) everyoneId))
           (sortBy lr_rawPosition (lg_roles g))).
Proof.
  intros Hin E. split.
  - apply (ensureRolesFrom_base_bound _ _ _ _ _ _ E). right.
    apply in_map_iff in Hin as [r [Er Hr]]. apply in_map_iff. exists r.
    split; [exact Er|]. apply sortBy_In, Hr.
  - destruct (EngineFacts.ensureRolesFrom_calls
                (List.map (roleTemplate (lg_everyone g)) (sortBy lr_rawPosition (lg_roles g)))
                (<[lit "everyone" := everyoneId]> ∅) w)
      as [done [pending [created [Hf [Hl [H2 Hp]]]]]].
    unfold ensureRoles in E. rewrite E in Hl, Hp. cbn [fst snd] in Hl, Hp.
    exists created. split; [exact Hl|].
    rewrite (Hp m eq_refl), app_nil_r in Hf.
    rewrite <- (Forall2_length _ _ _ H2), <- Hf.
    rewrite RoundTrip.filter_map_swap, length_map. reflexivity.
Qed.

(** X19.  The clone, from the modal to the reply, for a source whose
    live bit sets are not negative, inside a server and outside one.  A
    source that cannot be fetched is reported and the target is left as it
    was, as [not found] when the error has the code 10004 and with the
    error otherwise.  A source that can be fetched is extracted and
    checked before the target is looked at: one that is too large is
    refused, also outside a server and never as an invalid template, and
    the target is left as it was.  One that passes is saved outside a
    server, where nothing is built; inside one the target is what the
    engine leaves, and the build can only fail by a rejection of the
    platform, which is reported as [not found] when it has the code 10004
    and with the error otherwise. *)
Theorem modalClone_outcomes (source : ApiError + LiveGuild) (w : option (World G)) :
  (forall g, source = inr g -> liveBits g) ->
  (forall e, source = inl e ->
     Handlers.modalClone source w =
       (w, Handlers.CloneFailed
             (if decide (err_code e = Some 10004%Z) then Handlers.NotFound
              else Handlers.FetchError e))) /\
  (forall g, source = inr g ->
     match ensureTemplateSafe (Some (fromGuild g)) with
     | Some v =>
         errorKind v = LimitExceeded /\
         Handlers.modalClone source w = (w, Handlers.CloneFailed (Handlers.NotSafe v))
     | None =>
         match w with
         | None => Handlers.modalClone source w = (None, Handlers.TemplateSaved)
         | Some w0 =>
             fst (Handlers.modalClone source w) =
               Some (fst (buildServerFromTemplate (fromGuild g) w0)) /\
             match snd (buildServerFromTemplate (fromGuild g) w0) with
             | Ok _ => snd (Handlers.modalClone source w) = Handlers.ServerCloned
             | Throw e =>
                 exists a,
                   e = Rejected a /\
                   snd (Handlers.modalClone source w) =
                     Handlers.CloneFailed
                       (if decide (err_code a = Some 10004%Z) then Handlers.NotFound
                        else Handlers.EngineError e)
             end
         end
     end).
Proof.
  intros L. split.
  - intros e ->. unfold Handlers.modalClone, Handlers.cloneFailure.
    destruct (decide (err_code e = Some 10004%Z)); reflexivity.
  - intros g ->. specialize (L g eq_refl). unfold Handlers.modalClone.
    destruct (ensureTemplateSafe (Some (fromGuild g))) as [v|] eqn:V.
    + split; [|reflexivity].
      assert (Ec : exists cs, categories (fromGuild g) = IsArray cs)
        by (eexists; reflexivity).
      destruct Ec as [cs Ec].
      rewrite (ValidatorFacts.ensureTemplateSafe_array _ cs Ec) in V.
      repeat match type of V with context [if ?c then _ else _] => destruct c end;
        inversion V; reflexivity.
    + destruct w as [w0|]; [|reflexivity].
      destruct (buildServerFromTemplate (fromGuild g) w0) as [w' [[]|e]] eqn:E;
        cbn [fst snd].
      * auto.
      * split; [reflexivity|].
        destruct (RunFacts.platform_build_raises _ (fromGuild_canonical g L) w0 w' e E)
          as [a ->].
        exists a. split; [reflexivity|]. cbn [Handlers.cloneFailure].
        destruct (decide (err_code a = Some 10004%Z)); reflexivity.
Qed.

End WithPlatform.
End WithHost.

Lemma shuffledGuild_liveBits : liveBits shuffledGuild.
Proof.
  unfold liveBits, shuffledGuild. cbn [lg_roles lg_channels].
  split; repeat (constructor; cbn [lr_permissions lc_overwrites lo_allow lo_deny]);
    try lia.
Qed.

Lemma fromGuild_categories_witness :
  categories (fromGuild shuffledGuild) =
    IsArray
      [ mkCategory (lit "FIRST")
          (Some [ mkChannel (lit "stage") (TypeString (lit "text")) None false 0 None (Some []);
                  mkChannel (lit "talk") (TypeString (lit "text")) (Some (lit "Chat.")) false 5
                    None
                    (Some [mkOverwrite (lit "1") (PermString (lit "1024"))
                             (PermString (lit "0"))]) ]);
        mkCategory (lit "LATER") (Some []) ].
Proof.
  rewrite (fromGuild_categories shuffledGuild).
  - vm_compute. reflexivity.
  - refine (@bool_decide_unpack _ (NoDup_dec _) _). vm_compute. exact I.
Defined.

Lemma clone_binds_base_role_witness :
  (<[lit "7" := lit "1"]> (<[lit "1" := lit "0"]> (<[lit "everyone" := lit "0"]> ∅))
     : gmap jsstring jsstring) !! lit "1" = Some (lit "0").
Proof.
  apply (clone_binds_base_role (H := Examples.asciiHost) (H0 := Sim.accepting)
           shuffledGuild Examples.freshWorld
           (fst (ensureRoles (H := Examples.asciiHost) (H0 := Sim.accepting)
                   (List.map (roleTemplate (lit "1"))
                      (sortBy lr_rawPosition (lg_roles shuffledGuild)))
                   Examples.freshWorld))).
  - simpl. auto.
  - vm_compute. reflexivity.
Defined.

Lemma modalClone_outcomes_witness :
  fst (Handlers.modalClone (H := Examples.asciiHost) (H0 := Sim.accepting)
         (inr shuffledGuild) (Some Examples.freshWorld)) =
    Some (fst (buildServerFromTemplate (H := Examples.asciiHost) (H0 := Sim.accepting)
                 (fromGuild shuffledGuild) Examples.freshWorld)) /\
  snd (Handlers.modalClone (H := Examples.asciiHost) (H0 := Sim.accepting)
         (inr shuffledGuild) (Some Examples.freshWorld)) = Handlers.ServerCloned.
Proof.
  assert (L : forall g, @inr ApiError LiveGuild shuffledGuild = inr g -> liveBits g).
  { intros g E. inversion E. exact shuffledGuild_liveBits. }
  pose proof (proj2 (modalClone_outcomes (H := Examples.asciiHost) (H0 := Sim.accepting)
                       (inr shuffledGuild) (Some Examples.freshWorld) L)
                shuffledGuild eq_refl) as X.
  assert (V : ensureTemplateSafe (Some (fromGuild shuffledGuild)) = None)
    by (vm_compute; reflexivity).
  rewrite V in X.
  assert (R : snd (buildServerFromTemplate (H := Examples.asciiHost) (H0 := Sim.accepting)
                     (fromGuild shuffledGuild) Examples.freshWorld) = Ok tt)
    by (vm_compute; reflexivity).
  rewrite R in X. exact X.
Defined.

End CloneFacts.

(* ===================================================================== *)
(** * Part XXV: the roles import                                          *)
(* ===================================================================== *)

Module RolesImport.
Import JS Unicode Model TextParser Live ServerBuilder Index Statements Behaviour.

Section WithHost.
Context `{Host}.

Section WithPlatform.
Context {G : Type} `{Platform G}.



Lemma createRolesFrom_calls (rs : list RoleSpec) :
  forall created (w w' : World G) ids,
    Handlers.createRolesFrom created rs w = (w', Ok ids) ->
    exists new payloads,
      ids = created ++ new /\ length new = length rs /\
      log w' = log w ++ List.map CreateRole payloads /\
      Forall2 importedFor rs payloads.
Proof.
  induction rs as [|r rs IH]; intros created w w' ids E; cbn [Handlers.createRolesFrom] in E.
  - unfold ret in E. exists [], []. inversion E; subst.
    rewrite !app_nil_r. repeat split; auto.
  - unfold bind, liftOutcome in E.
    destruct (Handlers.normalizePermissionsInput (permissions r)) as [perms|e] eqn:Np;
      [|discriminate].
    unfold call in E.
    destruct (rolesCreate _ (guild w)) as [g' [e|role]] eqn:Rc; [discriminate|].
    destruct (IH _ _ _ _ E) as [new [payloads [Ei [El [Elog F2]]]]].
    exists (role :: new),
      (mkRolePayload (role_name r) (color r) (Some (default false (hoist r)))
         (Some (default true (mentionable r))) perms :: payloads).
    split; [rewrite Ei, <- app_assoc; reflexivity|].
    split; [cbn [length]; rewrite El; reflexivity|].
    split; [rewrite Elog; cbn [log List.map]; rewrite <- app_assoc; reflexivity|].
    constructor; [|exact F2].
    unfold importedFor. cbn [rp_name rp_color rp_hoist rp_mentionable rp_permissions].
    auto.
Qed.

(** X20.  [createRoles] asks the platform for one role per RoleSpec of its
    list, in order, each call carrying the name and color of its RoleSpec,
    its hoist and mentionable values (false and true when the RoleSpec has
    none) and the permission bits that [normalizePermissionsInput] gives,
    and returns as many roles as the list has RoleSpecs.  Unlike the role
    phase of the engine it has no exception for a RoleSpec that is flagged
    [isEveryone] or that carries the identifier of the base role. *)
Theorem createRoles_calls (rs : list RoleSpec) (w w' : World G) (ids : list jsstring) :
  Handlers.createRoles rs w = (w', Ok ids) ->
  length ids = length rs /\
  exists payloads,
    log w' = log w ++ List.map CreateRole payloads /\
    Forall2 importedFor rs payloads.
Proof.
  intros E. destruct (createRolesFrom_calls rs [] w w' ids E)
    as [new [payloads [Ei [El [Elog F2]]]]].
  split; [rewrite Ei; exact El|]. exists payloads. auto.
Qed.


End WithPlatform.
End WithHost.

Lemma createRoles_calls_witness :
  length [lit "1"] = length [Examples.plainRole (lit "r") (lit "Everyone") true] /\
  exists payloads,
    log (mkWorld (Sim.mkState
                    (Sim.st_roles Sim.emptyTarget ++
                       [mkLiveRole (lit "1") (lit "Everyone") 0 false true 0 1]) [] 2)
           [CreateRole (mkRolePayload (lit "Everyone") 0 (Some false) (Some true) 0)]) =
      log Examples.freshWorld ++ List.map CreateRole payloads /\
    Forall2 (importedFor (H := Examples.asciiHost))
      [Examples.plainRole (lit "r") (lit "Everyone") true] payloads.
Proof.
  apply (createRoles_calls (H := Examples.asciiHost) (H0 := Sim.accepting)
           [Examples.plainRole (lit "r") (lit "Everyone") true] Examples.freshWorld).
  vm_compute. reflexivity.
Defined.

End RolesImport.

(* ===================================================================== *)
(** * Part XXVI: the image import                                         *)
(* ===================================================================== *)

Module OcrFacts.
Import JS Unicode Model Live ServerBuilder Index Statements Behaviour.

Section WithHost.
Context `{Host}.

Lemma ocr_topic_known (name : jsstring) (isVoice : bool) :
  existsb (jeqb (ImageAnalyzer.suggestDescription name isVoice)) ocrTopics = true.
Proof.
  unfold ImageAnalyzer.suggestDescription.
  repeat match goal with |- context [if ?c then _ else _] => destruct c end; reflexivity.
Qed.

Lemma parseChannel_shape (line : jsstring) :
  ocrChannelShape (ImageAnalyzer.parseChannel line) = true.
Proof.
  unfold ocrChannelShape, ImageAnalyzer.parseChannel, ImageAnalyzer.ocrChannel.
  cbn [ch_type ch_topic ch_overwrites ch_private].
  rewrite ocr_topic_known.
  match goal with |- context [if ?v then _ else _] => destruct v end; reflexivity.
Qed.

Lemma ocr_push_shape (ch : ChannelSpec) (i : nat) (cats : list CategorySpec) :
  ocrChannelShape ch = true ->
  forallb ocrCategoryShape cats = true ->
  forallb ocrCategoryShape (alter (TextParser.pushChannel ch) i cats) = true.
Proof.
  intros Pc. revert i. induction cats as [|c cats IH]; intros i Hc; [reflexivity|].
  cbn [forallb] in Hc. apply andb_true_iff in Hc as [Hc Hcs].
  destruct i as [|i].
  - change (alter (TextParser.pushChannel ch) 0%nat (c :: cats))
      with (TextParser.pushChannel ch c :: cats).
    cbn [forallb]. rewrite Hcs, andb_true_r.
    unfold ocrCategoryShape in *. cbn [TextParser.pushChannel cat_channels].
    destruct (cat_channels c) as [chs|]; [|discriminate].
    cbn [default from_option]. unfold id. rewrite forallb_app, Hc.
    cbn [forallb]. rewrite Pc. reflexivity.
  - change (alter (TextParser.pushChannel ch) (S i) (c :: cats))
      with (c :: alter (TextParser.pushChannel ch) i cats).
    cbn [forallb]. rewrite Hc, (IH i Hcs). reflexivity.
Qed.

Lemma ocrLine_shape (st : ImageAnalyzer.OcrState) (line : jsstring) :
  forallb ocrCategoryShape (ImageAnalyzer.os_categories st) = true ->
  forallb ocrCategoryShape (ImageAnalyzer.os_categories (ImageAnalyzer.ocrLine st line)) = true.
Proof.
  intros Inv. unfold ImageAnalyzer.ocrLine.
  destruct (ImageAnalyzer.looksLikeCategory line).
  { cbn [ImageAnalyzer.os_categories]. rewrite forallb_app, Inv. reflexivity. }
  destruct (ImageAnalyzer.looksLikeChannel line); [|exact Inv].
  destruct (ImageAnalyzer.os_current st) as [i|] eqn:Cur;
    cbn [ImageAnalyzer.os_current ImageAnalyzer.os_categories].
  - rewrite Cur. cbn [ImageAnalyzer.os_categories].
    apply ocr_push_shape; [apply parseChannel_shape|exact Inv].
  - apply ocr_push_shape; [apply parseChannel_shape|].
    rewrite forallb_app, Inv. reflexivity.
Qed.

Lemma ocr_loop (lines : list jsstring) (st : ImageAnalyzer.OcrState) :
  forallb ocrCategoryShape (ImageAnalyzer.os_categories st) = true ->
  forallb ocrCategoryShape
    (ImageAnalyzer.os_categories (fold_left ImageAnalyzer.ocrLine lines st)) = true.
Proof.
  revert st. induction lines as [|line lines IH]; intros st Inv; cbn [fold_left];
    [exact Inv|].
  apply IH, ocrLine_shape, Inv.
Qed.

Lemma ocr_template (ocr : option jsstring) :
  exists c cs,
    categories (ImageAnalyzer.analyzeImageStub ocr) = IsArray (c :: cs) /\
    roles (ImageAnalyzer.analyzeImageStub ocr) = Absent /\
    forallb ocrCategoryShape (c :: cs) = true.
Proof.
  destruct ocr as [text|]; cbn [ImageAnalyzer.analyzeImageStub categories roles].
  - unfold ImageAnalyzer.buildTemplateFromText.
    set (lines := List.filter truthy _).
    pose proof (ocr_loop lines (ImageAnalyzer.mkOcrState [] None) eq_refl) as Inv.
    destruct (ImageAnalyzer.os_categories
                (fold_left ImageAnalyzer.ocrLine lines (ImageAnalyzer.mkOcrState [] None)))
      as [|c cs].
    + eexists. eexists. split; [reflexivity|]. split; reflexivity.
    + exists c, cs. auto.
  - eexists. eexists. split; [reflexivity|]. split; reflexivity.
Qed.

Lemma ocrCategory_canonical (c : CategorySpec) :
  ocrCategoryShape c = true -> canonicalCategory c = true.
Proof.
  unfold ocrCategoryShape, canonicalCategory.
  destruct (cat_channels c) as [chs|]; [|discriminate].
  cbn [default from_option]. unfold id. rewrite !List.forallb_forall.
  intros Hc ch Hch. specialize (Hc ch Hch). unfold ocrChannelShape in Hc.
  unfold canonicalChannel. destruct (ch_overwrites ch); [|reflexivity].
  rewrite andb_false_r in Hc. apply andb_true_iff in Hc as [Hc _]. discriminate.
Qed.

Lemma ocr_canonical (ocr : option jsstring) :
  canonicalTemplate (ImageAnalyzer.analyzeImageStub ocr) = true.
Proof.
  destruct (ocr_template ocr) as [c [cs [Ec [Er Sh]]]].
  unfold canonicalTemplate. rewrite Er, Ec. cbn [arrayOr default from_option]. unfold id.
  apply andb_true_iff. split; [reflexivity|].
  rewrite List.forallb_forall in *. intros x Hx. apply ocrCategory_canonical, Sh, Hx.
Qed.

(** X22.  Whatever the image gives, also when it cannot be loaded or
    read, [analyzeImageStub] returns a template with at least one category
    and without [roles]; each of its categories has an array of channels,
    and each channel the type [voice] or [text], one of five fixed topics,
    the [private] flag off and no overwrite. *)
Theorem ocr_template_shape (ocr : option jsstring) :
  exists c cs,
    categories (ImageAnalyzer.analyzeImageStub ocr) = IsArray (c :: cs) /\
    roles (ImageAnalyzer.analyzeImageStub ocr) = Absent /\
    forallb ocrCategoryShape (c :: cs) = true.
Proof. apply ocr_template. Qed.

Section WithPlatform.
Context {G : Type} `{Platform G}.

Lemma extends_forEach_in {A} (P : Call -> Prop) (l : list A) (body : A -> M G unit) :
  (forall x, In x l -> extends P (body x)) -> extends P (forEach l body).
Proof.
  induction l as [|x l IH]; intros Hb; cbn [forEach].
  - apply EngineFacts.extends_ret.
  - apply EngineFacts.extends_bind; [apply Hb; left; reflexivity|].
    intros _. apply IH. intros y Hy. apply Hb. right. exact Hy.
Qed.

Lemma ocr_category_calls m (c : CategorySpec) :
  ocrCategoryShape c = true -> extends isChannelCall (buildCategory m c).
Proof.
  intros Sh. unfold buildCategory.
  apply EngineFacts.extends_bind; [apply EngineFacts.extends_call; exact I|].
  intros parent. apply extends_forEach_in. intros ch Hch.
  unfold ocrCategoryShape in Sh. destruct (cat_channels c) as [chs|]; [|discriminate].
  cbn [default from_option] in Hch. unfold id in Hch.
  rewrite List.forallb_forall in Sh. specialize (Sh ch Hch).
  unfold buildChannel. apply EngineFacts.extends_bind.
  - unfold createChannelSafe. apply EngineFacts.extends_catch.
    + apply EngineFacts.extends_call. exact I.
    + intros e.
      match goal with |- extends _ (if ?c then _ else _) => destruct c end.
      * apply EngineFacts.extends_call. exact I.
      * apply EngineFacts.extends_throw.
  - intros channel. unfold ocrChannelShape in Sh.
    destruct (ch_overwrites ch); [|apply EngineFacts.extends_ret].
    rewrite andb_false_r in Sh. apply andb_true_iff in Sh as [Sh _]. discriminate.
Qed.

(** X23.  A build from an image only asks the platform for categories and
    channels, never for a role or an overwrite, and can only fail by a
    rejection of the platform. *)
Theorem image_build_calls (ocr : option jsstring) :
  extends isChannelCall (buildServerFromTemplate (ImageAnalyzer.analyzeImageStub ocr)) /\
  raises platformError (buildServerFromTemplate (ImageAnalyzer.analyzeImageStub ocr)).
Proof.
  split; [|apply RunFacts.platform_build_raises, ocr_canonical].
  destruct (ocr_template ocr) as [c [cs [Ec [Er Sh]]]].
  unfold buildServerFromTemplate. rewrite Er, Ec.
  apply EngineFacts.extends_bind; [apply EngineFacts.extends_ret|].
  intros m. apply extends_forEach_in. intros x Hx.
  rewrite List.forallb_forall in Sh. apply ocr_category_calls, Sh, Hx.
Qed.

(** X24.  The image import, from the modal to the reply, inside a server
    and outside one.  The template read from the image is checked before
    the target is looked at: one that is too large is refused, also
    outside a server and never as an invalid template, and the target is
    left as it was; this never happens to the fallback template of an
    image that cannot be read.  A template that passes is reported ready
    outside a server, where nothing is built; inside one the target is
    what the engine leaves, and the build can only fail by a rejection of
    the platform. *)
Theorem modalImage_outcomes (ocr : option jsstring) (w : option (World G)) :
  match ensureTemplateSafe (Some (ImageAnalyzer.analyzeImageStub ocr)) with
  | Some v =>
      errorKind v = LimitExceeded /\ ocr <> None /\
      Handlers.modalImage ocr w = (w, Handlers.ErrorReply v)
  | None =>
      match w with
      | None => Handlers.modalImage ocr w = (None, Handlers.TemplateReady)
      | Some w0 =>
          fst (Handlers.modalImage ocr w) =
            Some (fst (buildServerFromTemplate (ImageAnalyzer.analyzeImageStub ocr) w0)) /\
          match snd (buildServerFromTemplate (ImageAnalyzer.analyzeImageStub ocr) w0) with
          | Ok _ => snd (Handlers.modalImage ocr w) = Handlers.ServerBuiltFromImage
          | Throw e =>
              platformError e /\
              snd (Handlers.modalImage ocr w) = Handlers.BuildFailed e
          end
      end
  end.
Proof.
  unfold Handlers.modalImage.
  destruct (ensureTemplateSafe (Some (ImageAnalyzer.analyzeImageStub ocr))) as [v|] eqn:V.
  - destruct (ocr_template ocr) as [c [cs [Ec _]]].
    split; [|split; [|reflexivity]].
    + rewrite (ValidatorFacts.ensureTemplateSafe_array _ _ Ec) in V.
      repeat match type of V with context [if ?c then _ else _] => destruct c end;
        inversion V; reflexivity.
    + intros ->. vm_compute in V. discriminate.
  - destruct w as [w0|]; [|reflexivity].
    destruct (buildServerFromTemplate (ImageAnalyzer.analyzeImageStub ocr) w0)
      as [w' [[]|e]] eqn:E; cbn [fst snd].
    + auto.
    + split; [reflexivity|]. split; [|reflexivity].
      apply (RunFacts.platform_build_raises _ (ocr_canonical ocr) w0 w' e E).
Qed.

End WithPlatform.
End WithHost.
End OcrFacts.

(* ===================================================================== *)
(** * Part XXVII: the normalization of a line                             *)
(* ===================================================================== *)

Module LineFacts.
Import JS Regex Model TextParser Statements Behaviour.

(** ** A replacement of single units *)

Lemma matchAt_class (p : N -> bool) (prev : option N) (s : jsstring) (i : nat) :
  matchAt (Chr p) (mkPos prev s i None) =
    match s with
    | c :: _ => if p c then Some (mkFound i (S i) None) else None
    | [] => None
    end.
Proof.
  unfold matchAt. destruct s as [|c s]; [reflexivity|].
  simpl. unfold advance. simpl. destruct (p c); reflexivity.
Qed.

Lemma searchFrom_class (p : N -> bool) (s : jsstring) :
  forall prev i,
    match searchFrom (Chr p) prev s i with
    | None => Forall (fun c => p c = false) s
    | Some m =>
        exists pre c tail,
          s = pre ++ c :: tail /\ Forall (fun c => p c = false) pre /\ p c = true /\
          mstart m = (i + length pre)%nat /\ mend m = S (i + length pre)
    end.
Proof.
  induction s as [|c s IH]; intros prev i.
  - cbn [searchFrom]. rewrite matchAt_class. constructor.
  - cbn [searchFrom]. rewrite matchAt_class.
    destruct (p c) eqn:Pc.
    + exists [], c, s. cbn [mstart mend length app]. rewrite Nat.add_0_r.
      repeat split; auto.
    + specialize (IH (Some c) (S i)).
      destruct (searchFrom (Chr p) (Some c) s (S i)) as [m|].
      * destruct IH as [pre [d [tail [Es [Fp [Pd [Ms Me]]]]]]].
        exists (c :: pre), d, tail. cbn [length app]. rewrite Es.
        repeat split; auto; lia.
      * constructor; assumption.
Qed.

Lemma flat_map_unchanged (p : N -> bool) (rep : jsstring) (s : jsstring) :
  Forall (fun c => p c = false) s ->
  flat_map (fun c => if p c then rep else [c]) s = s.
Proof.
  induction 1 as [|c s Pc F IH]; cbn [flat_map]; [reflexivity|].
  rewrite Pc, IH. reflexivity.
Qed.

Lemma replaceLoop_class (p : N -> bool) (rep : jsstring) (fuel : nat) :
  forall s prev i,
    (length s < fuel)%nat ->
    replaceLoop fuel (Chr p) rep prev s i = flat_map (fun c => if p c then rep else [c]) s.
Proof.
  induction fuel as [|fuel IH]; intros s prev i L; [lia|].
  cbn [replaceLoop]. pose proof (searchFrom_class p s prev i) as Sp.
  destruct (searchFrom (Chr p) prev s i) as [m|].
  - destruct Sp as [pre [c [tail [Es [Fp [Pc [Ms Me]]]]]]].
    rewrite Ms, Me.
    replace (i + length pre - i)%nat with (length pre) by lia.
    replace (S (i + length pre) - i)%nat with (S (length pre)) by lia.
    replace (Nat.eqb (S (length pre)) (length pre)) with false
      by (symmetry; apply Nat.eqb_neq; lia).
    subst s. rewrite firstn_app, firstn_all, Nat.sub_diag. cbn [firstn].
    rewrite app_nil_r.
    replace (skipn (S (length pre)) (pre ++ c :: tail)) with tail.
    + rewrite IH by (rewrite length_app in L; cbn [length] in L; lia).
      rewrite flat_map_app. cbn [flat_map]. rewrite Pc.
      rewrite (flat_map_unchanged p rep pre Fp). reflexivity.
    + change (pre ++ c :: tail) with (pre ++ [c] ++ tail). rewrite app_assoc.
      rewrite skipn_app.
      replace (length (pre ++ [c])) with (S (length pre))
        by (rewrite length_app; cbn; lia).
      rewrite Nat.sub_diag, skipn_all2 by (rewrite length_app; cbn; lia).
      reflexivity.
  - symmetry. apply flat_map_unchanged, Sp.
Qed.

Lemma replaceAll_class (p : N -> bool) (rep : jsstring) (s : jsstring) :
  replaceAll (Chr p) rep s = flat_map (fun c => if p c then rep else [c]) s.
Proof. unfold replaceAll. apply replaceLoop_class. lia. Qed.

Lemma flat_map_flat_map {A B C} (f : A -> list B) (g : B -> list C) (l : list A) :
  flat_map g (flat_map f l) = flat_map (fun x => flat_map g (f x)) l.
Proof.
  induction l as [|x l IH]; cbn [flat_map]; [reflexivity|].
  rewrite flat_map_app, IH. reflexivity.
Qed.

Lemma normalizeLine_units (s : jsstring) : normalizeLine s = flat_map normalizeUnit s.
Proof.
  unfold normalizeLine, chr. rewrite !replaceAll_class, !flat_map_flat_map.
  apply flat_map_ext. intros c. unfold normalizeUnit.
  destruct (65279 =? c) eqn:E1; [reflexivity|].
  cbn [flat_map app].
  destruct (8203 =? c) eqn:E2; [reflexivity|].
  cbn [flat_map app].
  destruct (160 =? c) eqn:E3; [reflexivity|].
  cbn [flat_map app].
  destruct (isBar c) eqn:E4; [reflexivity|].
  cbn [flat_map app].
  destruct (isDash c) eqn:E5; reflexivity.
Qed.

Lemma normalizeUnit_again (c : N) : flat_map normalizeUnit (normalizeUnit c) = normalizeUnit c.
Proof.
  unfold normalizeUnit.
  destruct (65279 =? c) eqn:E1; [reflexivity|].
  destruct (8203 =? c) eqn:E2; [reflexivity|].
  destruct (160 =? c) eqn:E3; [reflexivity|].
  destruct (isBar c) eqn:E4; [reflexivity|].
  destruct (isDash c) eqn:E5; [reflexivity|].
  cbn [flat_map]. rewrite E1, E2, E3, E4, E5. reflexivity.
Qed.

(** X25.  [normalizeLine] works unit by unit: it drops the byte order mark
    and the zero width space, turns the no-break space into a space, each
    of the eight bar characters into [|] and each of the two dashes into
    [-], and leaves every other unit.  So it is idempotent (the parser
    normalizes a line several times over) and never makes a line longer. *)
Theorem normalizeLine_idempotent (s : jsstring) :
  normalizeLine s = flat_map normalizeUnit s /\
  normalizeLine (normalizeLine s) = normalizeLine s /\
  (length (normalizeLine s) <= length s)%nat.
Proof.
  split; [apply normalizeLine_units|]. split.
  - rewrite !normalizeLine_units, flat_map_flat_map. apply flat_map_ext.
    intros c. apply normalizeUnit_again.
  - rewrite normalizeLine_units. induction s as [|c s IH]; [cbn; lia|].
    cbn [flat_map]. rewrite length_app. cbn [length].
    assert (length (normalizeUnit c) <= 1)%nat; [|lia].
    unfold normalizeUnit.
    repeat match goal with |- context [if ?b then _ else _] => destruct b end; cbn; lia.
Qed.

End LineFacts.

(* ===================================================================== *)
(** * Part XXVIII: categories before channels, and the two role loops     *)
(* ===================================================================== *)

Module PhaseFacts.
Import JS Unicode Model Live ServerBuilder Index Statements Behaviour.

Section WithHost.
Context `{Host}.

Section WithPlatform.
Context {G : Type} `{Platform G}.

Lemma channelPayload_parent (parent : jsstring) (ch : ChannelSpec) :
  cp_parent (channelPayload parent ch) = Some parent.
Proof. unfold channelPayload. destruct (isVoiceType (ch_type ch)); reflexivity. Qed.

Lemma buildChannel_children m (parent : jsstring) (ch : ChannelSpec) :
  extends (childCall parent) (buildChannel m parent ch).
Proof.
  unfold buildChannel. apply EngineFacts.extends_bind.
  - unfold createChannelSafe. apply EngineFacts.extends_catch.
    + apply EngineFacts.extends_call. apply channelPayload_parent.
    + intros e.
      match goal with |- extends _ (if ?c then _ else _) => destruct c end.
      * apply EngineFacts.extends_call. cbn [childCall cp_parent].
        apply channelPayload_parent.
      * apply EngineFacts.extends_throw.
  - intros channel. destruct (ch_overwrites ch) as [ows|]; [|apply EngineFacts.extends_ret].
    apply EngineFacts.extends_forEach. intros ow.
    apply EngineFacts.applyOverwrite_log. intros; exact I.
Qed.

(** X26.  A category is created first, without a parent.  When the
    platform rejects it, the run halts there and none of its channels is
    attempted.  Otherwise every channel that is then created for it (also
    on the retry without topic) names as its parent the identifier that the
    platform returned for the category, and no role is created any more. *)
Theorem category_before_children m (c : CategorySpec) (w : World G) :
  cp_parent (categoryPayload c) = None /\
  match channelsCreate (categoryPayload c) (guild w) with
  | (g', inl e) =>
      buildCategory m c w =
        (mkWorld g' (log w ++ [CreateChannel (categoryPayload c)]), Throw (Rejected e))
  | (g', inr id) =>
      exists l,
        log (fst (buildCategory m c w)) = log w ++ CreateChannel (categoryPayload c) :: l /\
        Forall (childCall id) l
  end.
Proof.
  split; [reflexivity|]. unfold buildCategory, bind, call.
  destruct (channelsCreate (categoryPayload c) (guild w)) as [g' [e|id]]; [reflexivity|].
  assert (E : extends (childCall id)
                (forEach (default [] (cat_channels c)) (buildChannel m id))).
  { apply EngineFacts.extends_forEach. intros ch. apply buildChannel_children. }
  destruct (E (mkWorld g' (log w ++ [CreateChannel (categoryPayload c)]))) as [l [El Fl]].
  exists l. rewrite El. cbn [log]. rewrite <- app_assoc. auto.
Qed.

Lemma flagged_payload (r : RoleSpec) (p : Z) :
  flagged r ->
  mkRolePayload (role_name r) (color r) (Some (default false (hoist r)))
    (Some (default true (mentionable r))) p = rolePayload r p.
Proof.
  intros [[h Eh] [[mt Em] _]]. unfold rolePayload. rewrite Eh, Em. reflexivity.
Qed.

Lemma role_loops_agree (rs : list RoleSpec) :
  Forall (fun r => mapsToBase r = false /\ flagged r) rs ->
  forall created m (w : World G),
    fst (Handlers.createRolesFrom created rs w) = fst (ensureRolesFrom m rs w) /\
    match snd (Handlers.createRolesFrom created rs w), snd (ensureRolesFrom m rs w) with
    | Ok _, Ok _ => True
    | Throw e, Throw e' => e = e'
    | _, _ => False
    end.
Proof.
  induction 1 as [|r rs [Br Fr] Brs IH]; intros created m w.
  - cbn. auto.
  - assert (Nn : Handlers.normalizePermissionsInput (permissions r) =
                 normalizePermValue (permissions r))
      by (apply NormalizerFacts.normalizers_same, Fr).
    destruct (normalizePermValue (permissions r)) as [p|e] eqn:Np.
    + destruct (rolesCreate (rolePayload r p) (guild w)) as [g' [e|id]] eqn:Rc.
      * rewrite (EngineFacts.ensureRolesFrom_rejected m r rs w p g' e Br Np Rc).
        assert (E : Handlers.createRolesFrom created (r :: rs) w =
                    (mkWorld g' (log w ++ [CreateRole (rolePayload r p)]),
                     Throw (Rejected e))).
        { cbn [Handlers.createRolesFrom]. unfold bind, liftOutcome, call.
          rewrite Nn, (flagged_payload r p Fr), Rc. reflexivity. }
        rewrite E. cbn. auto.
      * rewrite (EngineFacts.ensureRolesFrom_created m r rs w p g' id Br Np Rc).
        assert (E : Handlers.createRolesFrom created (r :: rs) w =
                    Handlers.createRolesFrom (created ++ [id]) rs
                      (mkWorld g' (log w ++ [CreateRole (rolePayload r p)]))).
        { cbn [Handlers.createRolesFrom]. unfold bind at 1, liftOutcome at 1.
          rewrite Nn. unfold bind at 1, call at 1.
          rewrite (flagged_payload r p Fr), Rc. reflexivity. }
        rewrite E. apply IH.
    + rewrite (EngineFacts.ensureRolesFrom_invalid m r rs w e Br Np).
      assert (E : Handlers.createRolesFrom created (r :: rs) w = (w, Throw e)).
      { cbn [Handlers.createRolesFrom]. unfold bind, liftOutcome.
        rewrite Nn. reflexivity. }
      rewrite E. cbn. auto.
Qed.

(** X27.  On a list of RoleSpecs none of which is bound to the base role,
    each of which carries both a [hoist] and a [mentionable] value and a
    permission value other than the number NaN, [createRoles] of index.js
    and [ensureRoles] of serverBuilder.js do the same: the same calls in
    the same order, the same final state of the platform, and either both
    end without error or both raise the same error.  (For a missing flag
    the former sends a default where the latter sends none, and on NaN the
    two normalizers differ.) *)
Theorem createRoles_like_ensureRoles (rs : list RoleSpec) (w : World G) :
  Forall (fun r => mapsToBase r = false /\ flagged r) rs ->
  fst (Handlers.createRoles rs w) = fst (ensureRoles rs w) /\
  match snd (Handlers.createRoles rs w), snd (ensureRoles rs w) with
  | Ok _, Ok _ => True
  | Throw e, Throw e' => e = e'
  | _, _ => False
  end.
Proof.
  intros B. unfold Handlers.createRoles, ensureRoles. apply role_loops_agree, B.
Qed.

End WithPlatform.
End WithHost.

(** Without its flags a RoleSpec makes the two loops differ: the roles
    import sends the defaults, the engine sends none. *)
Lemma role_loops_differ :
  log (fst (Handlers.createRoles (H := Examples.asciiHost) (H0 := Sim.accepting)
              [Examples.bareRole] Examples.freshWorld)) =
    [CreateRole (mkRolePayload (lit "Bare") 0 (Some false) (Some true) 0)] /\
  log (fst (ensureRoles (H := Examples.asciiHost) (H0 := Sim.accepting)
              [Examples.bareRole] Examples.freshWorld)) =
    [CreateRole (mkRolePayload (lit "Bare") 0 None None 0)].
Proof. split; vm_compute; reflexivity. Qed.

Lemma createRoles_like_ensureRoles_witness :
  fst (Handlers.createRoles (H := Examples.asciiHost) (H0 := Sim.accepting)
         Examples.smallRoles Examples.freshWorld) =
  fst (ensureRoles (H := Examples.asciiHost) (H0 := Sim.accepting)
         Examples.smallRoles Examples.freshWorld).
Proof.
  apply (createRoles_like_ensureRoles (H := Examples.asciiHost) (H0 := Sim.accepting)
           Examples.smallRoles Examples.freshWorld).
  repeat constructor; try (eexists; reflexivity). discriminate.
Defined.

End PhaseFacts.

(* ===================================================================== *)
(** * Part XXIX: the names and topics that a run sends                    *)
(* ===================================================================== *)

Module Truncation.
Import JS Unicode Model Live ServerBuilder Index Statements Behaviour.

Section WithHost.
Context `{Host}.






Lemma fits_category (c : CategorySpec) : fits (categoryPayload c).
Proof.
  split; [apply CallFacts.sanitizeName_nonempty|apply EngineFacts.categoryPayload_sized].
Qed.

Lemma fits_channel parent (ch : ChannelSpec) : fits (channelPayload parent ch).
Proof.
  split; [|apply EngineFacts.channelPayload_sized].
  unfold channelPayload. destruct (isVoiceType (ch_type ch)); cbn [cp_name];
    apply CallFacts.sanitizeName_nonempty.
Qed.

Lemma fits_retry (p : ChannelPayload) : fits p -> fits (withoutTopic p).
Proof.
  intros [N [L _]]. split; [exact N|]. split; [exact L|]. intros t E. discriminate.
Qed.

Section WithPlatform.
Context {G : Type} `{Platform G}.

(** ** The creation calls of a run *)







(** ** A platform that accepts what fits *)

Lemma fitting_succeeds (g : G) (t : Template) :
  acceptsFitting -> canonicalTemplate t = true -> snd (provision g t) = Ok tt.
Proof.
  intros [AR [AC AO]] Ct.
  assert (R : raises (fun _ => False) (buildServerFromTemplate t)).
  { apply (RunFacts.sized_build_raises _ fits).
    - exact fits_category.
    - exact fits_channel.
    - exact fits_retry.
    - intros p. apply RunFacts.raises_call_lenient. intros g0. apply AR.
    - intros p Fp. apply RunFacts.raises_call_lenient. intros g0. apply AC, Fp.
    - intros c r a d. apply RunFacts.raises_call_lenient. intros g0.
      destruct (AO c r a d g0) as [g' E]. exists g', tt. exact E.
    - exact Ct. }
  unfold provision.
  destruct (buildServerFromTemplate t (mkWorld g [])) as [w' [[]|e]] eqn:E; [reflexivity|].
  destruct (R _ _ _ E).
Qed.


End WithPlatform.
End WithHost.




End Truncation.

(* ===================================================================== *)
(** * Part XXX: provisioning, then extraction                             *)
(* ===================================================================== *)

Module Reproduction.
Import JS Unicode Model Live ServerBuilder Index Statements Behaviour.

Section WithHost.
Context `{Host}.

Lemma placed_fitting (place : N -> Z) (reject : ChannelPayload -> option ApiError) :
  (forall p, fits p -> reject p = None) ->
  @acceptsFitting Sim.State (Sim.platformAt place reject).
Proof.
  intros A. split; [|split].
  - intros p g. eexists. eexists. reflexivity.
  - intros p g Fp. cbn [channelsCreate Sim.platformAt]. unfold Sim.createChannelAt.
    rewrite (A p Fp). eexists. eexists. reflexivity.
  - intros c r a d g. eexists. reflexivity.
Qed.

(** C1 (amended).  The reference platform stores what the creation calls
    carry; where it lists what it creates ([place]) and which channel
    creations it refuses ([reject]) is left open.  For every template,
    whenever provisioning it into the empty target ends without error, the
    template extracted from the result has, up to the order in which the
    platform lists them,
    - as roles: the base role of the target and one role for each RoleSpec
      that is not bound to the base role, with the same name, the same
      color and the decimal text of the permission bits sent for it, which
      is the permission value of the RoleSpec when that is a decimal text;
    - as categories: one for each CategorySpec, under its sanitized name,
      with one channel for each of its ChannelSpecs, under its sanitized
      name and with the type [voice] or [text] that [isVoiceType] gives; so
      names that sanitizing leaves as they are and types written [voice]
      or [text] are reproduced exactly.
    Provisioning does end without error when the permission values of the
    template are decimal texts, its categories are an array, its roles an
    array or absent, and the platform refuses no creation of a channel or
    category with a name of 1 to 90 units and a topic of at most 1024.
    Nothing is said of [refId]. *)
Theorem provision_extract_round_trip (place : N -> Z)
    (reject : ChannelPayload -> option ApiError) (t : Template) :
  let run := provision (H0 := Sim.platformAt place reject) Sim.emptyTarget t in
  let back := fromGuild (Sim.fetch (guild (fst run))) in
  let rs := default [] (arrayOr (roles t)) in
  let cs := default [] (arrayOr (categories t)) in
  let base := (lit "@everyone", 0%N, PermString (lit "0")) in
  ((forall p, fits p -> reject p = None) -> canonicalTemplate t = true -> snd run = Ok tt) /\
  (snd run = Ok tt ->
   exists rs' cs',
     roles back = IsArray rs' /\
     categories back = IsArray cs' /\
     Permutation (rolesOf rs') (base :: List.map sentEntry (List.filter created rs)) /\
     sameOutline (outlineOf cs') (typedOutline (List.map expectedCategory cs)) /\
     (rolesCanonical rs = true ->
      Permutation (rolesOf rs') (base :: rolesOf (List.filter created rs))) /\
     (forallb cleanCategory cs = true -> sameOutline (outlineOf cs') (outlineOf cs))).
Proof.
  intros run back rs cs base. split.
  - intros A Ct. apply Truncation.fitting_succeeds; [apply placed_fitting, A|exact Ct].
  - intros Ok'. unfold run, provision in Ok'.
    destruct (buildServerFromTemplate (H0 := Sim.platformAt place reject) t
                (mkWorld Sim.emptyTarget [])) as [w' [[]|e]] eqn:E; [|discriminate].
    destruct (RoundTrip.run_extracted place reject t w' E) as [rs' [cs' [Er [Ec [Pr So]]]]].
    assert (Ew : fst run = w') by (unfold run, provision; rewrite E; reflexivity).
    exists rs', cs'. unfold back. rewrite Ew.
    split; [exact Er|]. split; [exact Ec|]. split; [exact Pr|]. split; [exact So|].
    split.
    + intros Cr. fold rs in Pr.
      rewrite <- (RoundTrip.sentEntry_canonical (List.filter created rs)
                    (RoundTrip.rolesCanonical_filter _ _ Cr)).
      exact Pr.
    + intros Cc. fold cs in So.
      rewrite <- (RoundTrip.clean_outline cs Cc). exact So.
Qed.

End WithHost.

(** The small template comes back from the platform that lists what it
    creates in creation order. *)
Lemma provision_extract_round_trip_witness :
  let t := mkTemplate (IsArray Examples.smallRoles) (IsArray Examples.smallCategories) [] in
  let run := provision (H := Examples.asciiHost) (H0 := Sim.platformAt Z.of_N (fun _ => None))
               Sim.emptyTarget t in
  let back := fromGuild (Sim.fetch (guild (fst run))) in
  exists rs' cs',
    roles back = IsArray rs' /\
    categories back = IsArray cs' /\
    Permutation (rolesOf rs')
      ((lit "@everyone", 0%N, PermString (lit "0"))
       :: List.map (sentEntry (H := Examples.asciiHost))
            (List.filter created Examples.smallRoles)) /\
    sameOutline (outlineOf cs')
      (typedOutline (List.map (expectedCategory (H := Examples.asciiHost))
                       Examples.smallCategories)) /\
    (rolesCanonical Examples.smallRoles = true ->
     Permutation (rolesOf rs')
       ((lit "@everyone", 0%N, PermString (lit "0"))
        :: rolesOf (List.filter created Examples.smallRoles))) /\
    (forallb cleanCategory Examples.smallCategories = true ->
     sameOutline (outlineOf cs') (outlineOf Examples.smallCategories)).
Proof.
  apply (proj2 (provision_extract_round_trip (H := Examples.asciiHost) Z.of_N (fun _ => None)
                  (mkTemplate (IsArray Examples.smallRoles)
                     (IsArray Examples.smallCategories) []))).
  vm_compute. reflexivity.
Defined.

(** C1, as stated, fails.  A category name of 91 units comes back with its
    first 90, and a template without roles comes back with the base role
    of the target.  On a platform that lists what it creates last first,
    two categories come back in the other order.  On a platform that
    refuses a channel name, provisioning fails and the category of that
    channel comes back without it. *)
Lemma provision_extract_counterexample :
  (let r := provision (H := Examples.asciiHost) (H0 := Sim.accepting) Sim.emptyTarget
              Examples.longTemplate in
   let back := fromGuild (Sim.fetch (guild (fst r))) in
   snd r = Ok tt /\
   categories Examples.longTemplate = IsArray [mkCategory (repeat 97 91) (Some [])] /\
   categories back = IsArray [mkCategory (repeat 97 90) (Some [])] /\
   roles Examples.longTemplate = IsArray [] /\
   exists base, roles back = IsArray [base]) /\
  (let r := provision (H := Examples.asciiHost)
              (H0 := Sim.platformAt Examples.reversing (fun _ => None)) Sim.emptyTarget
              Examples.twoTemplate in
   let back := fromGuild (Sim.fetch (guild (fst r))) in
   snd r = Ok tt /\
   categories Examples.twoTemplate =
     IsArray [mkCategory (lit "A") (Some []); mkCategory (lit "B") (Some [])] /\
   categories back =
     IsArray [mkCategory (lit "B") (Some []); mkCategory (lit "A") (Some [])]) /\
  (let r := provision (H := Examples.asciiHost) (H0 := Sim.platform Examples.rejectBadName)
              Sim.emptyTarget Examples.badTemplate in
   let back := fromGuild (Sim.fetch (guild (fst r))) in
   snd r = Throw (Rejected Examples.nameError) /\
   categories back = IsArray [mkCategory (lit "INFO") (Some [])]).
Proof.
  vm_compute. repeat split. eexists. reflexivity.
Qed.

End Reproduction.
